(** * asdetector: acquisition and reduction engine

    A shallow embedding of the parts of the [asdetector] package that the
    specification talks about:

    - [utils/image.py]: the registry of up-the-ramp reduction modes
      (frame counts, effective exposure times, CDS and Fowler reductions),
      channel deinterlacing, and cutting and framing an image;
    - [detector/macie/io.py]: the bit masks of cards and ASICs, the
      deinterleaving index arrays and [deinterleave], the skip schedule and
      status updates of [BaseMACIE.start], and the telemetry decoding of
      [BaseACADIA.parse_science_header];
    - [detector/macie/apisimulator.py]: the simulated ASIC mask and frame;
    - [utils/status.py]: the [Status] object and its JSON document;
    - [utils/files.py]: the settings file;
    - [interface/interface.py]: [execute_command] and the MODE and STATUS
      commands.

    Conventions.  Python [float]s are modelled by exact rationals ([Q]),
    Python [int]s by [Z], numpy index arrays by lists of [nat], dictionaries
    by [gmap], and exceptions by the error monad [res].  Functions keep the
    names they have in the source. *)

From Stdlib Require Import ZArith QArith Qround Qabs Lqa Lia List Bool Ascii.
From stdpp Require Import base option list gmap strings pretty sorting.

(** ** Python preliminaries *)

(** The exception classes that occur in the modelled code.  The last two
    derive from [BaseException] only, so [except Exception] lets them pass. *)
Inductive exn : Type :=
| ZeroDivisionError
| IndexError
| KeyError
| ValueError
| TypeError
| TimeoutError
| ConnectionAbortedError
| ExecutionError
| OtherException (name : string)
| KeyboardInterrupt
| SystemExit.

Definition is_Exception (e : exn) : bool :=
  match e with
  | KeyboardInterrupt | SystemExit => false
  | _ => true
  end.

(** A computation that returns a value or raises. *)
Definition res (A : Type) : Type := (exn + A)%type.

Definition ret {A : Type} (a : A) : res A := inr a.
Definition raise {A : Type} (e : exn) : res A := inl e.
Definition bind {A B : Type} (c : res A) (k : A -> res B) : res B :=
  match c with
  | inl e => inl e
  | inr a => k a
  end.

Notation "'let*' x ':=' c 'in' k" := (bind c (fun x => k))
  (at level 10, x name, c at level 100, k at level 200).

(** [round(x)] of Python 3 on a float: the nearest integer, ties going to
    the even neighbour. *)
Definition py_round (x : Q) : Z :=
  let f := Qfloor x in
  match (x - inject_Z f ?= 1 # 2)%Q with
  | Lt => f
  | Gt => (f + 1)%Z
  | Eq => if Z.even f then f else (f + 1)%Z
  end.

(** An index or slice bound [i] of a sequence of length [len]: negative
    values count from the end, and slice bounds are clipped to [0, len]. *)
Definition py_slice_bound (len i : Z) : Z :=
  let j := if (i <? 0)%Z then (i + len)%Z else i in
  Z.max 0 (Z.min len j).

(** [l[start:stop]] *)
Definition py_slice {A : Type} (l : list A) (start stop : Z) : list A :=
  let len := Z.of_nat (length l) in
  let s := py_slice_bound len start in
  let e := py_slice_bound len stop in
  firstn (Z.to_nat (e - s)) (skipn (Z.to_nat s) l).

(** [l[i]], raising [IndexError] out of range. *)
Definition py_getitem {A : Type} (l : list A) (i : Z) : res A :=
  let len := Z.of_nat (length l) in
  let j := if (i <? 0)%Z then (i + len)%Z else i in
  if (j <? 0)%Z then raise IndexError
  else match nth_error l (Z.to_nat j) with
       | Some a => ret a
       | None => raise IndexError
       end.

(** ** utils/image.py: the reduction-mode registry *)

Module Image.

Local Open Scope Q_scope.

(** *** Ramps and their reduction

    A ramp is a numpy array whose first axis runs over the frames.  Each
    frame is kept flat, as the list of its pixels; the element type is
    carried next to the data.  Only integer element types are modelled. *)

Inductive dtype_kind : Type := KUInt | KInt.

(** [str(dtype)] is ["uint16"] for [{| kind := KUInt; bits := 16 |}] and
    ["int16"] for [{| kind := KInt; bits := 16 |}]. *)
Record dtype : Type := { kind : dtype_kind; bits : Z }.

Record ndarray : Type := { dt : dtype; frames : list (list Z) }.

(** numpy has integer types of 8, 16, 32 and 64 bits, and no others. *)
Definition dtype_known (d : dtype) : bool :=
  ((bits d =? 8) || (bits d =? 16) || (bits d =? 32) || (bits d =? 64))%Z.

(** The value a [d]-typed cell holds after storing the integer [z]. *)
Definition wrap (d : dtype) (z : Z) : Z :=
  match kind d with
  | KUInt => (z mod 2 ^ bits d)%Z
  | KInt => ((z + 2 ^ (bits d - 1)) mod 2 ^ bits d - 2 ^ (bits d - 1))%Z
  end.

(** [a.astype(d)]; an unknown type name is a [TypeError]. *)
Definition astype (d : dtype) (a : list Z) : res (list Z) :=
  if dtype_known d then ret (map (wrap d) a) else raise TypeError.

(** [a - b] on two arrays of element type [d]. *)
Definition np_sub (d : dtype) (a b : list Z) : list Z :=
  zip_with (fun x y => wrap d (x - y)%Z) a b.

(** The branch on [image_type.startswith('u')] drops the leading [u] and
    replaces the precision in the type name by its double. *)
Definition cds_frame_reduce (images : ndarray) : res (dtype * list Z) :=
  let* first := py_getitem (frames images) 0 in
  let image_type :=
    match kind (dt images) with
    | KUInt => {| kind := KInt; bits := bits (dt images) * 2 |}
    | KInt => dt images
    end in
  let* last := py_getitem (frames images) (-1) in
  let* a := astype image_type last in
  let* b := astype image_type first in
  ret (image_type, np_sub image_type a b).

Definition ssr_frame_reduce (images : ndarray) : res (dtype * list Z) :=
  let* last := py_getitem (frames images) (-1) in ret (dt images, last).

(** [images.mean(axis=0)]: the pixelwise mean over the frames, computed in
    floating point.  Over no frames numpy yields NaN, here [None]. *)
Fixpoint sum_axis0 (images : list (list Q)) : list Q :=
  match images with
  | [] => []
  | [f] => f
  | f :: rest => zip_with Qplus f (sum_axis0 rest)
  end.

Definition mean_axis0 (images : list (list Z)) : option (list Q) :=
  match images with
  | [] => None
  | _ =>
      let n := inject_Z (Z.of_nat (length images)) in
      Some (map (fun s => s / n) (sum_axis0 (map (map inject_Z) images)))
  end.

Definition fowler_frame_reduce (images : list (list Z)) (fowler_number : Z)
    : option (list Q) :=
  match mean_axis0 (py_slice images 0 fowler_number) with
  | None => None
  | Some start =>
      match mean_axis0 (py_slice images (-1 - fowler_number) (-1)) with
      | None => None
      | Some end_ => Some (zip_with Qminus end_ start)
      end
  end.

Definition fowler2_frame_reduce images := fowler_frame_reduce images 2.
Definition fowler4_frame_reduce images := fowler_frame_reduce images 4.
Definition fowler8_frame_reduce images := fowler_frame_reduce images 8.
Definition fowler16_frame_reduce images := fowler_frame_reduce images 16.

(** *** numpy index arrays

    Index arrays hold naturals.  A two-dimensional array is the list of its
    rows. *)

Definition np_arange (n : nat) : list nat := seq 0 n.

Fixpoint chunks {A : Type} (rows cols : nat) (a : list A) : list (list A) :=
  match rows with
  | O => []
  | S k => firstn cols a :: chunks k cols (skipn cols a)
  end.

(** [a.reshape(rows, cols)] *)
Definition np_reshape2 {A : Type} (a : list A) (rows cols : nat)
    : res (list (list A)) :=
  if (length a =? rows * cols)%nat then ret (chunks rows cols a)
  else raise ValueError.

(** [a.reshape(size)] of a two-dimensional array *)
Definition np_flatten {A : Type} (a : list (list A)) (size : nat)
    : res (list A) :=
  if (length (concat a) =? size)%nat then ret (concat a)
  else raise ValueError.

(** [a[mask]]: the rows of [a] at which the boolean [mask] is set. *)
Definition mask_select {A : Type} (mask : list bool) (a : list A) : list A :=
  map snd (filter (fun p => fst p = true) (zip mask a)).

(** [for x in l], collecting the results until one raises. *)
Fixpoint mapM {A B : Type} (f : A -> res B) (l : list A) : res (list B) :=
  match l with
  | [] => ret []
  | x :: rest =>
      let* y := f x in
      let* ys := mapM f rest in
      ret (y :: ys)
  end.

(** [row[i::nch]] *)
Definition strided {A : Type} (row : list A) (i nch : nat) : list A :=
  map snd
    (filter (fun p => (i <= fst p)%nat /\ ((fst p - i) mod nch = 0)%nat)
       (imap (fun j x => (j, x)) row)).

(** [ArrayImage.deinterlace] on an index image with [ncols] columns.  The
    columns after the [nheaders] header columns are regrouped by channel,
    every other channel reversed.  When a channel has no column at all the
    slices that are assigned to are empty and the zeroed copy is written
    back; when the columns do not divide evenly the first assignment fails
    on its shapes. *)
Definition deinterlace_row (nch nheaders : nat) (row : list nat) : list nat :=
  let no_header := skipn nheaders row in
  firstn nheaders row ++
  concat (map (fun i =>
                 let src := strided no_header i nch in
                 if Nat.even i then src else rev src)
            (seq 0 nch)).

Definition deinterlace (nch nheaders ncols : nat) (image : list (list nat))
    : res (list (list nat)) :=
  let width := (ncols - nheaders)%nat in
  if (nch =? 0)%nat then raise ZeroDivisionError
  else
    let nch_pix := (width / nch)%nat in
    if (nch_pix =? 0)%nat
    then ret (map (fun row => firstn nheaders row ++ repeat 0%nat width) image)
    else if (width =? nch * nch_pix)%nat
         then ret (map (deinterlace_row nch nheaders) image)
         else raise ValueError.

(** *** Frames needed for an exposure time *)

Definition ssr_calc_frames (exposure_time time_per_frame : Q) : res Z :=
  if Qeq_bool time_per_frame 0 then raise ZeroDivisionError
  else ret (py_round (exposure_time / time_per_frame)).

Definition cds_calc_frames (exposure_time time_per_frame : Q) : res Z :=
  let* n := ssr_calc_frames exposure_time time_per_frame in ret (n + 1)%Z.

Definition mean_calc_frames (exposure_time time_per_frame : Q) : res Z :=
  let* n := ssr_calc_frames exposure_time time_per_frame in ret (n * 2)%Z.

Definition fowler_calc_frames (exposure_time time_per_frame : Q)
    (fowler_number : Z) : res Z :=
  let fowler_time := time_per_frame * inject_Z fowler_number in
  let exposure_time_remaining := exposure_time - fowler_time in
  if Qlt_le_dec exposure_time_remaining 0
  then ret (fowler_number * 2)%Z
  else let* n := ssr_calc_frames exposure_time_remaining time_per_frame in
       ret (n + fowler_number * 2)%Z.

Definition fowler2_calc_frames (t ft : Q) := fowler_calc_frames t ft 2.
Definition fowler4_calc_frames (t ft : Q) := fowler_calc_frames t ft 4.
Definition fowler8_calc_frames (t ft : Q) := fowler_calc_frames t ft 8.
Definition fowler16_calc_frames (t ft : Q) := fowler_calc_frames t ft 16.

Definition FRAMES_PER_EXPOSURE_TIME : gmap string (Q -> Q -> res Z) :=
  <["CDS" := cds_calc_frames]> (
  <["SSR" := ssr_calc_frames]> (
  <["MEAN" := mean_calc_frames]> (
  <["MEDIAN" := mean_calc_frames]> (
  <["MODE" := mean_calc_frames]> (
  <["MIN" := ssr_calc_frames]> (
  <["MAX" := ssr_calc_frames]> (
  <["FOWLER2" := fowler2_calc_frames]> (
  <["FOWLER4" := fowler4_calc_frames]> (
  <["FOWLER8" := fowler8_calc_frames]> (
  <["FOWLER16" := fowler16_calc_frames]> ∅)))))))))).

(** *** Effective exposure time of a frame count *)

Definition cds_calc_exposure (frames : Z) (time_per_frame : Q) : Q :=
  inject_Z (frames - 1) * time_per_frame.

Definition ssr_calc_exposure (frames : Z) (time_per_frame : Q) : Q :=
  inject_Z frames * time_per_frame.

Definition mean_calc_exposure (frames : Z) (time_per_frame : Q) : Q :=
  ssr_calc_exposure frames time_per_frame / 2.

Definition fowler_calc_exposure (frames : Z) (time_per_frame : Q)
    (fowler_number : Z) : Q :=
  let fowler_time := inject_Z fowler_number * time_per_frame in
  let frame_time := inject_Z (frames - 2 * fowler_number) * time_per_frame in
  fowler_time + frame_time.

Definition fowler2_calc_exposure (frames : Z) (ft : Q) :=
  fowler_calc_exposure frames ft 2.
Definition fowler4_calc_exposure (frames : Z) (ft : Q) :=
  fowler_calc_exposure frames ft 4.
(* the source passes 4 here, and in the next one *)
Definition fowler8_calc_exposure (frames : Z) (ft : Q) :=
  fowler_calc_exposure frames ft 4.
Definition fowler16_calc_exposure (frames : Z) (ft : Q) :=
  fowler_calc_exposure frames ft 4.

Definition EXPOSURE_TIME_PER_FRAMES : gmap string (Z -> Q -> Q) :=
  <["CDS" := cds_calc_exposure]> (
  <["SSR" := ssr_calc_exposure]> (
  <["MEAN" := mean_calc_exposure]> (
  <["MEDIAN" := mean_calc_exposure]> (
  <["MODE" := mean_calc_exposure]> (
  <["MIN" := ssr_calc_exposure]> (
  <["MAX" := ssr_calc_exposure]> (
  <["FOWLER2" := fowler2_calc_exposure]> (
  <["FOWLER4" := fowler4_calc_exposure]> (
  <["FOWLER8" := fowler8_calc_exposure]> (
  <["FOWLER16" := fowler16_calc_exposure]> ∅)))))))))).

(** [calc_num_frames] and [calc_effective_exposure_time], with the two
    settings they read passed in. *)
Definition calc_num_frames (MODE : string) (FRAMETIMESEC : Q)
    (exposure_time : Q) : res Z :=
  match FRAMES_PER_EXPOSURE_TIME !! MODE with
  | Some f => f exposure_time FRAMETIMESEC
  | None => raise KeyError
  end.

Definition calc_effective_exposure_time (MODE : string) (FRAMETIMESEC : Q)
    (frames : Z) : res Q :=
  match EXPOSURE_TIME_PER_FRAMES !! MODE with
  | Some g => ret (g frames FRAMETIMESEC)
  | None => raise KeyError
  end.

(** *** The tables of reductions *)

(** What a reduction returns: an integer image with its element type, or a
    floating-point image, [None] standing for an image of NaN. *)
Inductive reduced : Type :=
| ReducedInt (d : dtype) (img : list Z)
| ReducedFloat (img : option (list Q)).

Definition cds_reduced (images : ndarray) : res reduced :=
  let* r := cds_frame_reduce images in ret (ReducedInt (fst r) (snd r)).

Definition ssr_reduced (images : ndarray) : res reduced :=
  let* r := ssr_frame_reduce images in ret (ReducedInt (fst r) (snd r)).

Definition mean_frame_reduce (images : ndarray) : res reduced :=
  ret (ReducedFloat (mean_axis0 (frames images))).

(** [images.max(axis=0)] and [images.min(axis=0)]: pixelwise over the
    frames; over no frames the reduction has no identity and raises. *)
Fixpoint fold_axis0 (f : Z -> Z -> Z) (images : list (list Z))
    : res (list Z) :=
  match images with
  | [] => raise ValueError
  | [x] => ret x
  | x :: rest => let* r := fold_axis0 f rest in ret (zip_with f x r)
  end.

Definition max_frame_reduce (images : ndarray) : res reduced :=
  let* img := fold_axis0 Z.max (frames images) in
  ret (ReducedInt (dt images) img).

Definition min_frame_reduce (images : ndarray) : res reduced :=
  let* img := fold_axis0 Z.min (frames images) in
  ret (ReducedInt (dt images) img).

(** [images.median(axis=0)] and [images.mode(axis=0)]: a numpy array has
    neither method. *)
Definition median_frame_reduce (images : ndarray) : res reduced :=
  raise (OtherException "AttributeError").

Definition mode_frame_reduce (images : ndarray) : res reduced :=
  raise (OtherException "AttributeError").

Definition fowler_reduced (fowler_number : Z) (images : ndarray)
    : res reduced :=
  ret (ReducedFloat (fowler_frame_reduce (frames images) fowler_number)).

Definition FRAME_REDUCE_METHODS : gmap string (ndarray -> res reduced) :=
  <["CDS" := cds_reduced]> (
  <["SSR" := ssr_reduced]> (
  <["MEAN" := mean_frame_reduce]> (
  <["MEDIAN" := median_frame_reduce]> (
  <["MODE" := mode_frame_reduce]> (
  <["MIN" := min_frame_reduce]> (
  <["MAX" := max_frame_reduce]> (
  <["FOWLER2" := fowler_reduced 2]> (
  <["FOWLER4" := fowler_reduced 4]> (
  <["FOWLER8" := fowler_reduced 8]> (
  <["FOWLER16" := fowler_reduced 16]> ∅)))))))))).

Definition INTERMEDIATE_FRAME_REDUCE_METHODS
    : gmap string (ndarray -> res reduced) :=
  <["CDS" := cds_reduced]> (
  <["SSR" := ssr_reduced]> (
  <["MEAN" := mean_frame_reduce]> (
  <["MEDIAN" := median_frame_reduce]> (
  <["MODE" := mode_frame_reduce]> (
  <["MIN" := min_frame_reduce]> (
  <["MAX" := max_frame_reduce]> (
  <["FOWLER2" := cds_reduced]> (
  <["FOWLER4" := cds_reduced]> (
  <["FOWLER8" := cds_reduced]> (
  <["FOWLER16" := cds_reduced]> ∅)))))))))).

Definition reduce_image_from_array (MODE : string) (image_array : ndarray)
    : res reduced :=
  match FRAME_REDUCE_METHODS !! MODE with
  | Some f => f image_array
  | None => raise KeyError
  end.

Definition intermediate_reduce_image_from_array (MODE : string)
    (image_array : ndarray) : res reduced :=
  match INTERMEDIATE_FRAME_REDUCE_METHODS !! MODE with
  | Some f => f image_array
  | None => raise KeyError
  end.

End Image.

(** ** utils/status.py: the status object and its JSON document *)

Module StatusPy.

(** The status dictionary, with the keys the methods below touch.  A key
    that is absent from the dictionary is [None]. *)
Record status_doc : Type := {
  CurrentCommand : option string;
  CommandStartTime : option string;
  CommandComplete : option bool;
  CommandCompleteTime : option string;
  ExposureTimeRemaining : option Q;
  TotalFrameCount : option Z;
  ExposureFrames : option (gmap string (list string));
  IntermediateReducedFrames : option (gmap string (list string));
  FinalReducedFrame : option (gmap string string)
}.

(** [{}] *)
Definition empty_doc : status_doc :=
  {| CurrentCommand := None; CommandStartTime := None;
     CommandComplete := None; CommandCompleteTime := None;
     ExposureTimeRemaining := None; TotalFrameCount := None;
     ExposureFrames := None; IntermediateReducedFrames := None;
     FinalReducedFrame := None |}.

(** A [Status] object together with the file its [JSONHandler] points to:
    [status] is the dictionary held in memory, [json_file] the content of
    the status document on disk ([None] while there is no file), and
    [copies] the dated copies that [gen_status_file] leaves behind. *)
Record Status : Type := {
  status : status_doc;
  json_file : option status_doc;
  copies : list status_doc
}.


Definition save_dict_to_json (d : status_doc) (s : Status) : Status :=
  {| status := status s; json_file := Some d; copies := copies s |}.

Definition set_status (d : status_doc) (s : Status) : Status :=
  {| status := d; json_file := json_file s; copies := copies s |}.

Definition get_status (s : Status) : res status_doc * Status :=
  match json_file s with
  | Some d => (ret d, set_status d s)
  | None => (raise (OtherException "FileNotFoundError"), s)
  end.

(** [now] is the reading of the clock, [dt.isoformat(dt.now())]. *)
Definition update_command_complete (now : string) (complete : bool)
    (s : Status) : Status :=
  let d := status s in
  let d := {| CurrentCommand := CurrentCommand d;
              CommandStartTime := CommandStartTime d;
              CommandComplete := Some complete;
              CommandCompleteTime := Some now;
              ExposureTimeRemaining := ExposureTimeRemaining d;
              TotalFrameCount := TotalFrameCount d;
              ExposureFrames := ExposureFrames d;
              IntermediateReducedFrames := IntermediateReducedFrames d;
              FinalReducedFrame := FinalReducedFrame d |} in
  save_dict_to_json d (set_status d s).

(** The call that writes the file is commented out in this method and in
    the four that follow. *)
Definition update_exposure_time_remaining (exposure_time : Q) (s : Status)
    : Status :=
  let d := status s in
  set_status
    {| CurrentCommand := CurrentCommand d;
       CommandStartTime := CommandStartTime d;
       CommandComplete := CommandComplete d;
       CommandCompleteTime := CommandCompleteTime d;
       ExposureTimeRemaining := Some exposure_time;
       TotalFrameCount := TotalFrameCount d;
       ExposureFrames := ExposureFrames d;
       IntermediateReducedFrames := IntermediateReducedFrames d;
       FinalReducedFrame := FinalReducedFrame d |} s.

Definition update_total_frame_count (frame_count : Z) (s : Status) : Status :=
  let d := status s in
  set_status
    {| CurrentCommand := CurrentCommand d;
       CommandStartTime := CommandStartTime d;
       CommandComplete := CommandComplete d;
       CommandCompleteTime := CommandCompleteTime d;
       ExposureTimeRemaining := ExposureTimeRemaining d;
       TotalFrameCount := Some frame_count;
       ExposureFrames := ExposureFrames d;
       IntermediateReducedFrames := IntermediateReducedFrames d;
       FinalReducedFrame := FinalReducedFrame d |} s.

(** ['CAMERA{}'.format(camera_number)] *)
Definition camera_key (camera_number : Z) : string :=
  ("CAMERA" ++ pretty camera_number)%string.

(** [frames[key].append(frame_file)] on a dictionary of lists. *)
Definition append_at (key : string) (frame_file : string)
    (frames : option (gmap string (list string)))
    : res (gmap string (list string)) :=
  match frames with
  | None => raise KeyError
  | Some m =>
      match m !! key with
      | None => raise KeyError
      | Some l => ret (<[key := l ++ [frame_file]]> m)
      end
  end.

Definition update_exposure_frames (frame_file : string) (camera_number : Z)
    (s : Status) : res unit * Status :=
  let d := status s in
  match append_at (camera_key camera_number) frame_file (ExposureFrames d) with
  | inl e => (inl e, s)
  | inr m =>
      (ret tt,
       set_status
         {| CurrentCommand := CurrentCommand d;
            CommandStartTime := CommandStartTime d;
            CommandComplete := CommandComplete d;
            CommandCompleteTime := CommandCompleteTime d;
            ExposureTimeRemaining := ExposureTimeRemaining d;
            TotalFrameCount := TotalFrameCount d;
            ExposureFrames := Some m;
            IntermediateReducedFrames := IntermediateReducedFrames d;
            FinalReducedFrame := FinalReducedFrame d |} s)
  end.

Definition update_intermediate_reduced_frame_frames (frame_file : string)
    (camera_number : Z) (s : Status) : res unit * Status :=
  let d := status s in
  match append_at (camera_key camera_number) frame_file
          (IntermediateReducedFrames d) with
  | inl e => (inl e, s)
  | inr m =>
      (ret tt,
       set_status
         {| CurrentCommand := CurrentCommand d;
            CommandStartTime := CommandStartTime d;
            CommandComplete := CommandComplete d;
            CommandCompleteTime := CommandCompleteTime d;
            ExposureTimeRemaining := ExposureTimeRemaining d;
            TotalFrameCount := TotalFrameCount d;
            ExposureFrames := ExposureFrames d;
            IntermediateReducedFrames := Some m;
            FinalReducedFrame := FinalReducedFrame d |} s)
  end.

Definition update_final_reduced_exposure (frame_file : string)
    (camera_number : Z) (s : Status) : res unit * Status :=
  let d := status s in
  match FinalReducedFrame d with
  | None => (raise KeyError, s)
  | Some m =>
      (ret tt,
       set_status
         {| CurrentCommand := CurrentCommand d;
            CommandStartTime := CommandStartTime d;
            CommandComplete := CommandComplete d;
            CommandCompleteTime := CommandCompleteTime d;
            ExposureTimeRemaining := ExposureTimeRemaining d;
            TotalFrameCount := TotalFrameCount d;
            ExposureFrames := ExposureFrames d;
            IntermediateReducedFrames := IntermediateReducedFrames d;
            FinalReducedFrame := Some (<[camera_key camera_number := frame_file]> m) |} s)
  end.

(** [gen_status_file]: the template replaces the status file, a copy of the
    previous file being kept under a name made of its [CommandStartTime]
    and [CurrentCommand], which every file written by
    [update_current_command] has.  [template] is the content of
    [status_template.json], which is not part of the sources at hand. *)
Definition gen_status_file (template : status_doc) (s : Status) : Status :=
  match json_file s with
  | None =>
      {| status := status s; json_file := Some template; copies := copies s |}
  | Some old =>
      {| status := status s; json_file := Some template;
         copies := old :: copies s |}
  end.

Definition update_current_command (template : status_doc) (now : string)
    (command : string) (s : Status) : res unit * Status :=
  let s := gen_status_file template s in
  match get_status s with
  | (inl e, s) => (inl e, s)
  | (inr d, s) =>
      let d := {| CurrentCommand := Some command;
                  CommandStartTime := Some now;
                  CommandComplete := CommandComplete d;
                  CommandCompleteTime := CommandCompleteTime d;
                  ExposureTimeRemaining := ExposureTimeRemaining d;
                  TotalFrameCount := TotalFrameCount d;
                  ExposureFrames := ExposureFrames d;
                  IntermediateReducedFrames := IntermediateReducedFrames d;
                  FinalReducedFrame := FinalReducedFrame d |} in
      (ret tt, save_dict_to_json d (set_status d s))
  end.

End StatusPy.

(** ** detector/macie/io.py *)

Module MacieIO.
Import Image StatusPy.

(** The entries of the settings dictionary that the modelled methods read.
    [NUMBEROFREADOUTCHANNELS] and [NUMBEROFSCIENCEHEADERSPERROW] are the
    default arguments of [ArrayImage.deinterlace]. *)
Record Settings : Type := {
  MODE : string;
  FRAMETIMESEC : Q;
  DEINTERLACE : bool;
  NUMBEROFREADOUTCHANNELS : nat;
  NUMBEROFSCIENCEHEADERSPERROW : nat;
  ASICIDLOWERTELEMETRYROW : Z;
  ASICCHIPIDLOWER : gmap Z Z
}.

(** The attributes of a [BaseMACIE] object that the modelled methods use. *)
Record BaseMACIE : Type := {
  settings : Settings;
  frame_x : nat;
  frame_y : nat;
  frame_size : nat;
  science_read_block_size : nat;
  blocks_per_frame : nat;
  total_frame_size : nat;
  list_asics : list Z;
  list_asics_index : list Z;
  deinterleaving_array : list (list nat);
  cam_names : list string;
  n_science_headers : Z;
  reset_frames : Z;
  resync : bool
}.

Definition set_geometry (bpf total : nat) (self : BaseMACIE) : BaseMACIE :=
  {| settings := settings self; frame_x := frame_x self;
     frame_y := frame_y self; frame_size := frame_size self;
     science_read_block_size := science_read_block_size self;
     blocks_per_frame := bpf; total_frame_size := total;
     list_asics := list_asics self;
     list_asics_index := list_asics_index self;
     deinterleaving_array := deinterleaving_array self;
     cam_names := cam_names self;
     n_science_headers := n_science_headers self;
     reset_frames := reset_frames self; resync := resync self |}.

Definition set_deinterleaving_array (arr : list (list nat))
    (self : BaseMACIE) : BaseMACIE :=
  {| settings := settings self; frame_x := frame_x self;
     frame_y := frame_y self; frame_size := frame_size self;
     science_read_block_size := science_read_block_size self;
     blocks_per_frame := blocks_per_frame self;
     total_frame_size := total_frame_size self;
     list_asics := list_asics self;
     list_asics_index := list_asics_index self;
     deinterleaving_array := arr;
     cam_names := cam_names self;
     n_science_headers := n_science_headers self;
     reset_frames := reset_frames self; resync := resync self |}.

Definition set_resync (b : bool) (self : BaseMACIE) : BaseMACIE :=
  {| settings := settings self; frame_x := frame_x self;
     frame_y := frame_y self; frame_size := frame_size self;
     science_read_block_size := science_read_block_size self;
     blocks_per_frame := blocks_per_frame self;
     total_frame_size := total_frame_size self;
     list_asics := list_asics self;
     list_asics_index := list_asics_index self;
     deinterleaving_array := deinterleaving_array self;
     cam_names := cam_names self;
     n_science_headers := n_science_headers self;
     reset_frames := reset_frames self; resync := b |}.

(** *** Deinterleaving *)

(** The second pass on one camera's array: the array as an image, the
    channels regrouped, and the image flat again.  The final conversion of
    the arrays to [int32] is left out; it changes nothing while the buffer
    has fewer than [2^31] cells. *)
Definition channel_pass (self : BaseMACIE) (arr : list nat) : res (list nat) :=
  let* img := np_reshape2 arr (frame_y self) (frame_x self) in
  let* img := deinterlace
                (NUMBEROFREADOUTCHANNELS (settings self))
                (NUMBEROFSCIENCEHEADERSPERROW (settings self))
                (frame_x self) img in
  np_flatten img (frame_size self).

(** The index arrays that [gen_asic_data_frame_deinterleaving_array]
    assigns to [self.deinterleaving_array]. *)
Definition gen_asic_data_frame_deinterleaving_array (self : BaseMACIE)
    : res (list (list nat)) :=
  let n_asics := length (list_asics self) in
  let total_data_blocks := (blocks_per_frame self * n_asics)%nat in
  let* all_indices :=
    np_reshape2 (np_arange (total_frame_size self)) total_data_blocks
      (science_read_block_size self) in
  let index_matcher :=
    map (fun b => (b mod n_asics)%nat) (np_arange total_data_blocks) in
  let* arrays :=
    mapM (fun i =>
            np_flatten
              (mask_select (map (fun m => bool_decide (m = i)) index_matcher)
                 all_indices)
              (frame_size self))
      (seq 0 n_asics) in
  if DEINTERLACE (settings self) then mapM (channel_pass self) arrays
  else ret arrays.

(** The part of [init] that fixes the geometry and builds the arrays. *)
Definition init_geometry (self : BaseMACIE) : res BaseMACIE :=
  if (science_read_block_size self =? 0)%nat then raise ZeroDivisionError
  else
    let self :=
      set_geometry (frame_size self / science_read_block_size self)%nat
        (frame_size self * length (list_asics_index self))%nat self in
    let* arr := gen_asic_data_frame_deinterleaving_array self in
    ret (set_deinterleaving_array arr self).

(** *** Telemetry *)

(** What a numpy array may be subscripted with here: an integer, or, as in
    the source, a string.  A string subscript of a plain array is an
    [IndexError]. *)
Inductive subscript : Type :=
| SubInt (i : Z)
| SubStr (s : string).

Definition ndarray_getitem (a : list Z) (k : subscript) : res Z :=
  match k with
  | SubInt i => py_getitem a i
  | SubStr _ => raise IndexError
  end.

Definition dict_getitem (d : gmap Z Z) (k : Z) : res Z :=
  match d !! k with
  | Some v => ret v
  | None => raise KeyError
  end.

(** [word1, ..., word6 = science_words] *)
Definition unpack6 (science_words : list Z) : res (Z * Z * Z * Z * Z * Z) :=
  match science_words with
  | [w1; w2; w3; w4; w5; w6] => ret (w1, w2, w3, w4, w5, w6)
  | _ => raise ValueError
  end.

(** The header entries decoded from the six words; the masks are the
    binary literals of the source. *)
Definition decode_science_words (w1 w2 w3 w4 w5 w6 : Z) : gmap string Z :=
  <["ASCIXPID" := Z.land w4 65024]> (
  <["ASCIFRM" := Z.land w4 511]> (
  <["AEXPVIDL" := Z.land w3 32768]> (
  <["ARDFRM" := Z.land w3 16384]> (
  <["AFF" := Z.land w3 8192]> (
  <["ASDPCNT" := Z.land w3 8191]> (
  <["AHDRLEN" := Z.land w2 28672]> (
  <["AASICID" := Z.land w2 3840]> (
  <["ABLKCNT" := Z.land w2 255]> (
  <["ABLKLEN" := Z.land w1 16383]> (
  <["SCIWRD6" := w6]> (
  <["SCIWRD5" := w5]> (
  <["SCIWRD4" := w4]> (
  <["SCIWRD3" := w3]> (
  <["SCIWRD2" := w2]> (
  <["SCIWRD1" := w1]> ∅))))))))))))))).

(** [BaseMACIE.parse_science_header] *)
Definition base_parse_science_header (self : BaseMACIE)
    (frame : list (list Z)) (cam_name : string) (cam_index : Z)
    : res (gmap string Z * string * Z) * BaseMACIE :=
  (ret (∅, cam_name, cam_index), self).

(** The [try] block of [BaseACADIA.parse_science_header] and what follows
    it, given the outcome [key] of evaluating the subscript of the lookup
    table. *)
Definition resolve_camera (self : BaseMACIE) (key : res Z) (cam_index : Z)
    : res (string * Z) * BaseMACIE :=
  let continue (chip_number : Z) (self : BaseMACIE) :=
    (* a mismatch with [cam_index] is printed and nothing else *)
    let cam_index := chip_number in
    match py_getitem (cam_names self) cam_index with
    | inl e => (inl e, self)
    | inr cam_name => (ret (cam_name, cam_index), self)
    end in
  match (let* k := key in
         dict_getitem (ASICCHIPIDLOWER (settings self)) k) with
  | inr chip_number => continue chip_number self
  | inl KeyError => continue cam_index (set_resync true self)
  | inl e => (inl e, self)
  end.

(** [BaseACADIA.parse_science_header], with the subscript written in the
    source, [science_words['ASICIDLOWERTELEMETRYCOLUMN']], as a parameter
    [key_of] of the science words. *)
Definition parse_science_header_with (key_of : list Z -> res Z)
    (self : BaseMACIE) (frame : list (list Z)) (cam_name : string)
    (cam_index : Z) : res (gmap string Z * string * Z) * BaseMACIE :=
  if (n_science_headers self =? 6)%Z then
    match (let* row := py_getitem frame
                         (ASICIDLOWERTELEMETRYROW (settings self)) in
           let science_words := py_slice row 0 (n_science_headers self) in
           let* ws := unpack6 science_words in
           ret (science_words, ws)) with
    | inl e => (inl e, self)
    | inr (science_words, (w1, w2, w3, w4, w5, w6)) =>
        let science_header := decode_science_words w1 w2 w3 w4 w5 w6 in
        match resolve_camera self (key_of science_words) cam_index with
        | (inl e, self) => (inl e, self)
        | (inr (cam_name, cam_index), self) =>
            (ret (science_header, cam_name, cam_index), self)
        end
    end
  else (ret (∅, cam_name, cam_index), self).

Definition parse_science_header :=
  parse_science_header_with
    (fun science_words =>
       ndarray_getitem science_words (SubStr "ASICIDLOWERTELEMETRYCOLUMN")).

(** *** Exposures *)

(** The inner [for] of the schedule loop: [n] skipped entries. *)
Fixpoint skip_inner (n : nat) (skips : list bool) (remaining_frames : Z)
    : list bool * Z :=
  match n with
  | O => (skips, remaining_frames)
  | S k => skip_inner k (skips ++ [true]) (remaining_frames - 1)%Z
  end.

(** The [while remaining_frames > 0] loop, unrolled at most [bound] times;
    it returns the list and the counter it has reached. *)
Fixpoint skip_loop (bound : nat) (skip_frames : Z) (skips : list bool)
    (remaining_frames : Z) : list bool * Z :=
  match bound with
  | O => (skips, remaining_frames)
  | S bound =>
      if (0 <? remaining_frames)%Z then
        let skips := skips ++ [false] in
        let remaining_frames := (remaining_frames - 1)%Z in
        let '(skips, remaining_frames) :=
          skip_inner (Z.to_nat skip_frames) skips remaining_frames in
        skip_loop bound skip_frames skips remaining_frames
      else (skips, remaining_frames)
  end.

(** The counter falls by at least one per round, so [science_frames] rounds
    are enough for the loop to leave by its own test. *)
Definition skip_schedule (science_frames skip_frames : Z) : list bool :=
  let '(skips, _) :=
    skip_loop (Z.to_nat science_frames) skip_frames [] science_frames in
  py_slice skips 0 science_frames.

(** The running state of the capture loops of [start]. *)
Record capture_state : Type := {
  total_frames : Z;
  stat : Status
}.

(** One captured frame is accounted for. *)
Definition after_capture (frame_time : Q) (s : capture_state) : capture_state :=
  let total_frames := (total_frames s - 1)%Z in
  let time_remaining := (inject_Z total_frames * frame_time)%Q in
  {| total_frames := total_frames;
     stat := update_exposure_time_remaining time_remaining (stat s) |}.

(** A [for] loop over capture requests [(frame, reset, skip_frame)].  The
    device is [capture_frame]; when it raises the loop is left.  The result
    holds the states reached after each captured frame, in order. *)
Fixpoint capture_loop (capture_frame : Z -> bool -> bool -> res unit)
    (frame_time : Q) (requests : list (Z * bool * bool)) (s : capture_state)
    : list capture_state * option exn :=
  match requests with
  | [] => ([], None)
  | (frame, reset, skip_frame) :: rest =>
      match capture_frame frame reset skip_frame with
      | inl e => ([], Some e)
      | inr _ =>
          let s := after_capture frame_time s in
          let '(trace, e) := capture_loop capture_frame frame_time rest s in
          (s :: trace, e)
      end
  end.

(** [range(n)] *)
Definition py_range (n : Z) : list Z := map Z.of_nat (seq 0 (Z.to_nat n)).

Record exposure_run : Type := {
  science_frames : Z;
  skips : list bool;
  at_start : capture_state;
  after_frames : list capture_state;
  raised : option exn
}.

(** [BaseMACIE.start] as far as the schedule and the status are concerned:
    frame counts, skip schedule, the status at the start of the capture
    loops and after each captured frame.  [raised] is the exception with
    which a capture leaves [start], if one does.  The calls that configure
    the device and fill the FITS header do not touch the status and are
    left out; post-processing runs in threads of its own and only appends
    to the per-camera lists of the status. *)
Definition start (capture_frame : Z -> bool -> bool -> res unit)
    (self : BaseMACIE) (exposure_time skip_time : Q) (status : Status)
    : res exposure_run :=
  let frame_time := FRAMETIMESEC (settings self) in
  let* science_frames :=
    calc_num_frames (MODE (settings self)) frame_time exposure_time in
  let* skip_frames := ssr_calc_frames skip_time frame_time in
  let skips := skip_schedule science_frames skip_frames in
  let status := update_total_frame_count science_frames status in
  let total_frames := (reset_frames self + science_frames)%Z in
  let status :=
    update_exposure_time_remaining (inject_Z total_frames * frame_time)%Q
      status in
  let s0 := {| total_frames := total_frames; stat := status |} in
  let resets := map (fun frame => (frame, true, false))
                  (py_range (reset_frames self)) in
  let sciences := imap (fun frame skip_frame =>
                          (Z.of_nat frame, false, skip_frame)) skips in
  match capture_loop capture_frame frame_time resets s0 with
  | (trace1, Some e) =>
      ret {| science_frames := science_frames; skips := skips;
             at_start := s0; after_frames := trace1; raised := Some e |}
  | (trace1, None) =>
      let s1 := List.last trace1 s0 in
      let '(trace2, e) :=
        capture_loop capture_frame frame_time sciences s1 in
      ret {| science_frames := science_frames; skips := skips;
             at_start := s0; after_frames := trace1 ++ trace2;
             raised := e |}
  end.

(** *** Bit masks of cards and ASICs *)

(** The binary digits of a positive number, most significant first. *)
Fixpoint pos_digits (p : positive) : list Ascii.ascii :=
  match p with
  | xH => ["1"%char]
  | xO q => pos_digits q ++ ["0"%char]
  | xI q => pos_digits q ++ ["1"%char]
  end.

(** [bin(integer)], as the list of its characters *)
Definition py_bin (integer : Z) : list Ascii.ascii :=
  match integer with
  | Z0 => ["0"; "b"; "0"]%char
  | Zpos p => "0"%char :: "b"%char :: pos_digits p
  | Zneg p => "-"%char :: "0"%char :: "b"%char :: pos_digits p
  end.

(** [int(bit)] of a one-character string *)
Definition py_int_char (bit : Ascii.ascii) : res Z :=
  let n := Ascii.nat_of_ascii bit in
  if ((48 <=? n) && (n <=? 57))%nat then ret (Z.of_nat (n - 48))
  else raise ValueError.

(** [[2**power for power, bit in enumerate(bin_string) if int(bit)]], the
    count starting at [power]. *)
Fixpoint set_bits (power : Z) (bin_string : list Ascii.ascii) : res (list Z) :=
  match bin_string with
  | [] => ret []
  | bit :: rest =>
      let* b := py_int_char bit in
      let* l := set_bits (power + 1) rest in
      ret (if (b =? 0)%Z then l else (2 ^ power)%Z :: l)
  end.

Definition composite_byte_to_byte_list (integer : Z) : res (list Z) :=
  let bin_string := rev (drop 2 (py_bin integer)) in
  set_bits 0 bin_string.

Definition byte_list_to_composite_byte (byte_list : list Z) : Z :=
  fold_left Z.add byte_list 0%Z.

(** [int(np.log2(i))].  The logarithm of a power of two, which is all this
    is applied to, is exact in floating point; elsewhere the floor of the
    real logarithm is taken.  Of zero it is minus infinity and of a negative
    number NaN, neither of which [int] converts. *)
Definition py_int_log2 (i : Z) : res Z :=
  if (i <? 0)%Z then raise ValueError
  else if (i =? 0)%Z then raise (OtherException "OverflowError")
  else ret (Z.log2 i).

Definition byte_list_to_index_list (byte_list : list Z) : res (list Z) :=
  mapM py_int_log2 byte_list.

Definition set_asics (asics indices : list Z) (self : BaseMACIE) : BaseMACIE :=
  {| settings := settings self; frame_x := frame_x self;
     frame_y := frame_y self; frame_size := frame_size self;
     science_read_block_size := science_read_block_size self;
     blocks_per_frame := blocks_per_frame self;
     total_frame_size := total_frame_size self;
     list_asics := asics;
     list_asics_index := indices;
     deinterleaving_array := deinterleaving_array self;
     cam_names := cam_names self;
     n_science_headers := n_science_headers self;
     reset_frames := reset_frames self; resync := resync self |}.

(** [BaseMACIE.get_available_asics]; [all_asics] is the mask that
    [api.get_available_asics] returns. *)
Definition get_available_asics (all_asics : Z) (self : BaseMACIE)
    : res BaseMACIE :=
  let* asics := composite_byte_to_byte_list all_asics in
  let* indices := byte_list_to_index_list asics in
  ret (set_asics asics indices self).

Definition select_asics (self : BaseMACIE) (indices : list Z) : res Z :=
  let* l := mapM (py_getitem (list_asics self)) indices in
  ret (byte_list_to_composite_byte l).

(** *** Splitting a buffer *)

(** [all_data_array[indices]]: an index outside the buffer raises. *)
Definition take_indices (all_data_array : list Z) (indices : list nat)
    : res (list Z) :=
  mapM (fun i => match all_data_array !! i with
                 | Some v => ret v
                 | None => raise IndexError
                 end) indices.

Definition deinterleave (self : BaseMACIE) (all_data_array : list Z)
    : res (list (list (list Z))) :=
  mapM (fun indices =>
          let* values := take_indices all_data_array indices in
          np_reshape2 values (frame_y self) (frame_x self))
    (deinterleaving_array self).

End MacieIO.

(** ** interface/interface.py *)

Module Interface.
Import StatusPy.

(** [c.upper()] on ASCII letters *)
Definition ascii_upper (c : Ascii.ascii) : Ascii.ascii :=
  let n := Ascii.nat_of_ascii c in
  if ((97 <=? n) && (n <=? 122))%nat then Ascii.ascii_of_nat (n - 32) else c.

Fixpoint upper (s : string) : string :=
  match s with
  | EmptyString => EmptyString
  | String c rest => String (ascii_upper c) (upper rest)
  end.

Definition skip_updates : list string := ["STATUS"%string].

(** A command object's [execute_command]: from its arguments and the status
    object it answers or raises, and leaves the status object in some
    state. *)
Definition command : Type := list string -> Status -> res string * Status.

(** [execute_command].  [split_command] is [interface_command.split()],
    [COMMANDS] the table of commands, [start_time] and [complete_time] the
    two readings of the clock, [traceback] the text of
    [traceback.format_exc()]. *)
Definition execute_command (COMMANDS : gmap string command)
    (template : status_doc) (ERRORNAK : bool)
    (start_time complete_time traceback : string)
    (split_command : list string) (status : Status)
    : res string * Status :=
  match py_getitem split_command 0 with
  | inl e => (inl e, status)
  | inr word =>
      let command := upper word in
      let updates := negb (bool_decide (command ∈ skip_updates)) in
      match (if updates
             then update_current_command template start_time command status
             else (ret tt, status)) with
      | (inl e, status) => (inl e, status)
      | (inr _, status) =>
          let arguments := py_slice split_command 1
                             (Z.of_nat (length split_command)) in
          let complete (status : Status) :=
            if updates then update_command_complete complete_time true status
            else status in
          let outcome :=
            match COMMANDS !! command with
            | None => (raise KeyError, status)
            | Some tcs_command => tcs_command arguments status
            end in
          match outcome with
          | (inr command_response, status) =>
              (ret command_response, complete status)
          | (inl ConnectionAbortedError, status) =>
              (raise ConnectionAbortedError, complete status)
          | (inl e, status) =>
              if is_Exception e then
                let status := complete status in
                if negb ERRORNAK then (ret traceback, status)
                else (raise ExecutionError, status)
              else (inl e, status)
          end
      end
  end.

End Interface.

(** ** utils/files.py: the settings file *)

Module Files.
Import Interface.

(** JSON values. *)
#[local] Unset Elimination Schemes.
Inductive json : Type :=
| JNull
| JBool (b : bool)
| JNum (q : Q)
| JStr (s : string)
| JArr (l : list json)
| JObj (l : list (string * json)).
#[local] Set Elimination Schemes.

(** A Python dictionary with string keys: the items in insertion order, no
    key twice. *)
Definition pydict : Type := list (string * json).

(** [d[k] = v]: an existing key keeps its place. *)
Fixpoint dict_set (k : string) (v : json) (d : pydict) : pydict :=
  match d with
  | [] => [(k, v)]
  | (k', v') :: rest =>
      if decide (k' = k) then (k, v) :: rest
      else (k', v') :: dict_set k v rest
  end.

(** [d.get(k)] *)
Fixpoint dict_get (k : string) (d : pydict) : option json :=
  match d with
  | [] => None
  | (k', v') :: rest => if decide (k' = k) then Some v' else dict_get k rest
  end.

(** [load_settings].  [file] is the content of [settings.json], [None] when
    there is no such file; the defaults are then written to it. *)
Definition load_settings (DEFAULT_SETTINGS : pydict) (file : option pydict)
    : pydict * option pydict :=
  let '(input_settings_dict, file) :=
    match file with
    | Some d => (d, file)
    | None => ([], Some DEFAULT_SETTINGS)
    end in
  let settings_dict :=
    fold_left (fun sd kv => dict_set (upper (fst kv)) (snd kv) sd)
      input_settings_dict input_settings_dict in
  let input_settings_dict :=
    fold_left (fun d kv =>
                 dict_set (fst kv)
                   (default (snd kv) (dict_get (fst kv) settings_dict)) d)
      DEFAULT_SETTINGS input_settings_dict in
  (input_settings_dict, file).

(** [update_setting]: the new content of the file. *)
Definition update_setting (DEFAULT_SETTINGS : pydict) (key : string)
    (value : json) (file : option pydict) : option pydict :=
  let '(settings, _) := load_settings DEFAULT_SETTINGS file in
  Some (dict_set (upper key) value settings).

End Files.

(** ** detector/macie/apisimulator.py *)

Module ApiSimulator.
Import Image.

(** [get_available_asics]: one bit per simulated camera. *)
Definition get_available_asics (NUMBEROFCAMERAS : Z) : Z :=
  fold_left (fun n_asics i => (n_asics + 2 ^ i)%Z) (MacieIO.py_range NUMBEROFCAMERAS)
    0%Z.

(** [read_gige_science_frame]: for every row, one block of [FRAMEX] words
    per camera, each word the number of the camera, as 16-bit unsigned. *)
Definition read_gige_science_frame (FRAMEX FRAMEY : nat)
    (NUMBEROFCAMERAS : Z) : list Z :=
  let uint16 := {| kind := KUInt; bits := 16 |} in
  concat
    (map (fun j =>
            concat (map (fun i => replicate FRAMEX (wrap uint16 i))
                      (MacieIO.py_range NUMBEROFCAMERAS)))
       (seq 0 FRAMEY)).

End ApiSimulator.

(** ** interface/interface.py: the MODE and STATUS commands *)

Module Commands.
Import Image StatusPy Interface Files.

(** [Mode.parse_arguments]: the mode that [self.mode] holds afterwards. *)
Definition mode_parse_arguments (arguments : list string) : res string :=
  match arguments with
  | [] => ret "CDS"%string
  | argument :: _ =>
      let mode := upper argument in
      if decide (is_Some (FRAME_REDUCE_METHODS !! mode)) then ret mode
      else raise (OtherException "AssertionError")
  end.

(** [Mode.execute_command], on the settings file. *)
Definition mode_execute_command (DEFAULT_SETTINGS : pydict)
    (arguments : list string) (file : option pydict)
    : res unit * option pydict :=
  match mode_parse_arguments arguments with
  | inl e => (inl e, file)
  | inr mode =>
      (ret tt, update_setting DEFAULT_SETTINGS "MODE" (JStr mode) file)
  end.

(** [Status.execute_command]: the status is printed and the response
    template returned; [response] is that text. *)
Definition status_execute_command (response : string) : command :=
  fun _ status => (ret response, status).

End Commands.

(** ** utils/image.py: cutting and framing an image *)

Module BaseImage.

(** [self.image]: a two-dimensional array, as its shape and its rows. *)
Record image : Type := {
  shape_y : nat;
  shape_x : nat;
  pixels : list (list Q)
}.

(** The length of [a[start:stop]] along an axis of length [len]. *)
Definition slice_length (len : nat) (start stop : Z) : nat :=
  length (py_slice (seq 0 len) start stop).

(** [slice]; an empty tuple, the default of either range, is [None]. *)
Definition slice (x_range y_range : option (Z * Z)) (self : image) : image :=
  let y_max := Z.of_nat (shape_y self) in
  let x_max := Z.of_nat (shape_x self) in
  let x_range := default (0%Z, x_max) x_range in
  let y_range := default (0%Z, y_max) y_range in
  {| shape_y := slice_length (shape_y self) (fst y_range) (snd y_range);
     shape_x := slice_length (shape_x self) (fst x_range) (snd x_range);
     pixels := map (fun row => py_slice row (fst x_range) (snd x_range))
                 (py_slice (pixels self) (fst y_range) (snd y_range)) |}.

(** [border], for widths that are not negative, as [crop_and_border]
    passes them: an array of [border_value] with the image written into
    it, [y_bottom] rows and [x_left] columns from its origin. *)
Definition border (x_left x_right y_top y_bottom : nat) (border_value : Q)
    (self : image) : image :=
  let x := (x_left + shape_x self + x_right)%nat in
  {| shape_y := (y_top + shape_y self + y_bottom)%nat;
     shape_x := x;
     pixels :=
       replicate y_bottom (replicate x border_value) ++
       map (fun row => replicate x_left border_value ++ row ++
                       replicate x_right border_value) (pixels self) ++
       replicate y_top (replicate x border_value) |}.

(** [crop_and_border].  [int((a - b) / 2)] rounds towards zero.  Where
    [border] is called the start is negative, so that the widths passed
    are positive, and the difference is 0 or 1. *)
Definition crop_and_border (x_size y_size : Z) (border_value : Q)
    (self : image) : image :=
  let y_size_initial := Z.of_nat (shape_y self) in
  let x_size_initial := Z.of_nat (shape_x self) in
  let x_start := ((x_size_initial - x_size) ÷ 2)%Z in
  let y_start := ((y_size_initial - y_size) ÷ 2)%Z in
  let self :=
    if (0 <? x_start)%Z
    then slice (Some (x_start, (x_start + x_size)%Z)) None self
    else if (x_start <? 0)%Z
    then
      let x_start := (- x_start)%Z in
      let x_size_difference :=
        (x_size - (2 * x_start + x_size_initial))%Z in
      border (Z.to_nat x_start) (Z.to_nat (x_start + x_size_difference))
        0 0 border_value self
    else self in
  if (0 <? y_start)%Z
  then slice None (Some (y_start, (y_start + y_size)%Z)) self
  else if (y_start <? 0)%Z
  then
    let y_start := (- y_start)%Z in
    let y_size_difference :=
      (y_size - (2 * y_start + y_size_initial))%Z in
    border 0 0 (Z.to_nat y_start) (Z.to_nat (y_start + y_size_difference))
      border_value self
  else self.

End BaseImage.

(** ** Test data and statements of the properties *)

Module Props.
Import Image StatusPy MacieIO.

(** The exposure time that results from asking mode [M] for [t] seconds
    lies within one frame time of [t]. *)
Definition round_trip_within (M : string) (t ft : Q) : Prop :=
  exists f g n,
    FRAMES_PER_EXPOSURE_TIME !! M = Some f /\
    EXPOSURE_TIME_PER_FRAMES !! M = Some g /\
    f t ft = ret n /\
    (Qabs (g n ft - t) <= ft)%Q.

(** The modes whose frame count is a plain multiple of the rounded ratio. *)
Definition plain_mode (M : string) : Prop :=
  M ∈ ["CDS"; "SSR"; "MEAN"; "MEDIAN"; "MODE"; "MIN"; "MAX"]%string.

(** Fowler-2 and Fowler-4 outside the range where the request is clamped
    by more than a frame. *)
Definition fowler_mode_in_range (M : string) (t ft : Q) : Prop :=
  (M = "FOWLER2"%string /\ (ft <= t)%Q) \/
  (M = "FOWLER4"%string /\ (3 * ft <= t)%Q).

(** The camera and the place in that camera's frame that the rule of the
    specification gives to buffer index [i]. *)
Definition camera_of (n r i : nat) : nat := (i / r) mod n.
Definition position_of (n r i : nat) : nat := (i / r) / n * r + i mod r.
(** The index array of camera [c] in closed form. *)
Definition camera_array (n r size c : nat) : list nat :=
  map (fun p => ((p / r) * n + c) * r + p mod r) (seq 0 size).

(** No buffer index occurs in the arrays of two cameras. *)
Definition pairwise_disjoint (arrays : list (list nat)) : Prop :=
  forall (c1 c2 : nat) (a1 a2 : list nat) (i : nat),
    arrays !! c1 = Some a1 -> arrays !! c2 = Some a2 ->
    i ∈ a1 -> i ∈ a2 -> c1 = c2.

(** The arrays together hold exactly the indices below [total]. *)
Definition covers_exactly (arrays : list (list nat)) (total : nat) : Prop :=
  forall i : nat,
    i < total <-> exists (c : nat) (a : list nat), arrays !! c = Some a /\ i ∈ a.

Definition deinterleaving_rule (n r total : nat) (arrays : list (list nat))
    : Prop :=
  length arrays = n /\
  (forall i : nat, i < total ->
     exists arr : list nat,
       arrays !! camera_of n r i = Some arr /\
       arr !! position_of n r i = Some i) /\
  pairwise_disjoint arrays /\
  covers_exactly arrays total.

(** What [open] and [init] establish before the arrays are built: one
    index per enumerated ASIC, at least one ASIC, and a read block that
    divides the frame. *)
Definition geometry_ok (self : BaseMACIE) : Prop :=
  length (list_asics self) = length (list_asics_index self) /\
  0 < length (list_asics self) /\
  0 < science_read_block_size self /\
  frame_size self mod science_read_block_size self = 0.

(** [init] succeeds and the arrays it builds follow the rule. *)
Definition partition_claim (self : BaseMACIE) : Prop :=
  exists self' : BaseMACIE,
    init_geometry self = ret self' /\
    deinterleaving_rule (length (list_asics self))
      (science_read_block_size self)
      (frame_size self * length (list_asics self))
      (deinterleaving_array self').

(** The channel pass of [deinterlace] has whole channels to work on: the
    frame is [frame_y] rows of [frame_x] columns, and the columns after the
    header columns divide evenly among the channels, at least one each. *)
Definition whole_channels (self : BaseMACIE) : Prop :=
  let nch := NUMBEROFREADOUTCHANNELS (settings self) in
  let width := frame_x self - NUMBEROFSCIENCEHEADERSPERROW (settings self) in
  frame_size self = frame_y self * frame_x self /\
  0 < nch /\ 0 < width / nch /\ width = nch * (width / nch).

(** The rule without the positions: index [i] is in the array of camera
    [(i / r) mod n], and the arrays partition the indices below [total]. *)
Definition camera_rule (n r total : nat) (arrays : list (list nat)) : Prop :=
  length arrays = n /\
  (forall i : nat, i < total ->
     exists arr : list nat,
       arrays !! camera_of n r i = Some arr /\ i ∈ arr) /\
  pairwise_disjoint arrays /\
  covers_exactly arrays total.

(** [init] succeeds and the arrays it builds partition the buffer by
    camera. *)
Definition cameras_claim (self : BaseMACIE) : Prop :=
  exists self' : BaseMACIE,
    init_geometry self = ret self' /\
    camera_rule (length (list_asics self))
      (science_read_block_size self)
      (frame_size self * length (list_asics self))
      (deinterleaving_array self').

(** A [BaseMACIE] as its constructor leaves it, with [n] ASICs enumerated,
    read block [r], a frame of [fx] by [fy], and the settings that matter
    for deinterleaving. *)
Definition macie (n r fx fy : nat) (d : bool) (nch nh : nat) : BaseMACIE :=
 {| settings := {| MODE := "CDS"; FRAMETIMESEC := 1; DEINTERLACE := d;
                   NUMBEROFREADOUTCHANNELS := nch;
                   NUMBEROFSCIENCEHEADERSPERROW := nh;
                   ASICIDLOWERTELEMETRYROW := 0; ASICCHIPIDLOWER := ∅ |};
    frame_x := fx; frame_y := fy; frame_size := fx * fy;
    science_read_block_size := r; blocks_per_frame := fx * fy / r;
    total_frame_size := fx * fy;
    list_asics := map (fun i => 2 ^ Z.of_nat i)%Z (seq 0 n);
    list_asics_index := map Z.of_nat (seq 0 n);
    deinterleaving_array := [seq 0 (fx * fy)]; cam_names := [];
    n_science_headers := 0; reset_frames := 1; resync := false |}.

Local Open Scope Z_scope.

(** The Fowler reduction in the words of the specification: the mean of the
    last [k] frames minus the mean of the first [k] frames. *)
Definition last_k_minus_first_k (images : list (list Z)) (k : nat)
    : option (list Q) :=
  match mean_axis0 (firstn k images) with
  | None => None
  | Some start =>
      match mean_axis0 (skipn (length images - k) images) with
      | None => None
      | Some end_ => Some (zip_with Qminus end_ start)
      end
  end.

(** Eight one-pixel frames: the first two average 10, the last two 40. *)
Definition ramp8 : list (list Z) :=
  [[10]; [10]; [0]; [0]; [0]; [0]; [40]; [40]].

Definition uint (w : Z) : dtype := {| kind := KUInt; bits := w |}.
Definition int (w : Z) : dtype := {| kind := KInt; bits := w |}.

(** Every pixel of the frame fits the unsigned type of width [w]. *)
Definition fits_unsigned (w : Z) (frame : list Z) : Prop :=
  Forall (fun z => 0 <= z < 2 ^ w) frame.

(** CDS over frames of unsigned width [w]: the result has a signed type of
    twice the width and holds the exact differences, last minus first. *)
Definition cds_widens (w : Z) : Prop :=
  forall (fs : list (list Z)) (first last : list Z),
    py_getitem fs 0 = ret first ->
    py_getitem fs (-1) = ret last ->
    fits_unsigned w first -> fits_unsigned w last ->
    cds_frame_reduce {| dt := uint w; frames := fs |}
    = ret (int (w * 2), zip_with Z.sub last first).

(** The number of kept entries of a schedule. *)
Definition kept (skips : list bool) : nat :=
  length (filter (fun b => b = false) skips).

(** Entry [i] of a schedule with [s] skipped frames after each kept one. *)
Definition periodic_entry (s i : nat) : bool := negb (i mod (s + 1) =? 0)%nat.

(** The schedule for [science_frames] frames: [skip_frames] skipped entries
    after each kept one, and as many kept entries as science frames. *)
Definition skip_schedule_claim (science_frames skip_frames : Z) : Prop :=
  let skips := skip_schedule science_frames skip_frames in
  (forall i : nat, (i < length skips)%nat ->
     skips !! i = Some (periodic_entry (Z.to_nat skip_frames) i)) /\
  kept skips = Z.to_nat science_frames.

(** One round of the schedule loop: a kept entry and [s] skipped ones. *)
Definition period (s : nat) : list bool := false :: replicate s true.

(** The value under [ExposureTimeRemaining] in the status held in memory. *)
Definition time_remaining (s : capture_state) : option Q :=
  ExposureTimeRemaining (status (stat s)).

(** Along [s :: trace] every state shows one [frame_time] less than the
    state before it. *)
Fixpoint decreases_by (frame_time : Q) (s : capture_state)
    (trace : list capture_state) : Prop :=
  match trace with
  | [] => True
  | s' :: rest =>
      (exists x y : Q,
         time_remaining s = Some x /\ time_remaining s' = Some y /\
         (y == x - frame_time)%Q /\ (y < x)%Q) /\
      decreases_by frame_time s' rest
  end.

(** A device that delivers every frame. *)
Definition quiet_device (frame : Z) (reset skip_frame : bool) : res unit :=
  ret tt.

(** The status agrees with the frame counter of the capture loop. *)
Definition in_step (frame_time : Q) (s : capture_state) : Prop :=
  time_remaining s = Some (inject_Z (total_frames s) * frame_time)%Q.

(** The default [ASICCHIPIDLOWER] table: chip id to camera number. *)
Definition chip_table : gmap Z Z :=
  <[0 := 0]> (<[1 := 1]> (<[2 := 2]> (<[3 := 3]> ∅))).

(** An ACADIA session with four cameras and six science-header words per
    row, in step with its ASICs. *)
Definition acadia : BaseMACIE :=
  {| settings := {| MODE := "CDS"; FRAMETIMESEC := 1; DEINTERLACE := false;
                    NUMBEROFREADOUTCHANNELS := 33;
                    NUMBEROFSCIENCEHEADERSPERROW := 6;
                    ASICIDLOWERTELEMETRYROW := 0;
                    ASICCHIPIDLOWER := chip_table |};
     frame_x := 8; frame_y := 1; frame_size := 8;
     science_read_block_size := 8; blocks_per_frame := 1;
     total_frame_size := 32;
     list_asics := [1; 2; 4; 8]; list_asics_index := [0; 1; 2; 3];
     deinterleaving_array := [];
     cam_names := ["C0"; "C1"; "C2"; "C3"]%string;
     n_science_headers := 6; reset_frames := 1; resync := false |}.

(** A frame whose telemetry row ends in chip id 2. *)
Definition frame_chip2 : list (list Z) := [[6; 513; 8192; 1; 0; 2; 100; 101]].

(** The chip id, word 6 of the telemetry, as the key of the table. *)
Definition sixth_word (science_words : list Z) : res Z :=
  py_getitem science_words 5.


(** A status object next to a status document that was written earlier. *)
Definition polled_status : Status :=
  {| status := empty_doc; json_file := Some empty_doc; copies := [] |}.



End Props.

(** ** Further statements *)

Module Extra.
Import Image StatusPy MacieIO Interface Files Commands Props.

(** The powers of two that make up a positive number, from [2 ^ k] up when
    the number is read from its lowest bit, and their exponents. *)
Fixpoint pos_powers (k : Z) (p : positive) : list Z :=
  match p with
  | xH => [2 ^ k]%Z
  | xO q => pos_powers (k + 1) q
  | xI q => (2 ^ k)%Z :: pos_powers (k + 1) q
  end.

Fixpoint pos_indices (k : Z) (p : positive) : list Z :=
  match p with
  | xH => [k]
  | xO q => pos_indices (k + 1) q
  | xI q => k :: pos_indices (k + 1) q
  end.

(** The value that fancy indexing reads at index [i], 0 standing in where
    the index is outside the buffer. *)
Definition word_at (all_data_array : list Z) (i : nat) : Z :=
  default 0%Z (all_data_array !! i).

(** A session whose arrays [init] has just built, over a frame of
    [frame_y] rows and [frame_x] columns. *)
Definition initialised (self self' : BaseMACIE) : Prop :=
  geometry_ok self /\
  frame_size self = frame_y self * frame_x self /\
  (DEINTERLACE (settings self) = false \/ whole_channels self) /\
  init_geometry self = ret self'.

(** The key and the value of the last item of a settings file whose key,
    in capitals, is [k]: the spelling that [load_settings] ends up with. *)
Fixpoint last_spelling (k : string) (f : pydict) : option (string * json) :=
  match f with
  | [] => None
  | (k', v') :: rest =>
      match last_spelling k rest with
      | Some kv => Some kv
      | None => if decide (upper k' = k) then Some (k', v') else None
      end
  end.

Definition file_value (k : string) (f : pydict) : option json :=
  snd <$> last_spelling k f.

(** A dictionary as Python holds it: no key twice. *)
Definition well_formed (d : pydict) : Prop := NoDup d.*1.

(** Every key is written in capitals, as the keys of [DEFAULT_SETTINGS]
    are. *)
Definition capital_keys (d : pydict) : Prop :=
  forall k : string, k ∈ d.*1 -> upper k = k.

(** What [load_settings] reads from the file that [update_setting] has
    left. *)
Definition read_back (DEFAULT_SETTINGS : pydict) (key : string)
    (value : json) (file : option pydict) : option json :=
  dict_get (upper key)
    (fst (load_settings DEFAULT_SETTINGS
            (update_setting DEFAULT_SETTINGS key value file))).

(** The last key of a list that reads [k] in capitals. *)
Fixpoint last_key (k : string) (keys : list string) : option string :=
  match keys with
  | [] => None
  | k' :: rest =>
      match last_key k rest with
      | Some k1 => Some k1
      | None => if decide (upper k' = k) then Some k' else None
      end
  end.

(** The file spells [key] in capitals only. *)
Definition spelled_once (key : string) (f : pydict) : Prop :=
  forall k' : string, k' ∈ f.*1 -> upper k' = upper key -> k' = upper key.

(** The modes of the registry. *)
Definition registered_modes : list string :=
  ["CDS"; "SSR"; "MEAN"; "MEDIAN"; "MODE"; "MIN"; "MAX";
   "FOWLER2"; "FOWLER4"; "FOWLER8"; "FOWLER16"]%string.

(** From a number of frames to its exposure time and back to the number of
    frames of that exposure. *)
Definition frames_there_and_back (MODE : string) (FRAMETIMESEC : Q)
    (frames : Z) : res Z :=
  let* exposure_time :=
    calc_effective_exposure_time MODE FRAMETIMESEC frames in
  calc_num_frames MODE FRAMETIMESEC exposure_time.

(** A run of calls of [update_exposure_frames], one per saved frame
    [(frame_file, camera_number)], in the order in which they happen; the
    first call that raises ends the run. *)
Fixpoint record_frames (events : list (string * Z)) (s : Status)
    : res unit * Status :=
  match events with
  | [] => (ret tt, s)
  | (frame_file, camera_number) :: rest =>
      match update_exposure_frames frame_file camera_number s with
      | (inl e, s) => (inl e, s)
      | (inr _, s) => record_frames rest s
      end
  end.

(** The files of one camera among the events, in their order. *)
Definition files_of (camera_number : Z) (events : list (string * Z))
    : list string :=
  map fst (filter (fun ev => snd ev = camera_number) events).

(** The state in which the capture loops of a run end. *)
Definition at_end (run : exposure_run) : capture_state :=
  List.last (after_frames run) (at_start run).

(** The column of a row from which [deinterlace] fills column [c]: the
    header columns stay; behind them the columns of channel [i] follow one
    another, those of every other channel from the last to the first. *)
Definition source_column (nch nheaders ncols c : nat) : nat :=
  let nch_pix := (ncols - nheaders) / nch in
  if c <? nheaders then c
  else
    let i := (c - nheaders) / nch_pix in
    let q := (c - nheaders) mod nch_pix in
    nheaders + (if Nat.even i then q else nch_pix - 1 - q) * nch + i.

(** The rows of an image are as many and as long as its shape says. *)
Definition well_shaped (im : BaseImage.image) : Prop :=
  length (BaseImage.pixels im) = BaseImage.shape_y im /\
  forall row, row ∈ BaseImage.pixels im ->
    length row = BaseImage.shape_x im.

(** The length of an axis of length [len] after [crop_and_border] has been
    asked for [size]. *)
Definition cropped_length (len : nat) (size : Z) : nat :=
  if (Z.abs (Z.of_nat len - size) =? 1)%Z then len else Z.to_nat size.

End Extra.

(** * Properties *)

(** ** Rounding *)

Section Rounding.
Local Open Scope Q_scope.

Lemma py_round_bounds (x : Q) :
  x - (1 # 2) <= inject_Z (py_round x) /\ inject_Z (py_round x) <= x + (1 # 2).
Proof.
  unfold py_round; cbv zeta.
  pose proof (Qfloor_le x) as Hlo.
  pose proof (Qlt_floor x) as Hhi.
  rewrite inject_Z_plus in Hhi.
  destruct (Qcompare_spec (x - inject_Z (Qfloor x)) (1 # 2)) as [He|Hl|Hg];
    [destruct (Z.even (Qfloor x))| |];
    rewrite ?inject_Z_plus; change (inject_Z 1) with 1 in *;
    set (f := inject_Z (Qfloor x)) in *; clearbody f; lra.
Qed.

(** Rounding the ratio [t / ft] and multiplying back by [ft] moves [t] by at
    most half of [ft]. *)
Lemma round_ratio_error (t ft : Q) :
  0 < ft -> Qabs (inject_Z (py_round (t / ft)) * ft - t) <= ft * (1 # 2).
Proof.
  intros Hft.
  destruct (py_round_bounds (t / ft)) as [Hlo Hhi].
  set (r := inject_Z (py_round (t / ft))) in *. clearbody r.
  assert (Ht : t == (t / ft) * ft) by (field; lra).
  set (x := t / ft) in *. clearbody x.
  apply Qabs_Qle_condition. split; nra.
Qed.

End Rounding.

(** ** Slices *)

Section Slices.

Lemma py_slice_prefix {A : Type} (l : list A) (n : Z) :
  (0 <= n <= Z.of_nat (length l))%Z -> py_slice l 0 n = take (Z.to_nat n) l.
Proof.
  intros Hn. unfold py_slice.
  assert (E0 : py_slice_bound (Z.of_nat (length l)) 0 = 0%Z)
    by (unfold py_slice_bound; cbn; lia).
  assert (En : py_slice_bound (Z.of_nat (length l)) n = n).
  { unfold py_slice_bound. destruct (Z.ltb_spec n 0); lia. }
  cbv zeta. rewrite E0, En, Z.sub_0_r. reflexivity.
Qed.

Lemma py_slice_from_end {A : Type} (l : list A) (k : nat) :
  (k + 1 <= length l)%nat ->
  py_slice l (-1 - Z.of_nat k) (-1)
  = firstn k (skipn (length l - 1 - k) l).
Proof.
  intros Hk. unfold py_slice.
  assert (Es : py_slice_bound (Z.of_nat (length l)) (-1 - Z.of_nat k)
               = Z.of_nat (length l - 1 - k)).
  { unfold py_slice_bound.
    destruct (Z.ltb_spec (-1 - Z.of_nat k) 0); lia. }
  assert (Ee : py_slice_bound (Z.of_nat (length l)) (-1)
               = Z.of_nat (length l - 1)).
  { unfold py_slice_bound. change (-1 <? 0)%Z with true. cbv iota. lia. }
  cbv zeta. rewrite Es, Ee, Nat2Z.id. f_equal. lia.
Qed.

End Slices.

(** ** The reduction-mode registry: exposure time round trip *)

Section RoundTrip.
Import Image Props.
Local Open Scope Q_scope.

Lemma ssr_calc_frames_pos (t ft : Q) :
  0 < ft -> ssr_calc_frames t ft = ret (py_round (t / ft)).
Proof.
  intros Hft. unfold ssr_calc_frames.
  destruct (Qeq_bool ft 0) eqn:E; [|reflexivity].
  apply Qeq_bool_iff in E. lra.
Qed.

Lemma ssr_round_trip (t ft : Q) :
  0 < ft ->
  exists n, ssr_calc_frames t ft = ret n /\
            Qabs (ssr_calc_exposure n ft - t) <= ft * (1 # 2).
Proof.
  intros Hft. eexists. split; [apply ssr_calc_frames_pos, Hft|].
  apply round_ratio_error, Hft.
Qed.

Lemma cds_round_trip (t ft : Q) :
  0 < ft ->
  exists n, cds_calc_frames t ft = ret n /\
            Qabs (cds_calc_exposure n ft - t) <= ft * (1 # 2).
Proof.
  intros Hft. unfold cds_calc_frames. rewrite ssr_calc_frames_pos by assumption.
  eexists. split; [reflexivity|]. unfold cds_calc_exposure.
  replace (py_round (t / ft) + 1 - 1)%Z with (py_round (t / ft)) by lia.
  apply round_ratio_error, Hft.
Qed.

Lemma mean_round_trip (t ft : Q) :
  0 < ft ->
  exists n, mean_calc_frames t ft = ret n /\
            Qabs (mean_calc_exposure n ft - t) <= ft * (1 # 2).
Proof.
  intros Hft. unfold mean_calc_frames. rewrite ssr_calc_frames_pos by assumption.
  eexists. split; [reflexivity|]. unfold mean_calc_exposure, ssr_calc_exposure.
  assert (E : inject_Z (py_round (t / ft) * 2) * ft / 2 - t ==
              inject_Z (py_round (t / ft)) * ft - t)
    by (rewrite inject_Z_mult; change (inject_Z 2) with 2; field).
  rewrite E. apply round_ratio_error, Hft.
Qed.

(** Fowler-[k] with matching constants in both directions: once the request
    is no more than one frame below the minimum [k * ft], the round trip
    stays within a frame. *)
Lemma fowler_round_trip (k : Z) (t ft : Q) :
  0 < ft -> (inject_Z k - 1) * ft <= t ->
  exists n, fowler_calc_frames t ft k = ret n /\
            Qabs (fowler_calc_exposure n ft k - t) <= ft.
Proof.
  intros Hft Ht. unfold fowler_calc_frames. cbv zeta.
  destruct (Qlt_le_dec (t - ft * inject_Z k) 0) as [Hlt|Hge].
  - eexists. split; [reflexivity|]. unfold fowler_calc_exposure.
    replace (k * 2 - 2 * k)%Z with 0%Z by lia. change (inject_Z 0) with 0.
    set (q := inject_Z k) in *. clearbody q.
    apply Qabs_Qle_condition. split; nra.
  - rewrite ssr_calc_frames_pos by assumption.
    eexists. split; [reflexivity|]. unfold fowler_calc_exposure.
    match goal with |- context [(?n + k * 2 - 2 * k)%Z] =>
      replace (n + k * 2 - 2 * k)%Z with n by lia end.
    pose proof (round_ratio_error (t - ft * inject_Z k) ft Hft) as Hr.
    apply Qabs_Qle_condition in Hr. destruct Hr as [Hr1 Hr2].
    set (r := inject_Z (py_round ((t - ft * inject_Z k) / ft))) in *. clearbody r.
    set (q := inject_Z k) in *. clearbody q.
    apply Qabs_Qle_condition. split; nra.
Qed.

(** The FOWLER8 and FOWLER16 entries are a different matter: their exposure
    functions are built with the constant 4, and the round trip is off by 4
    and 12 frame times. *)
Example fowler8_round_trip_off :
  fowler8_calc_frames 10 1 = ret 18%Z /\ fowler8_calc_exposure 18 1 == 14.
Proof. split; reflexivity. Qed.

Example fowler16_round_trip_off :
  fowler16_calc_frames 20 1 = ret 36%Z /\ fowler16_calc_exposure 36 1 == 32.
Proof. split; reflexivity. Qed.

(** C1, as stated, fails: FOWLER2 asked for a zero exposure takes the
    minimum of four frames, whose exposure time is two frame times. *)
Lemma round_trip_fowler2_zero : ~ round_trip_within "FOWLER2" 0 1.
Proof.
  intros (f & g & n & Hf & Hg & Hn & Hle).
  assert (Hf' : FRAMES_PER_EXPOSURE_TIME !! "FOWLER2"%string
                = Some fowler2_calc_frames) by reflexivity.
  assert (Hg' : EXPOSURE_TIME_PER_FRAMES !! "FOWLER2"%string
                = Some fowler2_calc_exposure) by reflexivity.
  rewrite Hf' in Hf. rewrite Hg' in Hg.
  injection Hf as <-. injection Hg as <-.
  assert (n = 4%Z) by (vm_compute in Hn; congruence). subst n.
  vm_compute in Hle. apply Hle. reflexivity.
Qed.

(** C1 (amended): for CDS, SSR, MEAN, MEDIAN, MODE, MIN and MAX, and for
    FOWLER2 and FOWLER4 when the requested time is at most one frame time
    below the Fowler minimum, the frame count exists and its exposure time
    is within one frame time of the request. *)
Theorem round_trip_by_design (M : string) (t ft : Q) :
  0 <= t -> 0 < ft ->
  plain_mode M \/ fowler_mode_in_range M t ft ->
  round_trip_within M t ft.
Proof.
  intros Ht Hft [Hp | [[-> Hr] | [-> Hr]]].
  - assert (Hhalf : ft * (1 # 2) <= ft) by lra.
    unfold plain_mode in Hp.
    repeat (apply elem_of_cons in Hp as [-> | Hp]);
      [ destruct (cds_round_trip t ft Hft) as (n & Hn & Hb)
      | destruct (ssr_round_trip t ft Hft) as (n & Hn & Hb)
      | destruct (mean_round_trip t ft Hft) as (n & Hn & Hb)
      | destruct (mean_round_trip t ft Hft) as (n & Hn & Hb)
      | destruct (mean_round_trip t ft Hft) as (n & Hn & Hb)
      | destruct (ssr_round_trip t ft Hft) as (n & Hn & Hb)
      | destruct (ssr_round_trip t ft Hft) as (n & Hn & Hb)
      | by apply elem_of_nil in Hp ];
      (eexists _, _, n; split; [reflexivity|]; split; [reflexivity|];
       split; [exact Hn|]; eapply Qle_trans; [exact Hb | exact Hhalf]).
  - destruct (fowler_round_trip 2 t ft Hft) as (n & Hn & Hb).
    { change (inject_Z 2) with 2. lra. }
    eexists _, _, n. split; [reflexivity|]. split; [reflexivity|].
    split; [exact Hn | exact Hb].
  - destruct (fowler_round_trip 4 t ft Hft) as (n & Hn & Hb).
    { change (inject_Z 4) with 4. lra. }
    eexists _, _, n. split; [reflexivity|]. split; [reflexivity|].
    split; [exact Hn | exact Hb].
Qed.

Lemma round_trip_by_design_witness :
  round_trip_within "CDS" 10 (3 # 1) /\ round_trip_within "FOWLER4" 10 (3 # 1).
Proof.
  split.
  - apply (round_trip_by_design "CDS" 10 (3 # 1)); [lra | lra |].
    left. unfold plain_mode. apply elem_of_cons. left. reflexivity.
  - apply (round_trip_by_design "FOWLER4" 10 (3 # 1)); [lra | lra |].
    right. right. split; [reflexivity | lra].
Defined.

End RoundTrip.

(** ** Ramp reduction *)

Section RampReduction.
Import Image Props.
Local Open Scope Z_scope.

(** What the source computes is the Fowler difference of the ramp without
    its last frame. *)
Lemma fowler_frame_reduce_without_last (images : list (list Z)) (k : nat) :
  (k + 1 <= length images)%nat ->
  fowler_frame_reduce images (Z.of_nat k)
  = last_k_minus_first_k (removelast images) k.
Proof.
  intros Hk. unfold fowler_frame_reduce, last_k_minus_first_k.
  rewrite py_slice_prefix by lia. rewrite py_slice_from_end by exact Hk.
  rewrite Nat2Z.id.
  rewrite removelast_firstn_len, length_firstn.
  rewrite firstn_firstn. replace (k `min` Init.Nat.pred (length images))%nat with k by lia.
  rewrite Nat.min_l by lia.
  rewrite skipn_firstn_comm.
  replace (Init.Nat.pred (length images) - (Init.Nat.pred (length images) - k))%nat
    with k by lia.
  replace (Init.Nat.pred (length images) - k)%nat
    with (length images - 1 - k)%nat by lia.
  reflexivity.
Qed.
(** C2: on [ramp8] the source's [images[-1-k:-1]] leaves the last frame out
    and averages frames 5 and 6, so that Fowler-2 yields 10 where the mean
    of the last two frames minus the mean of the first two is 30. *)
Theorem fowler2_drops_last_frame :
  exists r s,
    fowler2_frame_reduce ramp8 = Some [r] /\ (r == 10)%Q /\
    last_k_minus_first_k ramp8 2 = Some [s] /\ (s == 30)%Q.
Proof.
  eexists _, _. split; [reflexivity|]. split; [reflexivity|].
  split; reflexivity.
Qed.

End RampReduction.

Section CDS.
Import Image Props.
Local Open Scope Z_scope.

Lemma wrap_signed_small (b z : Z) :
  0 < b -> - 2 ^ (b - 1) <= z < 2 ^ (b - 1) -> wrap (int b) z = z.
Proof.
  intros Hb Hz. unfold wrap. cbn [kind bits int].
  assert (E : 2 ^ b = 2 * 2 ^ (b - 1)).
  { replace b with (b - 1 + 1) at 1 by lia. rewrite Z.pow_add_r by lia. lia. }
  rewrite Z.mod_small by lia. lia.
Qed.

Lemma pow2_double_le (w : Z) : 0 < w -> 2 ^ w <= 2 ^ (w * 2 - 1).
Proof. intros Hw. apply Z.pow_le_mono_r; lia. Qed.

Lemma astype_widened (w : Z) (frame : list Z) :
  0 < w -> dtype_known (int (w * 2)) = true -> fits_unsigned w frame ->
  astype (int (w * 2)) frame = ret frame.
Proof.
  intros Hw Hk Hf. unfold astype. rewrite Hk. f_equal.
  induction Hf as [|z l Hz _ IH]; [reflexivity|]. cbn [map].
  rewrite IH. f_equal. apply wrap_signed_small; [lia|].
  pose proof (pow2_double_le w Hw). lia.
Qed.

Lemma np_sub_widened (w : Z) (a b : list Z) :
  0 < w -> fits_unsigned w a -> fits_unsigned w b ->
  np_sub (int (w * 2)) a b = zip_with Z.sub a b.
Proof.
  intros Hw Ha. revert b. unfold np_sub.
  induction Ha as [|x a Hx _ IH]; intros b Hb; [reflexivity|].
  destruct Hb as [|y b Hy Hb]; [reflexivity|]. cbn [zip_with].
  rewrite IH by assumption. f_equal. apply wrap_signed_small; [lia|].
  pose proof (pow2_double_le w Hw). lia.
Qed.

(** C7, as stated, fails at the widest unsigned type: the doubled type name
    is int128, which numpy does not have, and the reduction raises. *)
Lemma cds_uint64_raises : ~ cds_widens 64.
Proof.
  intros H.
  specialize (H [[100]; [150]] [100] [150] eq_refl eq_refl).
  assert (Hf : forall z, 0 <= z < 2 ^ 16 -> fits_unsigned 64 [z]).
  { intros z Hz. constructor; [|constructor].
    assert (2 ^ 16 <= 2 ^ 64) by (apply Z.pow_le_mono_r; lia). lia. }
  specialize (H (Hf 100 ltac:(lia)) (Hf 150 ltac:(lia))).
  vm_compute in H. discriminate H.
Qed.

(** C7 (amended): for frames of an unsigned type of 8, 16 or 32 bits, CDS
    converts the last and the first frame to the signed type of twice the
    width and returns their exact difference. *)
Theorem cds_widens_upto32 (w : Z) :
  w = 8 \/ w = 16 \/ w = 32 -> cds_widens w.
Proof.
  intros Hw fs first last Hfirst Hlast Hf Hl.
  assert (Hpos : 0 < w) by lia.
  assert (Hk : dtype_known (int (w * 2)) = true)
    by (destruct Hw as [->|[->| ->]]; reflexivity).
  unfold cds_frame_reduce. cbn [frames dt uint kind bits].
  rewrite Hfirst, Hlast. fold (int (w * 2)). cbn [bind ret].
  rewrite (astype_widened w last Hpos Hk Hl). cbn [bind ret].
  rewrite (astype_widened w first Hpos Hk Hf). cbn [bind ret].
  do 2 f_equal. apply np_sub_widened; assumption.
Qed.

Lemma cds_widens_upto32_witness :
  cds_frame_reduce {| dt := uint 16; frames := [[100]; [150]] |}
  = ret (int 32, [50]) /\
  cds_frame_reduce {| dt := uint 16; frames := [[150]; [100]] |}
  = ret (int 32, [-50]).
Proof.
  assert (H16 : 16 = 8 \/ 16 = 16 \/ 16 = 32) by (right; left; reflexivity).
  assert (Hfit : forall z, 0 <= z < 2 ^ 16 -> fits_unsigned 16 [z])
    by (intros z Hz; constructor; [exact Hz | constructor]).
  split.
  - apply (cds_widens_upto32 16 H16 [[100]; [150]] [100] [150]);
      [reflexivity | reflexivity | apply Hfit; lia | apply Hfit; lia].
  - apply (cds_widens_upto32 16 H16 [[150]; [100]] [150] [100]);
      [reflexivity | reflexivity | apply Hfit; lia | apply Hfit; lia].
Defined.

End CDS.

(** ** Deinterleaving *)

Section Deinterleaving.
Import Image MacieIO Props.

Lemma chunks_seq (rows cols s : nat) :
  chunks rows cols (seq s (rows * cols))
  = map (fun b => seq (s + b * cols) cols) (seq 0 rows).
Proof.
  revert s. induction rows as [|rows IH]; intros s; [reflexivity|].
  cbn [chunks]. rewrite take_seq, drop_seq.
  replace (cols `min` (S rows * cols)) with cols by lia.
  replace (S rows * cols - cols) with (rows * cols) by lia.
  rewrite IH. cbn [seq map]. f_equal; [f_equal; lia|].
  rewrite <- fmap_S_seq. rewrite <- list_fmap_compose.
  apply list_fmap_ext. intros i b _. cbn. f_equal. lia.
Qed.

Lemma mask_select_map {A B : Type} (f : A -> bool) (g : A -> B) (l : list A) :
  mask_select (map f l) (map g l) = map g (filter (fun x => f x = true) l).
Proof.
  unfold mask_select. induction l as [|x l IH]; [reflexivity|].
  cbn [map zip zip_with]. rewrite !filter_cons. cbn [fst].
  destruct (decide (f x = true)); cbn [map snd]; rewrite IH; reflexivity.
Qed.

Lemma filter_mod_block (n c m : nat) :
  c < n ->
  filter (fun b => bool_decide (b mod n = c) = true) (seq (m * n) n)
  = [m * n + c].
Proof.
  intros Hc.
  replace n with (c + (1 + (n - S c))) at 2 by lia.
  rewrite !seq_app, !filter_app. cbn [seq].
  assert (Hnone : forall s len, m * n <= s -> s + len <= m * n + n ->
            (forall b, s <= b < s + len -> b <> m * n + c) ->
            filter (fun b => bool_decide (b mod n = c) = true) (seq s len) = []).
  { intros s len. revert s. induction len as [|len IH]; intros s H1 H2 H3;
      [reflexivity|].
    cbn [seq]. rewrite filter_cons_False.
    - apply IH; [lia | lia | intros b Hb; apply H3; lia].
    - rewrite bool_decide_eq_true. intros Hm.
      apply (H3 s); [lia|].
      replace s with (m * n + (s - m * n)) in Hm by lia.
      rewrite Nat.add_comm, Nat.Div0.mod_add in Hm.
      rewrite Nat.mod_small in Hm by lia. lia. }
  rewrite (Hnone (m * n) c) by lia.
  rewrite (Hnone (m * n + c + 1) (n - S c)) by lia.
  rewrite filter_cons_True; [rewrite filter_nil; reflexivity|].
  rewrite bool_decide_eq_true.
  rewrite Nat.add_comm, Nat.Div0.mod_add. apply Nat.mod_small, Hc.
Qed.

Lemma filter_mod_seq (n c bpf : nat) :
  c < n ->
  filter (fun b => bool_decide (b mod n = c) = true) (seq 0 (bpf * n))
  = map (fun k => k * n + c) (seq 0 bpf).
Proof.
  intros Hc. induction bpf as [|bpf IH]; [reflexivity|].
  replace (S bpf * n) with (bpf * n + n) by lia.
  rewrite seq_app, filter_app, IH. cbn [Nat.add].
  rewrite filter_mod_block by assumption.
  rewrite seq_S, map_app. reflexivity.
Qed.

Lemma block_row (n r c k : nat) :
  0 < r ->
  seq ((k * n + c) * r) r
  = map (fun p => ((p / r) * n + c) * r + p mod r) (seq (k * r) r).
Proof.
  intros Hr.
  replace (seq ((k * n + c) * r) r)
    with (Nat.add ((k * n + c) * r) <$> seq 0 r)
    by (rewrite fmap_add_seq; f_equal; lia).
  replace (seq (k * r) r) with (Nat.add (k * r) <$> seq 0 r)
    by (rewrite fmap_add_seq; f_equal; lia).
  change (@map) with (@fmap list _).
  rewrite <- list_fmap_compose. apply list_fmap_ext. intros i j Hj.
  apply lookup_seq in Hj as [-> Hj]. cbn.
  replace (k * r + i) with (i + k * r) by lia.
  rewrite Nat.div_add by lia. rewrite Nat.Div0.mod_add.
  rewrite Nat.div_small, Nat.mod_small by lia. lia.
Qed.

Lemma concat_rows (n r c bpf : nat) :
  0 < r ->
  concat (map (fun b => seq (0 + b * r) r) (map (fun k => k * n + c) (seq 0 bpf)))
  = camera_array n r (bpf * r) c.
Proof.
  intros Hr. unfold camera_array. induction bpf as [|bpf IH]; [reflexivity|].
  rewrite seq_S, !map_app, concat_app, IH. cbn [map concat Nat.add].
  rewrite app_nil_r, block_row by assumption.
  replace (S bpf * r) with (bpf * r + r) by lia.
  rewrite seq_app, map_app. reflexivity.
Qed.

Lemma mapM_ret {A B : Type} (f : A -> res B) (g : A -> B) (l : list A) :
  (forall x, x ∈ l -> f x = ret (g x)) -> mapM f l = ret (map g l).
Proof.
  induction l as [|x l IH]; intros H; [reflexivity|].
  cbn [mapM map]. rewrite (H x) by apply list_elem_of_here. cbn [bind ret].
  rewrite IH; [reflexivity|]. intros y Hy. apply H, list_elem_of_further, Hy.
Qed.

Lemma length_camera_array (n r size c : nat) :
  length (camera_array n r size c) = size.
Proof. unfold camera_array. rewrite length_map, length_seq. reflexivity. Qed.

(** The first pass yields the blocks of each camera in order; the channel
    pass, when it is switched on, then runs over each of these arrays. *)
Lemma gen_first_pass (self : BaseMACIE) (n r bpf : nat) :
  length (list_asics self) = n ->
  science_read_block_size self = r -> 0 < r ->
  blocks_per_frame self = bpf ->
  frame_size self = bpf * r ->
  total_frame_size self = bpf * r * n ->
  gen_asic_data_frame_deinterleaving_array self
  = if DEINTERLACE (settings self)
    then mapM (channel_pass self) (map (camera_array n r (bpf * r)) (seq 0 n))
    else ret (map (camera_array n r (bpf * r)) (seq 0 n)).
Proof.
  intros Hn Hr Hrpos Hb Hf Ht.
  unfold gen_asic_data_frame_deinterleaving_array.
  rewrite Hn, Hr, Hb, Ht. cbv zeta.
  unfold np_reshape2, np_arange. rewrite length_seq.
  replace (bpf * r * n) with (bpf * n * r) by lia.
  rewrite Nat.eqb_refl. cbn [bind ret]. rewrite chunks_seq.
  rewrite (mapM_ret _ (camera_array n r (bpf * r))); [reflexivity|].
  intros c Hc. rewrite Hf. apply elem_of_seq in Hc as [_ Hc]. cbn [Nat.add] in Hc.
  rewrite map_map. rewrite mask_select_map.
  rewrite filter_mod_seq by assumption.
  unfold np_flatten. rewrite concat_rows by assumption. rewrite length_camera_array, Nat.eqb_refl. reflexivity.
Qed.

End Deinterleaving.

Section Rule.
Import Image MacieIO Props.

Lemma camera_array_lookup (n r size c p : nat) :
  p < size ->
  camera_array n r size c !! p = Some (((p / r) * n + c) * r + p mod r).
Proof.
  intros Hp. unfold camera_array.
  change (@map) with (@fmap list _). rewrite list_lookup_fmap.
  rewrite lookup_seq_lt by assumption. reflexivity.
Qed.

Lemma position_of_lt (n r bpf i : nat) :
  0 < n -> 0 < r -> i < bpf * r * n -> position_of n r i < bpf * r.
Proof.
  intros Hn Hr Hi. unfold position_of.
  assert (i / r < bpf * n).
  { apply Nat.Div0.div_lt_upper_bound. lia. }
  assert (i / r / n < bpf).
  { apply Nat.Div0.div_lt_upper_bound. lia. }
  pose proof (Nat.mod_upper_bound i r ltac:(lia)). nia.
Qed.

Lemma position_of_div (n r i : nat) :
  0 < r -> position_of n r i / r = i / r / n.
Proof.
  intros Hr. unfold position_of.
  rewrite Nat.div_add_l by lia.
  rewrite (Nat.div_small (i mod r) r) by (apply Nat.mod_upper_bound; lia).
  lia.
Qed.

Lemma position_of_mod (n r i : nat) :
  0 < r -> position_of n r i mod r = i mod r.
Proof.
  intros Hr. unfold position_of.
  rewrite Nat.add_comm, Nat.Div0.mod_add. apply Nat.Div0.mod_mod.
Qed.

Lemma camera_array_at_position (n r bpf i : nat) :
  0 < n -> 0 < r -> i < bpf * r * n ->
  camera_array n r (bpf * r) (camera_of n r i) !! position_of n r i = Some i.
Proof.
  intros Hn Hr Hi.
  rewrite camera_array_lookup by (apply position_of_lt; assumption).
  rewrite position_of_div, position_of_mod by assumption.
  unfold camera_of. f_equal.
  pose proof (Nat.Div0.div_mod (i / r) n).
  pose proof (Nat.Div0.div_mod i r). nia.
Qed.

Lemma camera_array_elem (n r bpf c i : nat) :
  0 < r -> c < n -> i ∈ camera_array n r (bpf * r) c ->
  i < bpf * r * n /\ camera_of n r i = c.
Proof.
  intros Hr Hc Hi. unfold camera_array in Hi.
  apply list_elem_of_fmap in Hi as (p & -> & Hp).
  apply elem_of_seq in Hp as [_ Hp]. cbn [Nat.add] in Hp.
  pose proof (Nat.mod_upper_bound p r ltac:(lia)) as Hm.
  assert (Hq : p / r < bpf) by (apply Nat.Div0.div_lt_upper_bound; lia).
  assert (Hd : ((p / r * n + c) * r + p mod r) / r = p / r * n + c).
  { rewrite Nat.div_add_l by lia.
    rewrite (Nat.div_small (p mod r) r) by assumption. lia. }
  split; [nia|]. unfold camera_of. rewrite Hd.
  rewrite Nat.add_comm, Nat.Div0.mod_add. apply Nat.mod_small, Hc.
Qed.

End Rule.

Section Channels.
Import Image MacieIO Props.

Lemma filter_split_lt {A : Type} (c : A -> nat) (n : nat) (l : list A) :
  filter (fun x => c x < n) l ++ filter (fun x => c x = n) l
  ≡ₚ filter (fun x => c x < S n) l.
Proof.
  induction l as [|x l IH]; [reflexivity|].
  rewrite !filter_cons.
  destruct (decide (c x < n)), (decide (c x = n)), (decide (c x < S n));
    try lia; cbn [app].
  - rewrite IH. reflexivity.
  - rewrite <- Permutation_middle, IH. reflexivity.
  - exact IH.
Qed.

Lemma filter_all {A : Type} (P : A -> Prop) `{!forall x, Decision (P x)}
    (l : list A) :
  (forall x, x ∈ l -> P x) -> filter P l = l.
Proof.
  induction l as [|x l IH]; intros Hall; [reflexivity|].
  rewrite filter_cons_True by (apply Hall, list_elem_of_here).
  rewrite IH; [reflexivity|].
  intros y Hy. apply Hall, list_elem_of_further, Hy.
Qed.

Lemma stride_class (nch i j : nat) :
  i < nch -> (i <= j /\ (j - i) mod nch = 0) <-> j mod nch = i.
Proof.
  intros Hi. split.
  - intros [Hle Hm]. apply Nat.Div0.mod_divides in Hm as [q Hq].
    replace j with (i + q * nch) by lia.
    rewrite Nat.Div0.mod_add. apply Nat.mod_small, Hi.
  - intros Hm. pose proof (Nat.Div0.div_mod j nch) as Hd. split; [lia|].
    apply Nat.Div0.mod_divides. exists (j / nch). lia.
Qed.

Lemma snd_imap_pair {A : Type} (l : list A) :
  map snd (imap (fun j x => (j, x)) l) = l.
Proof.
  change (@map) with (@fmap list _). rewrite fmap_imap.
  change (fun n : nat => snd ∘ (fun x : A => (n, x))) with (@const (A -> A) nat id).
  rewrite imap_const. apply list_fmap_id.
Qed.

(** The channels of a row, taken one after the other, hold the columns of
    the row, each once. *)
Lemma channels_permutation {A : Type} (nch : nat) (row : list A) (n : nat) :
  n <= nch ->
  concat (map (fun i => let src := strided row i nch in
                        if Nat.even i then src else rev src) (seq 0 n))
  ≡ₚ map snd (filter (fun p => fst p mod nch < n)
                (imap (fun j x => (j, x)) row)).
Proof.
  induction n as [|n IH]; intros Hn.
  - cbn [seq map concat]. rewrite (list_filter_iff _ (fun _ => False)).
    + induction (imap _ row) as [|p l IHl]; [reflexivity|].
      rewrite filter_cons_False by tauto. exact IHl.
    + intros p. lia.
  - rewrite seq_S, map_app, concat_app, IH by lia. cbn [map concat Nat.add].
    rewrite app_nil_r. rewrite <- filter_split_lt, map_app.
    apply Permutation_app; [reflexivity|].
    assert (E : strided row n nch
                = map snd (filter (fun p => fst p mod nch = n)
                             (imap (fun j x => (j, x)) row))).
    { unfold strided. f_equal. apply list_filter_iff. intros p.
      apply stride_class. lia. }
    cbv zeta. rewrite E. destruct (Nat.even n); [reflexivity|].
    symmetry. apply Permutation_rev.
Qed.

Lemma deinterlace_row_permutation (nch nheaders : nat) (row : list nat) :
  0 < nch -> deinterlace_row nch nheaders row ≡ₚ row.
Proof.
  intros Hn. unfold deinterlace_row. cbv zeta.
  rewrite (channels_permutation nch (skipn nheaders row) nch) by lia.
  rewrite filter_all.
  - rewrite snd_imap_pair, firstn_skipn. reflexivity.
  - intros p _. apply Nat.mod_upper_bound. lia.
Qed.

End Channels.

Section Partition.
Import Image MacieIO Props.

Lemma closed_form_rule (n r bpf : nat) :
  0 < n -> 0 < r ->
  deinterleaving_rule n r (bpf * r * n)
    (map (camera_array n r (bpf * r)) (seq 0 n)).
Proof.
  intros Hn Hr.
  assert (Hlook : forall c, c < n ->
            map (camera_array n r (bpf * r)) (seq 0 n) !! c
            = Some (camera_array n r (bpf * r) c)).
  { intros c Hc. change (@map) with (@fmap list _).
    rewrite list_lookup_fmap, lookup_seq_lt by assumption. reflexivity. }
  assert (Hinv : forall c a,
            map (camera_array n r (bpf * r)) (seq 0 n) !! c = Some a ->
            c < n /\ a = camera_array n r (bpf * r) c).
  { intros c a Hca.
    assert (c < n).
    { apply lookup_lt_Some in Hca. rewrite length_map, length_seq in Hca.
      exact Hca. }
    rewrite Hlook in Hca by assumption. split; congruence. }
  split; [rewrite length_map, length_seq; reflexivity|].
  split; [|split].
  - intros i Hi. eexists. split.
    + apply Hlook. apply Nat.mod_upper_bound. lia.
    + apply camera_array_at_position; assumption.
  - intros c1 c2 a1 a2 i H1 H2 Hi1 Hi2.
    apply Hinv in H1 as [Hc1 ->]. apply Hinv in H2 as [Hc2 ->].
    apply camera_array_elem in Hi1 as [_ E1]; [|assumption..].
    apply camera_array_elem in Hi2 as [_ E2]; [|assumption..].
    congruence.
  - intros i. split.
    + intros Hi. exists (camera_of n r i), (camera_array n r (bpf * r) (camera_of n r i)).
      split; [apply Hlook, Nat.mod_upper_bound; lia|].
      eapply list_elem_of_lookup_2, camera_array_at_position; assumption.
    + intros (c & a & Hca & Hi). apply Hinv in Hca as [Hc ->].
      apply camera_array_elem in Hi as [Hi _]; assumption.
Qed.

Lemma concat_chunks {A : Type} (rows cols : nat) (a : list A) :
  length a = rows * cols -> concat (chunks rows cols a) = a.
Proof.
  revert a. induction rows as [|rows IH]; intros a Ha.
  - destruct a; [reflexivity | discriminate Ha].
  - cbn [chunks concat]. rewrite IH; [apply firstn_skipn|].
    rewrite length_skipn. lia.
Qed.

Lemma concat_map_permutation {A : Type} (f : list A -> list A)
    (l : list (list A)) :
  (forall x, f x ≡ₚ x) -> concat (map f l) ≡ₚ concat l.
Proof.
  intros Hf. induction l as [|x l IH]; [reflexivity|].
  cbn [map concat]. rewrite Hf, IH. reflexivity.
Qed.

Lemma channel_pass_permutation (self : BaseMACIE) (arr : list nat) :
  whole_channels self -> length arr = frame_size self ->
  exists arr' : list nat, channel_pass self arr = ret arr' /\ arr' ≡ₚ arr.
Proof.
  intros (Hsize & Hnch & Hpix & Hwidth) Hlen.
  unfold channel_pass, np_reshape2, deinterlace. cbv zeta in *.
  rewrite Hlen, Hsize, Nat.eqb_refl. cbn [bind ret].
  destruct (Nat.eqb_spec (NUMBEROFREADOUTCHANNELS (settings self)) 0); [lia|].
  match goal with |- context [(?w / ?n =? 0)%nat] =>
    destruct (Nat.eqb_spec (w / n) 0); [lia|] end.
  rewrite <- Hwidth, Nat.eqb_refl. cbn [bind ret].
  assert (Hp : concat (map (deinterlace_row
                              (NUMBEROFREADOUTCHANNELS (settings self))
                              (NUMBEROFSCIENCEHEADERSPERROW (settings self)))
                         (chunks (frame_y self) (frame_x self) arr)) ≡ₚ arr).
  { rewrite concat_map_permutation
      by (intros row; apply deinterlace_row_permutation, Hnch).
    rewrite concat_chunks by lia. reflexivity. }
  unfold np_flatten. rewrite (Permutation_length Hp), Hlen, Hsize.
  rewrite Nat.eqb_refl. eexists. split; [reflexivity | exact Hp].
Qed.

Lemma mapM_permutation (f : list nat -> res (list nat))
    (l : list (list nat)) :
  (forall x, x ∈ l -> exists y, f x = ret y /\ y ≡ₚ x) ->
  exists l' : list (list nat), mapM f l = ret l' /\ Forall2 Permutation l' l.
Proof.
  induction l as [|x l IH]; intros Hl.
  - exists []. split; [reflexivity | constructor].
  - destruct (Hl x (list_elem_of_here _ _)) as (y & Hy & Hp).
    destruct IH as (l' & Hl' & HF).
    { intros z Hz. apply Hl, list_elem_of_further, Hz. }
    exists (y :: l'). cbn [mapM]. rewrite Hy, Hl'. cbn [bind ret].
    split; [reflexivity | constructor; assumption].
Qed.

Lemma rule_without_positions (n r total : nat) (arrays : list (list nat)) :
  deinterleaving_rule n r total arrays -> camera_rule n r total arrays.
Proof.
  intros (Hlen & Hpos & Hdis & Hcov). repeat split; try assumption.
  - intros i Hi. destruct (Hpos i Hi) as (arr & Harr & Hat).
    exists arr. split; [exact Harr|]. eapply list_elem_of_lookup_2, Hat.
  - apply Hcov.
  - apply Hcov.
Qed.

Lemma camera_rule_permutation (n r total : nat)
    (arrays arrays' : list (list nat)) :
  Forall2 Permutation arrays' arrays ->
  camera_rule n r total arrays -> camera_rule n r total arrays'.
Proof.
  intros HF (Hlen & Hcam & Hdis & Hcov).
  assert (Hto : forall c a', arrays' !! c = Some a' ->
            exists a, arrays !! c = Some a /\ a' ≡ₚ a)
    by (intros c a'; apply Forall2_lookup_l, HF).
  assert (Hfrom : forall c a, arrays !! c = Some a ->
            exists a', arrays' !! c = Some a' /\ a' ≡ₚ a)
    by (intros c a; apply Forall2_lookup_r, HF).
  split; [rewrite (Forall2_length _ _ _ HF); exact Hlen|].
  split; [|split].
  - intros i Hi. destruct (Hcam i Hi) as (a & Ha & Hin).
    destruct (Hfrom _ _ Ha) as (a' & Ha' & Hp).
    exists a'. split; [exact Ha'|]. rewrite Hp. exact Hin.
  - intros c1 c2 a1 a2 i H1 H2 Hi1 Hi2.
    destruct (Hto _ _ H1) as (b1 & Hb1 & Hp1).
    destruct (Hto _ _ H2) as (b2 & Hb2 & Hp2).
    rewrite Hp1 in Hi1. rewrite Hp2 in Hi2.
    exact (Hdis c1 c2 b1 b2 i Hb1 Hb2 Hi1 Hi2).
  - intros i. rewrite (Hcov i). split.
    + intros (c & a & Ha & Hin). destruct (Hfrom _ _ Ha) as (a' & Ha' & Hp).
      exists c, a'. split; [exact Ha'|]. rewrite Hp. exact Hin.
    + intros (c & a' & Ha' & Hin). destruct (Hto _ _ Ha') as (a & Ha & Hp).
      exists c, a. split; [exact Ha|]. rewrite <- Hp. exact Hin.
Qed.

(** [init] on a sound geometry, as far as the first pass. *)
Lemma init_geometry_first_pass (self : BaseMACIE) :
  geometry_ok self ->
  let n := length (list_asics self) in
  let r := science_read_block_size self in
  let self1 := set_geometry (frame_size self / r)
                 (frame_size self * length (list_asics_index self)) self in
  let arrays := map (camera_array n r (frame_size self)) (seq 0 n) in
  init_geometry self
  = (let* arr := if DEINTERLACE (settings self)
                 then mapM (channel_pass self1) arrays
                 else ret arrays in
     ret (set_deinterleaving_array arr self1)) /\
  deinterleaving_rule n r (frame_size self * n) arrays.
Proof.
  intros (Hlen & Hn & Hr & Hdiv). cbv zeta.
  set (r := science_read_block_size self) in *.
  set (n := length (list_asics self)) in *.
  set (bpf := frame_size self / r).
  assert (Hf : frame_size self = bpf * r).
  { pose proof (Nat.Div0.div_mod (frame_size self) r). unfold bpf. lia. }
  split.
  - unfold init_geometry. fold r.
    destruct (Nat.eqb_spec r 0) as [E|_]; [lia|].
    rewrite (gen_first_pass _ n r bpf); cbn [settings list_asics set_geometry
      science_read_block_size blocks_per_frame frame_size total_frame_size];
      try first [assumption | reflexivity | lia].
    rewrite <- Hf. reflexivity.
  - rewrite Hf at 2. rewrite Hf at 1. apply closed_form_rule; assumption.
Qed.

(** C4 (amended): for [n >= 1] cameras and a read block [r] that divides the
    frame, [init] builds one index array per camera such that buffer index
    [i] is in the array of camera [(i / r) mod n], and the arrays are
    pairwise disjoint and together hold exactly the indices below
    [frame_size * n]; this holds with channel deinterlacing switched off,
    and with it switched on over whole channels.  With deinterlacing
    switched off, index [i] sits at position [(i / r) / n * r + i mod r] of
    its camera's array. *)
Theorem deinterleaving_partition (self : BaseMACIE) :
  geometry_ok self ->
  (DEINTERLACE (settings self) = false -> partition_claim self) /\
  (DEINTERLACE (settings self) = false \/ whole_channels self ->
   cameras_claim self).
Proof.
  intros Hgeo.
  destruct (init_geometry_first_pass self Hgeo) as [Hinit Hrule].
  cbv zeta in Hinit, Hrule.
  unfold partition_claim, cameras_claim. rewrite Hinit. split.
  - intros Hd. rewrite Hd. cbn [bind ret]. eexists. split; [reflexivity|].
    exact Hrule.
  - intros Hw. destruct (DEINTERLACE (settings self)) eqn:Hd.
    + destruct Hw as [Hw|Hw]; [discriminate Hw|].
      match goal with |- context [mapM ?f ?l] =>
        destruct (mapM_permutation f l) as (arrays' & Hm & HF) end.
      { intros arr Harr. apply channel_pass_permutation; [exact Hw|].
        apply list_elem_of_fmap in Harr as (c & -> & _).
        apply length_camera_array. }
      rewrite Hm. cbn [bind ret]. eexists. split; [reflexivity|].
      cbn [deinterleaving_array set_deinterleaving_array].
      eapply camera_rule_permutation; [exact HF|].
      apply rule_without_positions, Hrule.
    + cbn [bind ret]. eexists. split; [reflexivity|].
      apply rule_without_positions, Hrule.
Qed.

Lemma deinterleaving_partition_witness :
  partition_claim (macie 4 8 8 4 false 33 0) /\
  cameras_claim (macie 2 4 4 1 true 2 0).
Proof.
  split.
  - apply (deinterleaving_partition (macie 4 8 8 4 false 33 0)).
    + repeat split; cbn; lia.
    + reflexivity.
  - apply (deinterleaving_partition (macie 2 4 4 1 true 2 0)).
    + repeat split; cbn; lia.
    + right. repeat split; cbn; lia.
Defined.

(** C4, as stated, fails when [DEINTERLACE] is set: the channel pass moves
    the indices inside each camera's array.  Two cameras, blocks of four,
    two channels: index 1 ends up at position 3 of camera 0. *)
Lemma deinterlaced_positions_differ :
  geometry_ok (macie 2 4 4 1 true 2 0) /\ ~ partition_claim (macie 2 4 4 1 true 2 0).
Proof.
  split; [repeat split; cbn; lia|].
  intros (self' & Hinit & _ & Hpos & _).
  assert (E : deinterleaving_array self' = [[0; 2; 3; 1]; [4; 6; 7; 5]]).
  { vm_compute in Hinit. injection Hinit as <-. reflexivity. }
  rewrite E in Hpos. destruct (Hpos 1) as (arr & Harr & Hat); [cbn; lia|].
  vm_compute in Harr. injection Harr as <-. vm_compute in Hat. discriminate Hat.
Qed.

End Partition.


(** ** The skip schedule of [start] *)

Section SkipSchedule.
Import Image StatusPy MacieIO Props.

Lemma skip_inner_spec (n : nat) (skips : list bool) (rem : Z) :
  skip_inner n skips rem = (skips ++ replicate n true, (rem - Z.of_nat n)%Z).
Proof.
  revert skips rem. induction n as [|n IH]; intros skips rem.
  - cbn. rewrite app_nil_r. f_equal. lia.
  - cbn [skip_inner]. rewrite IH. rewrite <- app_assoc. cbn [replicate app].
    f_equal. lia.
Qed.

Lemma skip_loop_spec (s : Z) (bound : nat) (skips : list bool) (rem : Z) :
  (Z.to_nat rem <= bound)%nat ->
  exists j : nat,
    skip_loop bound s skips rem
    = (skips ++ concat (replicate j (period (Z.to_nat s))),
       (rem - Z.of_nat (j * (Z.to_nat s + 1)))%Z) /\
    (rem - Z.of_nat (j * (Z.to_nat s + 1)) <= 0)%Z.
Proof.
  revert skips rem. induction bound as [|bound IH]; intros skips rem Hb.
  - exists 0%nat. cbn. rewrite app_nil_r. split; [f_equal; lia | lia].
  - cbn [skip_loop]. destruct (Z.ltb_spec 0 rem) as [Hpos|Hneg].
    + rewrite skip_inner_spec.
      destruct (IH ((skips ++ [false]) ++ replicate (Z.to_nat s) true)
                  (rem - 1 - Z.of_nat (Z.to_nat s))%Z) as (j & Hj & Hle);
        [lia|].
      exists (S j). rewrite Hj. split.
      * f_equal; [|lia]. cbn [replicate concat]. unfold period at 3.
        rewrite <- !app_assoc. reflexivity.
      * lia.
    + exists 0%nat. cbn. rewrite app_nil_r. split; [f_equal; lia | lia].
Qed.

(** With [science_frames] rounds allowed, the schedule loop stops because
    its counter has run out, not because the rounds have. *)
Lemma skip_loop_leaves_by_test (science_frames skip_frames : Z) :
  (snd (skip_loop (Z.to_nat science_frames) skip_frames [] science_frames)
   <= 0)%Z.
Proof.
  destruct (skip_loop_spec skip_frames (Z.to_nat science_frames) []
              science_frames) as (j & Hj & Hle); [lia|].
  rewrite Hj. exact Hle.
Qed.

Lemma period_lookup (s k : nat) :
  (k < s + 1)%nat -> period s !! k = Some (negb (k =? 0)%nat).
Proof.
  intros Hk. destruct k as [|k]; [reflexivity|]. cbn.
  apply lookup_replicate_2. lia.
Qed.

Lemma length_period (s : nat) : length (period s) = (s + 1)%nat.
Proof. unfold period. cbn. rewrite length_replicate. lia. Qed.

Lemma periodic_lookup (s j i : nat) :
  (i < j * (s + 1))%nat ->
  concat (replicate j (period s)) !! i = Some (periodic_entry s i).
Proof.
  revert i. induction j as [|j IH]; intros i Hi; [lia|].
  cbn [replicate concat]. unfold periodic_entry.
  destruct (Nat.lt_ge_cases i (s + 1)) as [Hlt|Hge].
  - rewrite lookup_app_l by (rewrite length_period; exact Hlt).
    rewrite Nat.mod_small by exact Hlt. apply period_lookup, Hlt.
  - rewrite lookup_app_r by (rewrite length_period; exact Hge).
    rewrite length_period. rewrite IH by nia. unfold periodic_entry.
    replace i with ((i - (s + 1)) + 1 * (s + 1))%nat at 2 by lia.
    rewrite Nat.Div0.mod_add. reflexivity.
Qed.

Lemma length_periodic (s j : nat) :
  length (concat (replicate j (period s))) = (j * (s + 1))%nat.
Proof.
  induction j as [|j IH]; [reflexivity|].
  cbn [replicate concat]. rewrite length_app, length_period, IH. lia.
Qed.

(** C5 (amended): the schedule has exactly [science_frames] entries in all,
    kept and skipped together, and entry [i] is a kept one exactly when [i]
    is a multiple of [skip_frames + 1]: each kept entry is followed by
    [skip_frames] skipped ones until the list is cut. *)
Theorem skip_schedule_periodic (science_frames skip_frames : Z) :
  (0 <= science_frames)%Z ->
  let skips := skip_schedule science_frames skip_frames in
  length skips = Z.to_nat science_frames /\
  forall i : nat, (i < length skips)%nat ->
    skips !! i = Some (periodic_entry (Z.to_nat skip_frames) i).
Proof.
  intros HN. cbv zeta. unfold skip_schedule.
  destruct (skip_loop_spec skip_frames (Z.to_nat science_frames) []
              science_frames) as (j & Hj & Hle); [lia|].
  rewrite Hj. cbn [app].
  set (s := Z.to_nat skip_frames) in *.
  assert (Hlen : (Z.to_nat science_frames <= j * (s + 1))%nat) by lia.
  rewrite py_slice_prefix by (rewrite length_periodic; lia).
  assert (Hl : length (take (Z.to_nat science_frames)
                  (concat (replicate j (period s))))
               = Z.to_nat science_frames).
  { rewrite length_take, length_periodic. lia. }
  split; [exact Hl|]. intros i Hi. rewrite Hl in Hi.
  rewrite lookup_take_lt by exact Hi. apply periodic_lookup. lia.
Qed.

Lemma skip_schedule_periodic_witness :
  skip_schedule 10 2
  = [false; true; true; false; true; true; false; true; true; false] /\
  length (skip_schedule 10 2) = 10%nat /\
  kept (skip_schedule 10 2) = 4%nat /\
  forall i : nat, (i < length (skip_schedule 10 2))%nat ->
    skip_schedule 10 2 !! i = Some (periodic_entry 2 i).
Proof.
  split; [reflexivity|]. split; [reflexivity|]. split; [reflexivity|].
  apply (skip_schedule_periodic 10 2). lia.
Defined.

(** C5, as stated, fails: for ten science frames and two skipped frames per
    kept one the list is cut to ten entries, of which four are kept. *)
Lemma skip_schedule_keeps_four : ~ skip_schedule_claim 10 2.
Proof. intros [_ H]. vm_compute in H. discriminate H. Qed.

End SkipSchedule.

(** ** Exposure time remaining *)

Lemma last_cons_default {A : Type} (a d : A) (l : list A) :
  List.last (a :: l) d = List.last l a.
Proof.
  revert a d. induction l as [|b l IH]; intros a d; [reflexivity|].
  change (List.last (a :: b :: l) d) with (List.last (b :: l) d).
  rewrite !IH. reflexivity.
Qed.

Section Exposure.
Import Image StatusPy MacieIO Props.
Local Open Scope Q_scope.

Variable capture_frame : Z -> bool -> bool -> res unit.
Variable frame_time : Q.
Hypothesis frame_time_pos : 0 < frame_time.

Lemma after_capture_in_step (s : capture_state) :
  in_step frame_time (after_capture frame_time s).
Proof. reflexivity. Qed.

Lemma after_capture_decreases (s : capture_state) :
  in_step frame_time s ->
  exists x y : Q,
    time_remaining s = Some x /\
    time_remaining (after_capture frame_time s) = Some y /\
    y == x - frame_time /\ y < x.
Proof.
  intros Hs. eexists _, _. split; [exact Hs|]. split; [reflexivity|].
  unfold Z.sub. rewrite inject_Z_plus, inject_Z_opp.
  change (inject_Z 1) with 1.
  set (q := inject_Z (total_frames s)). clearbody q.
  split; [ring | lra].
Qed.

Lemma capture_loop_decreases (requests : list (Z * bool * bool))
    (s : capture_state) :
  in_step frame_time s ->
  decreases_by frame_time s
    (fst (capture_loop capture_frame frame_time requests s)) /\
  in_step frame_time (List.last (fst (capture_loop capture_frame frame_time requests s)) s).
Proof.
  revert s. induction requests as [|[[frame reset] skip] rest IH];
    intros s Hs; [split; [exact I | exact Hs]|].
  cbn [capture_loop]. destruct (capture_frame frame reset skip) as [e|[]];
    [split; [exact I | exact Hs]|].
  destruct (IH (after_capture frame_time s) (after_capture_in_step s))
    as [Hd Hl].
  destruct (capture_loop capture_frame frame_time rest
              (after_capture frame_time s)) as [trace e] eqn:E.
  cbn [fst] in *. split.
  - split; [apply after_capture_decreases, Hs | exact Hd].
  - rewrite last_cons_default. exact Hl.
Qed.



End Exposure.

Section Start.
Import Image StatusPy MacieIO Props.
Local Open Scope Q_scope.

Lemma fowler_calc_frames_total (t ft : Q) (k : Z) :
  0 < ft -> exists n : Z, fowler_calc_frames t ft k = ret n.
Proof.
  intros Hft. unfold fowler_calc_frames. cbv zeta.
  destruct (Qlt_le_dec (t - ft * inject_Z k) 0); [eexists; reflexivity|].
  rewrite ssr_calc_frames_pos by exact Hft. eexists. reflexivity.
Qed.

Lemma registered_frames_total (M : string) (f : Q -> Q -> res Z) (t ft : Q) :
  FRAMES_PER_EXPOSURE_TIME !! M = Some f -> 0 < ft ->
  exists n : Z, f t ft = ret n.
Proof.
  intros Hf Hft. unfold FRAMES_PER_EXPOSURE_TIME in Hf.
  repeat (apply lookup_insert_Some in Hf as [[_ <-] | [_ Hf]];
          [ first [ apply fowler_calc_frames_total, Hft
                  | unfold cds_calc_frames, mean_calc_frames;
                    rewrite ssr_calc_frames_pos by exact Hft;
                    eexists; reflexivity ] |]).
  rewrite lookup_empty in Hf. discriminate Hf.
Qed.

(** The schedule that [start] uses is the one for its science-frame count
    and [round(skip_time / FRAMETIMESEC)] skipped frames per kept one. *)
Lemma start_skip_schedule
    (capture_frame : Z -> bool -> bool -> res unit) (self : BaseMACIE)
    (exposure_time skip_time : Q) (status : Status) (run : exposure_run) :
  0 < FRAMETIMESEC (settings self) ->
  start capture_frame self exposure_time skip_time status = ret run ->
  skips run
  = skip_schedule (science_frames run)
      (py_round (skip_time / FRAMETIMESEC (settings self))).
Proof.
  intros Hft. unfold start. cbv zeta.
  destruct (calc_num_frames _ _ _) as [e|n]; [discriminate|].
  cbn [bind]. rewrite ssr_calc_frames_pos by exact Hft. cbn [bind ret].
  destruct (capture_loop capture_frame _ _ _) as [trace1 [e|]].
  - intros H. injection H as <-. reflexivity.
  - destruct (capture_loop capture_frame _ _ _) as [trace2 e2].
    intros H. injection H as <-. reflexivity.
Qed.




End Start.

(** ** Telemetry *)

Section Telemetry.
Import Image StatusPy MacieIO Props.
Local Open Scope Z_scope.

(** With six science-header words and a telemetry row of at least six
    words, the string subscript of the word array raises before the table
    is consulted, and the session is left as it was. *)
Lemma parse_science_header_subscript (self : BaseMACIE)
    (frame : list (list Z)) (row : list Z) (cam_name : string)
    (cam_index : Z) :
  n_science_headers self = 6 ->
  py_getitem frame (ASICIDLOWERTELEMETRYROW (settings self)) = ret row ->
  (6 <= length row)%nat ->
  parse_science_header self frame cam_name cam_index = (raise IndexError, self).
Proof.
  intros H6 Hrow Hlen.
  unfold parse_science_header, parse_science_header_with.
  rewrite H6, Hrow. cbn [Z.eqb Pos.eqb bind ret].
  destruct row as [|w1 [|w2 [|w3 [|w4 [|w5 [|w6 row]]]]]];
    cbn [length] in Hlen; try lia.
  assert (E : py_slice (w1 :: w2 :: w3 :: w4 :: w5 :: w6 :: row) 0 6
              = [w1; w2; w3; w4; w5; w6]).
  { unfold py_slice, py_slice_bound. cbn [length].
    change (0 <? 0) with false. change (6 <? 0) with false. cbv iota zeta.
    rewrite Z.min_r by lia. rewrite Z.min_r by lia. reflexivity. }
  rewrite E. reflexivity.
Qed.

(** Even with the chip id as subscript, a chip that the table maps to
    another camera than the expected one moves the frame to that camera
    and leaves [resync] alone: the flag is only set where the table has no
    entry. *)
Lemma resolve_camera_mismatch (self : BaseMACIE) (chip chip_number : Z)
    (cam_index : Z) :
  ASICCHIPIDLOWER (settings self) !! chip = Some chip_number ->
  snd (resolve_camera self (ret chip) cam_index) = self.
Proof.
  intros Hc. unfold resolve_camera, dict_getitem. cbv [bind ret].
  rewrite Hc.
  destruct (py_getitem (cam_names self) chip_number); reflexivity.
Qed.

Lemma resolve_camera_unknown_chip (self : BaseMACIE) (chip : Z)
    (cam_index : Z) (cam_name : string) :
  ASICCHIPIDLOWER (settings self) !! chip = None ->
  py_getitem (cam_names self) cam_index = ret cam_name ->
  resolve_camera self (ret chip) cam_index
  = (ret (cam_name, cam_index), set_resync true self).
Proof.
  intros Hc Hn. unfold resolve_camera, dict_getitem. cbv [bind ret raise].
  rewrite Hc. cbn [cam_names set_resync]. rewrite Hn. reflexivity.
Qed.

(** C3: chip id 2 in the telemetry of a frame expected from camera 0.  The
    source subscripts the word array with the string
    ['ASICIDLOWERTELEMETRYCOLUMN']; that raises [IndexError], which the
    [except KeyError] does not catch: no camera is returned and [resync]
    stays [False].  Read with the chip id as subscript, the frame does go
    to camera 2, and [resync] still stays [False]. *)
Theorem parse_science_header_chip2 :
  parse_science_header acadia frame_chip2 "C0" 0 = (raise IndexError, acadia) /\
  resync acadia = false /\
  exists hdr : gmap string Z,
    parse_science_header_with sixth_word acadia frame_chip2 "C0" 0
    = (ret (hdr, "C2"%string, 2), acadia).
Proof.
  split; [reflexivity|]. split; [reflexivity|].
  eexists. reflexivity.
Qed.

End Telemetry.

(** ** The status object *)

Section StatusFile.
Import StatusPy Props.

(** The updates made by the post-processing tasks leave the time remaining
    alone. *)
Lemma post_processing_keeps_time_remaining (s : Status) (frame_file : string)
    (camera_number : Z) :
  ExposureTimeRemaining
    (status (snd (update_exposure_frames frame_file camera_number s)))
  = ExposureTimeRemaining (status s) /\
  ExposureTimeRemaining
    (status (snd (update_intermediate_reduced_frame_frames frame_file
                    camera_number s)))
  = ExposureTimeRemaining (status s) /\
  ExposureTimeRemaining
    (status (snd (update_final_reduced_exposure frame_file camera_number s)))
  = ExposureTimeRemaining (status s).
Proof.
  unfold update_exposure_frames, update_intermediate_reduced_frame_frames,
    update_final_reduced_exposure.
  repeat split.
  - destruct (append_at _ _ (ExposureFrames (status s))); reflexivity.
  - destruct (append_at _ _ (IntermediateReducedFrames (status s)));
      reflexivity.
  - destruct (FinalReducedFrame (status s)); reflexivity.
Qed.



End StatusFile.

(** ** Commands *)

Section Commands.
Import StatusPy Interface Props.





End Commands.

Section BitMasks.
Import Image StatusPy MacieIO Props Extra.
Local Open Scope Z_scope.

Lemma set_bits_digits (k : Z) (p : positive) :
  set_bits k (rev (pos_digits p)) = ret (pos_powers k p).
Proof.
  revert k. induction p as [q IH|q IH|]; intros k; cbn [pos_digits pos_powers].
  - rewrite rev_unit. cbn [set_bits]. rewrite IH. reflexivity.
  - rewrite rev_unit. cbn [set_bits]. rewrite IH. reflexivity.
  - reflexivity.
Qed.

Lemma set_bits_stops_at_b (k : Z) (p : positive) :
  set_bits k (rev ("b"%char :: pos_digits p)) = raise ValueError.
Proof.
  cbn [rev]. revert k.
  induction p as [q IH|q IH|]; intros k; cbn [pos_digits].
  - rewrite rev_unit. cbn [app set_bits]. rewrite IH. reflexivity.
  - rewrite rev_unit. cbn [app set_bits]. rewrite IH. reflexivity.
  - reflexivity.
Qed.

Lemma composite_byte_of_pos (p : positive) :
  composite_byte_to_byte_list (Z.pos p) = ret (pos_powers 0 p).
Proof. unfold composite_byte_to_byte_list. cbn [py_bin drop]. apply set_bits_digits. Qed.

Lemma sum_pos_powers (k acc : Z) (p : positive) :
  0 <= k -> fold_left Z.add (pos_powers k p) acc = acc + 2 ^ k * Z.pos p.
Proof.
  revert k acc. induction p as [q IH|q IH|]; intros k acc Hk;
    cbn [pos_powers fold_left].
  - rewrite IH by lia. rewrite Z.pow_add_r by lia. lia.
  - rewrite IH by lia. rewrite Z.pow_add_r by lia. lia.
  - lia.
Qed.

Lemma index_list_pos_powers (k : Z) (p : positive) :
  0 <= k ->
  byte_list_to_index_list (pos_powers k p) = ret (pos_indices k p).
Proof.
  assert (Hlog : forall j, 0 <= j -> py_int_log2 (2 ^ j) = ret j).
  { intros j Hj. unfold py_int_log2.
    pose proof (Z.pow_pos_nonneg 2 j ltac:(lia) Hj).
    destruct (Z.ltb_spec (2 ^ j) 0); [lia|].
    destruct (Z.eqb_spec (2 ^ j) 0); [lia|].
    rewrite Z.log2_pow2 by exact Hj. reflexivity. }
  unfold byte_list_to_index_list.
  revert k. induction p as [q IH|q IH|]; intros k Hk;
    cbn [pos_powers pos_indices mapM].
  - rewrite Hlog by exact Hk. rewrite IH by lia. reflexivity.
  - apply IH. lia.
  - rewrite Hlog by exact Hk. reflexivity.
Qed.

Lemma length_pos_indices (k : Z) (p : positive) :
  length (pos_indices k p) = length (pos_powers k p).
Proof.
  revert k. induction p as [q IH|q IH|]; intros k; cbn; auto.
Qed.

Lemma pos_powers_indices (k : Z) (p : positive) :
  pos_powers k p = map (Z.pow 2) (pos_indices k p).
Proof.
  revert k. induction p as [q IH|q IH|]; intros k; cbn [pos_powers pos_indices map].
  - rewrite IH. reflexivity.
  - apply IH.
  - reflexivity.
Qed.

Lemma elem_of_pos_indices (k i : Z) (p : positive) :
  i ∈ pos_indices k p <-> k <= i /\ Z.testbit (Z.pos p) (i - k) = true.
Proof.
  revert k. induction p as [q IH|q IH|]; intros k; cbn [pos_indices].
  - rewrite elem_of_cons, IH. rewrite Pos2Z.inj_xI.
    destruct (Z.eq_dec i k) as [->|Hne].
    + rewrite Z.sub_diag, Z.testbit_odd_0. intuition lia.
    + replace (i - k) with (Z.succ (i - (k + 1))) by lia.
      destruct (Z_lt_le_dec i k).
      * intuition lia.
      * rewrite Z.testbit_odd_succ by lia. intuition lia.
  - rewrite IH. rewrite Pos2Z.inj_xO.
    destruct (Z.eq_dec i k) as [->|Hne].
    + rewrite Z.sub_diag, Z.testbit_even_0. intuition (lia || discriminate).
    + replace (i - k) with (Z.succ (i - (k + 1))) by lia.
      destruct (Z_lt_le_dec i k).
      * intuition lia.
      * rewrite Z.testbit_even_succ by lia. intuition lia.
  - rewrite list_elem_of_singleton.
    destruct (Z.eq_dec i k) as [->|Hne].
    + rewrite Z.sub_diag. cbn. intuition lia.
    + split; [intros; lia|]. intros [Hle Hb].
      replace (i - k) with (Z.succ (i - k - 1)) in Hb by lia.
      change 1 with (2 * 0 + 1) in Hb.
      rewrite Z.testbit_odd_succ in Hb by lia.
      rewrite Z.testbit_0_l in Hb. discriminate Hb.
Qed.

Lemma pos_indices_sorted (k : Z) (p : positive) :
  StronglySorted Z.lt (pos_indices k p).
Proof.
  revert k. induction p as [q IH|q IH|]; intros k; cbn [pos_indices].
  - constructor; [apply IH|]. apply Forall_forall. intros i Hi.
    apply elem_of_pos_indices in Hi. lia.
  - apply IH.
  - repeat constructor.
Qed.

Lemma composite_byte_nonneg (n : Z) :
  0 <= n ->
  exists (l idx : list Z),
    composite_byte_to_byte_list n = ret l /\
    byte_list_to_index_list l = ret idx /\
    byte_list_to_composite_byte l = n /\
    l = map (Z.pow 2) idx /\
    StronglySorted Z.lt idx /\
    forall i : Z, i ∈ idx <-> 0 <= i /\ Z.testbit n i = true.
Proof.
  intros Hn. destruct n as [|p|p]; [| |lia].
  - exists [], []. do 4 (split; [reflexivity|]). split; [constructor|].
    intros i. split.
    + intros Hi. inversion Hi.
    + intros [_ Hb]. rewrite Z.testbit_0_l in Hb. discriminate Hb.
  - exists (pos_powers 0 p), (pos_indices 0 p).
    split; [apply composite_byte_of_pos|].
    split; [apply index_list_pos_powers; lia|].
    split; [unfold byte_list_to_composite_byte; rewrite sum_pos_powers; lia|].
    split; [apply pos_powers_indices|].
    split; [apply pos_indices_sorted|].
    intros i. rewrite elem_of_pos_indices, Z.sub_0_r. reflexivity.
Qed.

(** X1: a mask that is not negative is the sum of the list it is split
    into. *)
Theorem byte_list_round_trip (n : Z) :
  0 <= n ->
  exists l : list Z,
    composite_byte_to_byte_list n = ret l /\
    byte_list_to_composite_byte l = n.
Proof.
  intros Hn. destruct (composite_byte_nonneg n Hn) as (l & idx & H1 & _ & H3 & _).
  exists l. split; assumption.
Qed.

Lemma byte_list_round_trip_witness :
  exists l : list Z,
    composite_byte_to_byte_list 13 = ret l /\
    byte_list_to_composite_byte l = 13.
Proof. apply (byte_list_round_trip 13). lia. Defined.

(** X2: a negative mask is refused: its binary text keeps the [b] of the
    prefix, which [int] does not read. *)
Theorem negative_mask_raises (n : Z) :
  n < 0 -> composite_byte_to_byte_list n = raise ValueError.
Proof.
  intros Hn. destruct n as [|p|p]; [lia | lia |].
  unfold composite_byte_to_byte_list. cbn [py_bin drop].
  apply set_bits_stops_at_b.
Qed.

Lemma negative_mask_raises_witness :
  composite_byte_to_byte_list (-5) = raise ValueError.
Proof. apply (negative_mask_raises (-5)). lia. Defined.

(** X3: [get_available_asics] on a mask that is not negative leaves one
    index per listed ASIC; the indices are the positions of the set bits
    of the mask, in ascending order, and the listed ASICs are the powers of
    two at these positions. *)
Theorem get_available_asics_set_bits (all_asics : Z) (self : BaseMACIE) :
  0 <= all_asics ->
  exists self' : BaseMACIE,
    get_available_asics all_asics self = ret self' /\
    length (list_asics self') = length (list_asics_index self') /\
    list_asics self' = map (Z.pow 2) (list_asics_index self') /\
    StronglySorted Z.lt (list_asics_index self') /\
    forall i : Z,
      i ∈ list_asics_index self' <-> 0 <= i /\ Z.testbit all_asics i = true.
Proof.
  intros Hn.
  destruct (composite_byte_nonneg all_asics Hn)
    as (l & idx & H1 & H2 & _ & H4 & H5 & H6).
  unfold get_available_asics. rewrite H1. cbn [bind ret]. rewrite H2.
  cbn [bind ret]. eexists. split; [reflexivity|].
  cbn [list_asics list_asics_index set_asics].
  split; [rewrite H4, length_map; reflexivity|].
  split; [exact H4|]. split; [exact H5 | exact H6].
Qed.

Lemma get_available_asics_set_bits_witness :
  exists self' : BaseMACIE,
    get_available_asics 13 acadia = ret self' /\
    length (list_asics self') = length (list_asics_index self') /\
    list_asics self' = map (Z.pow 2) (list_asics_index self') /\
    StronglySorted Z.lt (list_asics_index self') /\
    forall i : Z,
      i ∈ list_asics_index self' <-> 0 <= i /\ Z.testbit 13 i = true.
Proof. apply (get_available_asics_set_bits 13 acadia). lia. Defined.

Lemma sorted_same_elements (l1 l2 : list Z) :
  StronglySorted Z.lt l1 -> StronglySorted Z.lt l2 ->
  (forall i : Z, i ∈ l1 <-> i ∈ l2) -> l1 = l2.
Proof.
  intros H1. revert l2. induction H1 as [|x l1 Hs1 IH Hx]; intros l2 H2 Hel.
  - destruct l2 as [|y l2]; [reflexivity|].
    exfalso. pose proof (proj2 (Hel y) (list_elem_of_here _ _)) as Hy.
    inversion Hy.
  - destruct H2 as [|y l2 Hs2 Hy].
    + exfalso. pose proof (proj1 (Hel x) (list_elem_of_here _ _)) as Hx'.
      inversion Hx'.
    + rewrite Forall_forall in Hx, Hy.
      assert (x = y).
      { pose proof (proj1 (Hel x) (list_elem_of_here _ _)) as Hxin.
        pose proof (proj2 (Hel y) (list_elem_of_here _ _)) as Hyin.
        apply elem_of_cons in Hxin as [?|Hxin]; [assumption|].
        apply elem_of_cons in Hyin as [?|Hyin]; [congruence|].
        pose proof (Hx _ Hyin). pose proof (Hy _ Hxin). lia. }
      subst y. f_equal. apply IH; [exact Hs2|].
      intros i. split; intros Hi.
      * pose proof (proj1 (Hel i) (list_elem_of_further _ _ _ Hi)) as Hin.
        apply elem_of_cons in Hin as [->|Hin]; [|exact Hin].
        pose proof (Hx _ Hi). lia.
      * pose proof (proj2 (Hel i) (list_elem_of_further _ _ _ Hi)) as Hin.
        apply elem_of_cons in Hin as [->|Hin]; [|exact Hin].
        pose proof (Hy _ Hi). lia.
Qed.

Lemma py_range_sorted (n : Z) : StronglySorted Z.lt (py_range n).
Proof.
  unfold py_range. generalize 0%nat. generalize (Z.to_nat n).
  intros len. induction len as [|len IH]; intros start; [constructor|].
  cbn [seq map]. constructor; [apply IH|].
  apply Forall_forall. intros i Hi.
  apply list_elem_of_fmap in Hi as (j & -> & Hj).
  apply elem_of_seq in Hj. lia.
Qed.

Lemma elem_of_py_range (n i : Z) : i ∈ py_range n <-> 0 <= i < n.
Proof.
  unfold py_range. rewrite list_elem_of_fmap. split.
  - intros (j & -> & Hj). apply elem_of_seq in Hj. lia.
  - intros Hi. exists (Z.to_nat i). split; [lia|]. apply elem_of_seq. lia.
Qed.

Lemma simulated_mask (NUMBEROFCAMERAS : Z) :
  0 <= NUMBEROFCAMERAS ->
  ApiSimulator.get_available_asics NUMBEROFCAMERAS = Z.ones NUMBEROFCAMERAS.
Proof.
  intros HN. unfold ApiSimulator.get_available_asics, py_range.
  rewrite Z.ones_equiv.
  rewrite <- (Z2Nat.id NUMBEROFCAMERAS) at 2 by exact HN.
  induction (Z.to_nat NUMBEROFCAMERAS) as [|n IH]; [reflexivity|].
  rewrite seq_S, map_app, fold_left_app, IH. cbn [map fold_left Nat.add].
  rewrite Nat2Z.inj_succ, Z.pow_succ_r by lia. lia.
Qed.

(** X4: with the simulated card, the ASIC indices of [n] cameras are
    [0 .. n-1] and the listed ASICs the first [n] powers of two. *)
Theorem simulated_asics (NUMBEROFCAMERAS : Z) (self : BaseMACIE) :
  0 <= NUMBEROFCAMERAS ->
  exists self' : BaseMACIE,
    get_available_asics (ApiSimulator.get_available_asics NUMBEROFCAMERAS) self
    = ret self' /\
    list_asics_index self' = py_range NUMBEROFCAMERAS /\
    list_asics self' = map (Z.pow 2) (py_range NUMBEROFCAMERAS).
Proof.
  intros HN. rewrite simulated_mask by exact HN.
  destruct (composite_byte_nonneg (Z.ones NUMBEROFCAMERAS))
    as (l & idx & H1 & H2 & _ & Hpow & Hsorted & Hel).
  { rewrite Z.ones_equiv.
    pose proof (Z.pow_pos_nonneg 2 NUMBEROFCAMERAS ltac:(lia) HN). lia. }
  assert (E : idx = py_range NUMBEROFCAMERAS).
  { apply sorted_same_elements; [exact Hsorted | apply py_range_sorted|].
    intros i. rewrite Hel, elem_of_py_range.
    split.
    - intros [Hi Hb]. apply Z.ones_spec_iff in Hb; lia.
    - intros Hi. split; [lia|]. apply Z.ones_spec_iff; lia. }
  unfold get_available_asics. rewrite H1. cbn [bind ret]. rewrite H2.
  cbn [bind ret]. eexists. split; [reflexivity|].
  cbn [list_asics list_asics_index set_asics].
  split; [exact E|]. rewrite Hpow, E. reflexivity.
Qed.

Lemma simulated_asics_witness :
  exists self' : BaseMACIE,
    get_available_asics (ApiSimulator.get_available_asics 4) acadia
    = ret self' /\
    list_asics_index self' = py_range 4 /\
    list_asics self' = map (Z.pow 2) (py_range 4).
Proof. apply (simulated_asics 4 acadia). lia. Defined.

Lemma mapM_getitem_from (pre suf : list Z) :
  mapM (py_getitem (pre ++ suf))
    (map Z.of_nat (seq (length pre) (length suf)))
  = ret suf.
Proof.
  revert pre. induction suf as [|x suf IH]; intros pre; [reflexivity|].
  cbn [length seq map mapM].
  assert (E : py_getitem (pre ++ x :: suf) (Z.of_nat (length pre)) = ret x).
  { unfold py_getitem. cbv zeta.
    destruct (Z.ltb_spec (Z.of_nat (length pre)) 0); [lia|].
    destruct (Z.ltb_spec (Z.of_nat (length pre)) 0); [lia|].
    rewrite Nat2Z.id, nth_error_app2 by lia. rewrite Nat.sub_diag.
    reflexivity. }
  rewrite E. cbn [bind ret].
  specialize (IH (pre ++ [x])). rewrite <- app_assoc in IH.
  rewrite length_app in IH. cbn [length app] in IH.
  replace (length pre + 1)%nat with (S (length pre)) in IH by lia.
  rewrite IH. reflexivity.
Qed.

(** X5: selecting every listed ASIC gives back the mask. *)
Theorem select_all_asics (all_asics : Z) (self self' : BaseMACIE) :
  0 <= all_asics ->
  get_available_asics all_asics self = ret self' ->
  select_asics self' (py_range (Z.of_nat (length (list_asics self'))))
  = ret all_asics.
Proof.
  intros Hn Hget.
  destruct (composite_byte_nonneg all_asics Hn)
    as (l & idx & H1 & H2 & H3 & _).
  unfold get_available_asics in Hget. rewrite H1 in Hget.
  cbn [bind ret] in Hget. rewrite H2 in Hget. cbn [bind ret] in Hget.
  injection Hget as <-. unfold select_asics.
  cbn [list_asics set_asics]. unfold py_range. rewrite Nat2Z.id.
  pose proof (mapM_getitem_from [] l) as Hall. cbn [app length] in Hall.
  rewrite Hall. cbn [bind ret]. rewrite H3. reflexivity.
Qed.

Lemma select_all_asics_witness :
  select_asics (set_asics [1; 4; 8] [0; 2; 3] acadia) (py_range 3) = ret 13.
Proof.
  apply (select_all_asics 13 acadia (set_asics [1; 4; 8] [0; 2; 3] acadia)).
  - lia.
  - reflexivity.
Defined.

End BitMasks.

Section Deinterleave.
Import Image StatusPy MacieIO Props Extra.

Lemma take_indices_in_range (data : list Z) (indices : list nat) :
  (forall i, i ∈ indices -> i < length data) ->
  take_indices data indices = ret (map (word_at data) indices).
Proof.
  intros Hin. unfold take_indices. apply mapM_ret. intros i Hi.
  destruct (lookup_lt_is_Some_2 data i (Hin i Hi)) as [v Hv].
  unfold word_at. rewrite Hv. reflexivity.
Qed.

Lemma map_word_at_seq (data : list Z) :
  map (word_at data) (seq 0 (length data)) = data.
Proof.
  apply list_eq. intros i. change (@map) with (@fmap list _).
  rewrite list_lookup_fmap. unfold word_at.
  destruct (data !! i) as [v|] eqn:E.
  - rewrite lookup_seq_lt by (eapply lookup_lt_Some, E). cbn. rewrite E.
    reflexivity.
  - rewrite lookup_seq_ge by (apply lookup_ge_None, E). reflexivity.
Qed.

Lemma length_concat_uniform {A : Type} (l : list (list A)) (m : nat) :
  (forall x, x ∈ l -> length x = m) -> length (concat l) = length l * m.
Proof.
  induction l as [|x l IH]; intros Hl; [reflexivity|].
  cbn [concat length]. rewrite length_app, (Hl x) by apply list_elem_of_here.
  rewrite IH; [lia|]. intros y Hy. apply Hl, list_elem_of_further, Hy.
Qed.

Lemma elem_of_concat {A : Type} (x : A) (ls : list (list A)) :
  x ∈ concat ls <-> exists l, x ∈ l /\ l ∈ ls.
Proof.
  induction ls as [|l ls IH]; cbn [concat].
  - split; [intros H; inversion H|intros (l & _ & H); inversion H].
  - rewrite elem_of_app, IH. split.
    + intros [H|(k & H1 & H2)].
      * exists l. split; [exact H|apply list_elem_of_here].
      * exists k. split; [exact H1|apply list_elem_of_further, H2].
    + intros (k & H1 & H2). apply elem_of_cons in H2 as [->|H2].
      * left. exact H1.
      * right. exists k. split; assumption.
Qed.

Lemma closed_arrays_permutation (n r bpf : nat) :
  0 < n -> 0 < r ->
  concat (map (camera_array n r (bpf * r)) (seq 0 n)) ≡ₚ seq 0 (bpf * r * n).
Proof.
  intros Hn Hr. symmetry.
  destruct (closed_form_rule n r bpf Hn Hr) as (_ & _ & _ & Hcov).
  apply submseteq_length_Permutation.
  - apply NoDup_submseteq; [apply NoDup_seq|].
    intros i Hi. apply elem_of_seq in Hi.
    destruct (proj1 (Hcov i) ltac:(lia)) as (c & a & Hca & Hia).
    apply elem_of_concat. exists a. split; [exact Hia|].
    eapply list_elem_of_lookup_2, Hca.
  - rewrite (length_concat_uniform _ (bpf * r)).
    + rewrite length_map, !length_seq. lia.
    + intros x Hx. apply list_elem_of_fmap in Hx as (c & -> & _).
      apply length_camera_array.
Qed.

Lemma concat_Forall2_permutation (l k : list (list nat)) :
  Forall2 Permutation l k -> concat l ≡ₚ concat k.
Proof.
  induction 1 as [|x y l k Hxy _ IH]; [reflexivity|].
  cbn [concat]. rewrite Hxy, IH. reflexivity.
Qed.

(** The arrays that [init] leaves behind are, camera by camera,
    rearrangements of the arrays of the first pass. *)
Lemma initialised_arrays (self self' : BaseMACIE) :
  initialised self self' ->
  Forall2 Permutation (deinterleaving_array self')
    (map (camera_array (length (list_asics self))
            (science_read_block_size self) (frame_size self))
       (seq 0 (length (list_asics self)))) /\
  frame_x self' = frame_x self /\ frame_y self' = frame_y self /\
  (DEINTERLACE (settings self) = false ->
   deinterleaving_array self'
   = map (camera_array (length (list_asics self))
            (science_read_block_size self) (frame_size self))
       (seq 0 (length (list_asics self)))).
Proof.
  intros (Hgeo & Hsize & Hmode & Hinit).
  destruct (init_geometry_first_pass self Hgeo) as [Hfirst _].
  cbv zeta in Hfirst. rewrite Hfirst in Hinit.
  destruct (DEINTERLACE (settings self)) eqn:Hd.
  - destruct Hmode as [Hmode|Hw]; [discriminate Hmode|].
    match type of Hinit with context [mapM ?f ?l] =>
      destruct (mapM_permutation f l) as (arrays' & Hm & HF) end.
    { intros arr Harr. apply channel_pass_permutation; [exact Hw|].
      apply list_elem_of_fmap in Harr as (c & -> & _).
      apply length_camera_array. }
    rewrite Hm in Hinit. cbn [bind ret] in Hinit. injection Hinit as <-.
    cbn [deinterleaving_array set_deinterleaving_array frame_x frame_y
         set_geometry].
    split; [exact HF|]. split; [reflexivity|]. split; [reflexivity|].
    discriminate.
  - cbn [bind ret] in Hinit. injection Hinit as <-.
    cbn [deinterleaving_array set_deinterleaving_array frame_x frame_y
         set_geometry].
    split; [|split; [reflexivity|split; [reflexivity|reflexivity]]].
    apply Forall2_same_length_lookup. split; [reflexivity|].
    intros i x y Hx Hy. rewrite Hx in Hy. injection Hy as <-. reflexivity.
Qed.

Lemma length_chunks {A : Type} (rows cols : nat) (a : list A) :
  length (chunks rows cols a) = rows.
Proof.
  revert a. induction rows as [|rows IH]; intros a; [reflexivity|].
  cbn [chunks length]. rewrite IH. reflexivity.
Qed.

Lemma chunks_row_length {A : Type} (rows cols : nat) (a row : list A) :
  length a = rows * cols -> row ∈ chunks rows cols a -> length row = cols.
Proof.
  revert a. induction rows as [|rows IH]; intros a Ha Hrow.
  - inversion Hrow.
  - cbn [chunks] in Hrow. apply elem_of_cons in Hrow as [->|Hrow].
    + rewrite length_firstn. lia.
    + apply (IH (skipn cols a)); [rewrite length_skipn; lia|exact Hrow].
Qed.

(** What [deinterleave] returns once [init] has built the arrays: for each
    array the words at its indices, cut into rows. *)
Lemma deinterleave_initialised (self self' : BaseMACIE) (data : list Z) :
  initialised self self' ->
  length data = frame_size self * length (list_asics self) ->
  deinterleave self' data
  = ret (map (fun indices =>
                chunks (frame_y self) (frame_x self)
                  (map (word_at data) indices))
           (deinterleaving_array self')).
Proof.
  intros Hini Hlen.
  destruct (initialised_arrays self self' Hini) as (HF & Hx & Hy & _).
  destruct Hini as (Hgeo & Hsize & _ & _).
  destruct Hgeo as (_ & Hn & Hr & Hdiv).
  unfold deinterleave. rewrite Hx, Hy. apply mapM_ret.
  intros indices Hin.
  apply list_elem_of_lookup_1 in Hin as [c Hc].
  destruct (Forall2_lookup_l _ _ _ _ _ HF Hc) as (arr & Harr & Hperm).
  assert (Hcn : c < length (list_asics self)).
  { apply lookup_lt_Some in Harr. rewrite length_map, length_seq in Harr.
    exact Harr. }
  change (@map) with (@fmap list _) in Harr.
  rewrite list_lookup_fmap, lookup_seq_lt in Harr by exact Hcn.
  cbn in Harr. injection Harr as <-.
  rewrite take_indices_in_range.
  - cbn [bind ret]. unfold np_reshape2.
    rewrite length_map, (Permutation_length Hperm), length_camera_array.
    rewrite Hsize, Nat.eqb_refl. reflexivity.
  - intros i Hi. rewrite Hperm in Hi.
    set (r := science_read_block_size self) in *.
    assert (Hf : frame_size self = frame_size self / r * r).
    { pose proof (Nat.div_mod_eq (frame_size self) r). lia. }
    rewrite Hf in Hi. apply camera_array_elem in Hi; [|exact Hr|exact Hcn].
    rewrite Hlen. rewrite Hf at 1. apply Hi.
Qed.

(** X6: with channel deinterlacing off, [deinterleave] after [init] gives
    one image per camera, and pixel [p] of camera [c], counted along the
    rows, is the word at [((p / r) * n + c) * r + p mod r] of the buffer:
    the cameras take turns, one read block each. *)
Theorem deinterleave_takes_blocks (self self' : BaseMACIE) (data : list Z) :
  initialised self self' ->
  DEINTERLACE (settings self) = false ->
  length data = frame_size self * length (list_asics self) ->
  exists images : list (list (list Z)),
    deinterleave self' data = ret images /\
    length images = length (list_asics self) /\
    forall (c : nat) (image : list (list Z)) (p : nat),
      images !! c = Some image -> p < frame_size self ->
      concat image !! p
      = data !! (((p / science_read_block_size self)
                    * length (list_asics self) + c)
                   * science_read_block_size self
                 + p mod science_read_block_size self).
Proof.
  intros Hini Hd Hlen.
  pose proof (deinterleave_initialised self self' data Hini Hlen) as Hde.
  destruct (initialised_arrays self self' Hini) as (_ & _ & _ & Harrays).
  rewrite (Harrays Hd) in Hde. destruct Hini as (Hgeo & Hsize & _ & _).
  destruct Hgeo as (_ & Hn & Hr & Hdiv).
  eexists. split; [exact Hde|]. split.
  - rewrite !length_map, length_seq. reflexivity.
  - intros c image p Himg Hp.
    assert (Hc : c < length (list_asics self)).
    { apply lookup_lt_Some in Himg. rewrite !length_map, length_seq in Himg.
      exact Himg. }
    change (@map) with (@fmap list _) in Himg.
    rewrite !list_lookup_fmap, lookup_seq_lt in Himg by exact Hc.
    cbn in Himg. injection Himg as <-.
    rewrite concat_chunks
      by (rewrite length_fmap, length_camera_array; exact Hsize).
    rewrite list_lookup_fmap, camera_array_lookup by exact Hp. cbn.
    set (i := _ + _ : nat).
    assert (Hi : i < length data).
    { assert (Hin : i ∈ camera_array (length (list_asics self))
                          (science_read_block_size self)
                          (frame_size self / science_read_block_size self
                           * science_read_block_size self) c).
      { eapply list_elem_of_lookup_2. apply camera_array_lookup.
        pose proof (Nat.div_mod_eq (frame_size self)
                      (science_read_block_size self)). lia. }
      apply camera_array_elem in Hin; [|exact Hr|exact Hc].
      pose proof (Nat.div_mod_eq (frame_size self)
                    (science_read_block_size self)).
      rewrite Hlen. replace (frame_size self) with
        (frame_size self / science_read_block_size self
         * science_read_block_size self) at 1 by lia. apply Hin. }
    unfold word_at. destruct (lookup_lt_is_Some_2 data i Hi) as [v Hv].
    rewrite Hv. reflexivity.
Qed.

Lemma deinterleave_takes_blocks_witness :
  exists images : list (list (list Z)),
    deinterleave (set_deinterleaving_array [[0; 1; 4; 5]; [2; 3; 6; 7]]
                    (set_geometry 2 8 (macie 2 2 2 2 false 1 0)))
      [10; 11; 20; 21; 12; 13; 22; 23]%Z = ret images /\
    length images = 2.
Proof.
  destruct (deinterleave_takes_blocks (macie 2 2 2 2 false 1 0)
              (set_deinterleaving_array [[0; 1; 4; 5]; [2; 3; 6; 7]]
                 (set_geometry 2 8 (macie 2 2 2 2 false 1 0)))
              [10; 11; 20; 21; 12; 13; 22; 23]%Z)
    as (images & Hde & Hlen & _).
  - split; [repeat split; cbn; lia|].
    split; [reflexivity|]. split; [left; reflexivity|reflexivity].
  - reflexivity.
  - reflexivity.
  - exists images. split; [exact Hde|exact Hlen].
Defined.

(** X7: [deinterleave] after [init] loses no word and invents none, with
    channel deinterlacing off or on over whole channels: every image has
    [frame_y] rows of [frame_x] words, and the images together hold
    exactly the words of the buffer, each as often as the buffer does. *)
Theorem deinterleave_keeps_every_word (self self' : BaseMACIE)
    (data : list Z) :
  initialised self self' ->
  length data = frame_size self * length (list_asics self) ->
  exists images : list (list (list Z)),
    deinterleave self' data = ret images /\
    length images = length (list_asics self) /\
    (forall image, image ∈ images ->
       length image = frame_y self /\
       forall row, row ∈ image -> length row = frame_x self) /\
    concat (map (@concat Z) images) ≡ₚ data.
Proof.
  intros Hini Hlen.
  pose proof (deinterleave_initialised self self' data Hini Hlen) as Hde.
  destruct (initialised_arrays self self' Hini) as (HF & _ & _ & _).
  destruct Hini as (Hgeo & Hsize & _ & _).
  destruct Hgeo as (_ & Hn & Hr & Hdiv).
  assert (Hlens : forall indices, indices ∈ deinterleaving_array self' ->
            length indices = frame_y self * frame_x self).
  { intros indices Hin. apply list_elem_of_lookup_1 in Hin as [c Hc].
    destruct (Forall2_lookup_l _ _ _ _ _ HF Hc) as (arr & Harr & Hperm).
    rewrite (Permutation_length Hperm).
    apply list_elem_of_lookup_2, list_elem_of_fmap in Harr as (k & -> & _).
    rewrite length_camera_array. exact Hsize. }
  eexists. split; [exact Hde|]. split; [|split].
  - rewrite length_map, (Forall2_length _ _ _ HF), length_map, length_seq.
    reflexivity.
  - intros image Himg. apply list_elem_of_fmap in Himg as (indices & -> & Hin).
    split; [apply length_chunks|]. intros row Hrow.
    eapply chunks_row_length; [|exact Hrow].
    rewrite length_map. apply Hlens, Hin.
  - rewrite map_map.
    rewrite (map_ext_in _ (map (word_at data))).
    2:{ intros indices Hin. apply concat_chunks. rewrite length_map.
        apply Hlens, list_elem_of_In, Hin. }
    rewrite <- concat_map.
    rewrite (concat_Forall2_permutation _ _ HF).
    set (r := science_read_block_size self) in *.
    assert (Hf : frame_size self = frame_size self / r * r).
    { pose proof (Nat.div_mod_eq (frame_size self) r). lia. }
    rewrite Hf, closed_arrays_permutation by assumption.
    rewrite <- Hf, <- Hlen. rewrite map_word_at_seq. reflexivity.
Qed.

Lemma deinterleave_keeps_every_word_witness :
  exists images : list (list (list Z)),
    deinterleave (set_deinterleaving_array [[0; 2; 3; 1]; [4; 6; 7; 5]]
                    (set_geometry 1 8 (macie 2 4 4 1 true 2 0)))
      [10; 11; 12; 13; 20; 21; 22; 23]%Z = ret images /\
    concat (map (@concat Z) images) ≡ₚ [10; 11; 12; 13; 20; 21; 22; 23]%Z.
Proof.
  destruct (deinterleave_keeps_every_word (macie 2 4 4 1 true 2 0)
              (set_deinterleaving_array [[0; 2; 3; 1]; [4; 6; 7; 5]]
                 (set_geometry 1 8 (macie 2 4 4 1 true 2 0)))
              [10; 11; 12; 13; 20; 21; 22; 23]%Z)
    as (images & Hde & _ & _ & Hperm).
  - split; [repeat split; cbn; lia|].
    split; [reflexivity|].
    split; [right; repeat split; cbn; lia|reflexivity].
  - reflexivity.
  - exists images. split; [exact Hde|exact Hperm].
Defined.

Lemma lookup_concat_uniform {A : Type} (l : list (list A)) (m i : nat) :
  (forall x, x ∈ l -> length x = m) -> 0 < m ->
  concat l !! i = l !! (i / m) ≫= (fun x => x !! (i mod m)).
Proof.
  intros Hl Hm. revert i. induction l as [|x l IH]; intros i.
  - cbn. rewrite !lookup_nil. reflexivity.
  - cbn [concat].
    assert (Hx : length x = m) by apply Hl, list_elem_of_here.
    destruct (Nat.lt_ge_cases i m) as [Hi|Hi].
    + rewrite lookup_app_l by lia.
      rewrite Nat.div_small, Nat.mod_small by exact Hi. reflexivity.
    + rewrite lookup_app_r by lia. rewrite Hx, IH.
      2:{ intros y Hy. apply Hl, list_elem_of_further, Hy. }
      assert (Hq : i / m = S ((i - m) / m)).
      { replace i with ((i - m) + 1 * m) at 1 by lia.
        rewrite Nat.div_add by lia. lia. }
      assert (Hr : i mod m = (i - m) mod m).
      { replace i with ((i - m) + 1 * m) at 1 by lia.
        apply Nat.Div0.mod_add. }
      rewrite Hq, Hr. reflexivity.
Qed.

(** Word [i] of a simulated frame is the number of the camera whose turn
    it is. *)
Lemma simulated_word (FRAMEX FRAMEY n i : nat) :
  0 < FRAMEX -> i < FRAMEY * (n * FRAMEX) ->
  ApiSimulator.read_gige_science_frame FRAMEX FRAMEY (Z.of_nat n) !! i
  = Some (wrap {| kind := KUInt; bits := 16 |}
            (Z.of_nat (camera_of n FRAMEX i))).
Proof.
  intros Hx Hi. unfold ApiSimulator.read_gige_science_frame. cbv zeta.
  assert (Hn : 0 < n) by (destruct n; [lia|lia]).
  set (row := concat (map _ (py_range _))).
  assert (Hrow : length row = n * FRAMEX).
  { unfold row. rewrite (length_concat_uniform _ FRAMEX).
    - unfold py_range. rewrite !length_map, length_seq, Nat2Z.id.
      reflexivity.
    - intros x Hin. apply list_elem_of_fmap in Hin as (c & -> & _).
      apply length_replicate. }
  rewrite (lookup_concat_uniform _ (n * FRAMEX)).
  2:{ intros x Hin. apply list_elem_of_fmap in Hin as (j & -> & _).
      exact Hrow. }
  2:{ lia. }
  change (@map) with (@fmap list _).
  rewrite list_lookup_fmap, lookup_seq_lt.
  2:{ apply Nat.Div0.div_lt_upper_bound. lia. }
  cbn [fmap option_fmap option_map mbind option_bind].
  unfold row. rewrite (lookup_concat_uniform _ FRAMEX).
  2:{ intros x Hin. apply list_elem_of_fmap in Hin as (c & -> & _).
      apply length_replicate. }
  2:{ exact Hx. }
  assert (Hcam : i mod (n * FRAMEX) / FRAMEX = camera_of n FRAMEX i).
  { unfold camera_of. rewrite (Nat.mul_comm n FRAMEX).
    symmetry. apply Nat.div_unique with (r := i mod FRAMEX).
    - apply Nat.mod_upper_bound. lia.
    - rewrite Nat.Div0.mod_mul_r. lia. }
  rewrite Hcam. unfold py_range. rewrite Nat2Z.id.
  rewrite list_lookup_fmap, list_lookup_fmap, lookup_seq_lt.
  2:{ unfold camera_of. apply Nat.mod_upper_bound. lia. }
  cbn [fmap option_fmap option_map mbind option_bind].
  rewrite lookup_replicate_2; [reflexivity|].
  apply Nat.mod_upper_bound. lia.
Qed.

(** X8: a frame of the simulator, split by [deinterleave], gives every
    camera an image that holds its own number at every pixel, for up to
    65536 cameras read one row at a time. *)
Theorem simulated_frame_by_camera (self self' : BaseMACIE) :
  initialised self self' ->
  science_read_block_size self = frame_x self ->
  (Z.of_nat (length (list_asics self)) <= 65536)%Z ->
  exists images : list (list (list Z)),
    deinterleave self'
      (ApiSimulator.read_gige_science_frame (frame_x self) (frame_y self)
         (Z.of_nat (length (list_asics self)))) = ret images /\
    length images = length (list_asics self) /\
    forall (c : nat) (image : list (list Z)) (row : list Z) (v : Z),
      images !! c = Some image -> row ∈ image -> v ∈ row -> v = Z.of_nat c.
Proof.
  intros Hini Hblock Hmax.
  set (n := length (list_asics self)) in *.
  set (data := ApiSimulator.read_gige_science_frame _ _ _).
  pose proof Hini as (Hgeo & Hsize & _ & _).
  destruct Hgeo as (_ & Hn & Hr & Hdiv). fold n in Hn.
  rewrite Hblock in Hr.
  assert (Hlen : length data = frame_size self * n).
  { unfold data, ApiSimulator.read_gige_science_frame. cbv zeta.
    rewrite (length_concat_uniform _ (n * frame_x self)).
    - rewrite length_map, length_seq, Hsize. lia.
    - intros x Hin. apply list_elem_of_fmap in Hin as (j & -> & _).
      rewrite (length_concat_uniform _ (frame_x self)).
      + unfold py_range. rewrite !length_map, length_seq, Nat2Z.id.
        reflexivity.
      + intros x Hin. apply list_elem_of_fmap in Hin as (c & -> & _).
        apply length_replicate. }
  pose proof (deinterleave_initialised self self' data Hini Hlen) as Hde.
  destruct (initialised_arrays self self' Hini) as (HF & _ & _ & _).
  fold n in HF. rewrite Hblock in HF.
  eexists. split; [exact Hde|]. split.
  { rewrite length_map, (Forall2_length _ _ _ HF), length_map, length_seq.
    reflexivity. }
  intros c image row v Himg Hrow Hv.
  change (@map) with (@fmap list _) in Himg.
  rewrite list_lookup_fmap in Himg.
  destruct (deinterleaving_array self' !! c) as [indices|] eqn:Hc;
    [|discriminate Himg].
  cbn in Himg. injection Himg as <-.
  destruct (Forall2_lookup_l _ _ _ _ _ HF Hc) as (arr & Harr & Hperm).
  assert (Hcn : c < n).
  { apply lookup_lt_Some in Harr. rewrite length_map, length_seq in Harr.
    exact Harr. }
  change (@map) with (@fmap list _) in Harr.
  rewrite list_lookup_fmap, lookup_seq_lt in Harr by exact Hcn.
  cbn in Harr. injection Harr as <-.
  assert (Hin : v ∈ word_at data <$> indices).
  { rewrite <- (concat_chunks (frame_y self) (frame_x self)).
    - apply elem_of_concat. exists row. split; assumption.
    - rewrite length_fmap, (Permutation_length Hperm), length_camera_array.
      exact Hsize. }
  apply list_elem_of_fmap in Hin as (i & -> & Hi).
  rewrite Hperm in Hi.
  assert (Hf : frame_size self = frame_y self * frame_x self) by exact Hsize.
  rewrite Hf in Hi. apply camera_array_elem in Hi; [|exact Hr|exact Hcn].
  destruct Hi as [Hi Hcam].
  unfold word_at, data. rewrite simulated_word by (try exact Hr; lia).
  cbn [default]. rewrite Hcam. unfold wrap. cbn [kind bits].
  apply Z.mod_small. lia.
Qed.

Lemma simulated_frame_by_camera_witness :
  exists images : list (list (list Z)),
    deinterleave (set_deinterleaving_array [[0; 2; 3; 1]; [4; 6; 7; 5]]
                    (set_geometry 1 8 (macie 2 4 4 1 true 2 0)))
      (ApiSimulator.read_gige_science_frame 4 1 2) = ret images /\
    length images = 2.
Proof.
  destruct (simulated_frame_by_camera (macie 2 4 4 1 true 2 0)
              (set_deinterleaving_array [[0; 2; 3; 1]; [4; 6; 7; 5]]
                 (set_geometry 1 8 (macie 2 4 4 1 true 2 0))))
    as (images & Hde & Hlen & _).
  - split; [repeat split; cbn; lia|].
    split; [reflexivity|].
    split; [right; repeat split; cbn; lia|reflexivity].
  - reflexivity.
  - cbn. lia.
  - exists images. split; [exact Hde|exact Hlen].
Defined.

End Deinterleave.

Section Settings.
Import Image StatusPy MacieIO Interface Files Commands Props Extra.

Lemma ascii_upper_idemp (c : Ascii.ascii) :
  ascii_upper (ascii_upper c) = ascii_upper c.
Proof. destruct c as [[] [] [] [] [] [] [] []]; reflexivity. Qed.

Lemma upper_idemp (s : string) : upper (upper s) = upper s.
Proof.
  induction s as [|c s IH]; [reflexivity|].
  cbn [upper]. rewrite ascii_upper_idemp, IH. reflexivity.
Qed.

Lemma dict_get_set (k k' : string) (v : json) (d : pydict) :
  dict_get k (dict_set k' v d)
  = if decide (k' = k) then Some v else dict_get k d.
Proof.
  induction d as [|[k0 v0] d IH]; cbn [dict_set dict_get].
  - destruct (decide (k' = k)); reflexivity.
  - destruct (decide (k0 = k')) as [->|Hne]; cbn [dict_get].
    + destruct (decide (k' = k)); reflexivity.
    + rewrite IH. destruct (decide (k0 = k)) as [->|]; [|reflexivity].
      destruct (decide (k' = k)); [congruence|reflexivity].
Qed.

Lemma dict_get_None (k : string) (d : pydict) :
  dict_get k d = None <-> k ∉ d.*1.
Proof.
  induction d as [|[k0 v0] d IH]; cbn [dict_get fmap list_fmap fst].
  - split; [intros _ H; inversion H|reflexivity].
  - rewrite not_elem_of_cons. destruct (decide (k0 = k)) as [->|Hne].
    + split; [discriminate|intros [H _]; congruence].
    + rewrite IH. split; [intros H; split; [congruence|exact H]|intros [_ H]; exact H].
Qed.

Lemma dict_get_Some_elem (k : string) (v : json) (d : pydict) :
  dict_get k d = Some v -> (k, v) ∈ d.
Proof.
  induction d as [|[k0 v0] d IH]; cbn [dict_get]; [discriminate|].
  destruct (decide (k0 = k)) as [->|Hne].
  - intros [= ->]. apply list_elem_of_here.
  - intros H. apply list_elem_of_further, IH, H.
Qed.

Lemma keys_dict_set (k : string) (v : json) (d : pydict) :
  (dict_set k v d).*1 = if decide (k ∈ d.*1) then d.*1 else d.*1 ++ [k].
Proof.
  induction d as [|[k0 v0] d IH]; cbn [dict_set fmap list_fmap fst].
  - destruct (decide (k ∈ [])) as [H|_]; [inversion H|reflexivity].
  - destruct (decide (k0 = k)) as [->|Hne]; cbn [fmap list_fmap fst].
    + rewrite decide_True by apply list_elem_of_here. reflexivity.
    + change (list_fmap _ _ fst ?l) with (l.*1). rewrite IH.
      destruct (decide (k ∈ d.*1)) as [Hin|Hnin].
      * rewrite decide_True by (apply list_elem_of_further, Hin). reflexivity.
      * rewrite decide_False; [reflexivity|].
        rewrite not_elem_of_cons. split; [congruence|exact Hnin].
Qed.

Lemma elem_of_keys_dict_set (k k' : string) (v : json) (d : pydict) :
  k ∈ (dict_set k' v d).*1 <-> k = k' \/ k ∈ d.*1.
Proof.
  rewrite keys_dict_set. destruct (decide (k' ∈ d.*1)) as [Hin|Hnin].
  - split; [intros H; right; exact H|intros [->|H]; assumption].
  - rewrite elem_of_app, list_elem_of_singleton. tauto.
Qed.

Lemma well_formed_dict_set (k : string) (v : json) (d : pydict) :
  well_formed d -> well_formed (dict_set k v d).
Proof.
  unfold well_formed. intros Hd. rewrite keys_dict_set.
  destruct (decide (k ∈ d.*1)) as [Hin|Hnin]; [exact Hd|].
  apply NoDup_app. split; [exact Hd|]. split.
  - intros x Hx Hk. apply list_elem_of_singleton in Hk as ->. contradiction.
  - apply NoDup_singleton.
Qed.

Lemma dict_set_fresh (k : string) (v : json) (d : pydict) :
  k ∉ d.*1 -> dict_set k v d = d ++ [(k, v)].
Proof.
  induction d as [|[k0 v0] d IH]; cbn [dict_set fmap list_fmap fst app];
    intros Hk; [reflexivity|].
  apply not_elem_of_cons in Hk as [Hne Hk].
  rewrite decide_False by congruence. rewrite IH by exact Hk. reflexivity.
Qed.

(** The first loop of [load_settings]: afterwards a key in capitals holds
    the value of its last spelling in the file. *)
Lemma capitals_loop_get (k : string) (items sd : pydict) :
  dict_get k
    (fold_left (fun sd kv => dict_set (upper (fst kv)) (snd kv) sd) items sd)
  = match file_value k items with
    | Some v => Some v
    | None => dict_get k sd
    end.
Proof.
  revert sd. induction items as [|[k' v'] items IH]; intros sd;
    [reflexivity|].
  cbn [fold_left fst snd]. rewrite IH. unfold file_value.
  cbn [last_spelling]. destruct (last_spelling k items) as [kv|];
    [reflexivity|].
  rewrite dict_get_set. cbn [fmap option_fmap option_map].
  destruct (decide (upper k' = k)); reflexivity.
Qed.

Lemma file_value_None (k : string) (f : pydict) :
  upper k = k -> file_value k f = None -> dict_get k f = None.
Proof.
  intros Hk. unfold file_value.
  induction f as [|[k' v'] f IH]; [reflexivity|].
  cbn [last_spelling dict_get].
  destruct (last_spelling k f) as [kv|]; [discriminate|].
  destruct (decide (upper k' = k)) as [Hu|Hu]; [discriminate|].
  intros _. rewrite decide_False by congruence. apply IH. reflexivity.
Qed.

(** The second loop of [load_settings]. *)
Lemma defaults_loop_other (g : string -> json -> json) (k : string)
    (items d : pydict) :
  k ∉ items.*1 ->
  dict_get k
    (fold_left (fun d kv => dict_set (fst kv) (g (fst kv) (snd kv)) d) items d)
  = dict_get k d.
Proof.
  revert d. induction items as [|[k' v'] items IH]; intros d Hk;
    [reflexivity|].
  cbn [fmap list_fmap fst] in Hk. apply not_elem_of_cons in Hk as [Hne Hk].
  cbn [fold_left fst snd]. rewrite IH by exact Hk.
  rewrite dict_get_set. rewrite decide_False by congruence. reflexivity.
Qed.

Lemma defaults_loop_get (g : string -> json -> json) (k : string) (v0 : json)
    (items d : pydict) :
  well_formed items -> dict_get k items = Some v0 ->
  dict_get k
    (fold_left (fun d kv => dict_set (fst kv) (g (fst kv) (snd kv)) d) items d)
  = Some (g k v0).
Proof.
  unfold well_formed. revert d.
  induction items as [|[k' v'] items IH]; intros d Hnd Hget;
    [discriminate Hget|].
  cbn [fmap list_fmap fst] in Hnd. apply NoDup_cons in Hnd as [Hk' Hnd].
  cbn [dict_get] in Hget. cbn [fold_left fst snd].
  destruct (decide (k' = k)) as [->|Hne].
  - injection Hget as ->. rewrite defaults_loop_other by exact Hk'.
    rewrite dict_get_set, decide_True by reflexivity. reflexivity.
  - apply IH; assumption.
Qed.

Lemma defaults_loop_keys (g : string -> json -> json) (k : string)
    (items d : pydict) :
  k ∈ (fold_left (fun d kv => dict_set (fst kv) (g (fst kv) (snd kv)) d)
         items d).*1
  <-> k ∈ d.*1 \/ k ∈ items.*1.
Proof.
  revert d. induction items as [|[k' v'] items IH]; intros d.
  - cbn. split; [intros H; left; exact H|intros [H|H]; [exact H|inversion H]].
  - cbn [fold_left fst snd fmap list_fmap]. rewrite IH.
    rewrite elem_of_keys_dict_set, elem_of_cons. tauto.
Qed.

Lemma defaults_loop_well_formed (g : string -> json -> json)
    (items d : pydict) :
  well_formed d ->
  well_formed
    (fold_left (fun d kv => dict_set (fst kv) (g (fst kv) (snd kv)) d)
       items d).
Proof.
  revert d. induction items as [|[k' v'] items IH]; intros d Hd; [exact Hd|].
  cbn [fold_left]. apply IH, well_formed_dict_set, Hd.
Qed.

Lemma defaults_loop_rebuild (items pre : pydict) :
  well_formed (pre ++ items) ->
  fold_left (fun d kv => dict_set (fst kv) (snd kv) d) items pre
  = pre ++ items.
Proof.
  unfold well_formed. revert pre.
  induction items as [|[k v] items IH]; intros pre Hnd.
  - rewrite app_nil_r. reflexivity.
  - cbn [fold_left fst snd]. rewrite dict_set_fresh.
    + rewrite IH; rewrite <- app_assoc; [reflexivity|exact Hnd].
    + rewrite fmap_app in Hnd. apply NoDup_app in Hnd as (_ & Hd & _).
      intros Hin. apply (Hd k Hin). cbn. apply list_elem_of_here.
Qed.

(** X9: without a settings file, [load_settings] returns the defaults and
    writes them to the file. *)
Theorem load_settings_missing_file (DEFAULT_SETTINGS : pydict) :
  well_formed DEFAULT_SETTINGS ->
  load_settings DEFAULT_SETTINGS None
  = (DEFAULT_SETTINGS, Some DEFAULT_SETTINGS).
Proof.
  intros Hwf. unfold load_settings. cbn [fold_left dict_get default].
  f_equal. apply (defaults_loop_rebuild DEFAULT_SETTINGS []). exact Hwf.
Qed.

Lemma load_settings_missing_file_witness :
  load_settings [("MODE"%string, JStr "CDS"); ("ERRORNAK"%string, JBool true)]
    None
  = ([("MODE"%string, JStr "CDS"); ("ERRORNAK"%string, JBool true)],
     Some [("MODE"%string, JStr "CDS"); ("ERRORNAK"%string, JBool true)]).
Proof.
  apply (load_settings_missing_file
           [("MODE"%string, JStr "CDS"); ("ERRORNAK"%string, JBool true)]).
  unfold well_formed. apply (bool_decide_unpack _). vm_compute. exact I.
Defined.

Lemma load_settings_get (DEFAULT_SETTINGS f : pydict) (k : string)
    (v0 : json) :
  well_formed DEFAULT_SETTINGS -> dict_get k DEFAULT_SETTINGS = Some v0 ->
  upper k = k ->
  dict_get k (fst (load_settings DEFAULT_SETTINGS (Some f)))
  = Some (default v0 (file_value k f)).
Proof.
  intros Hwf Hget Hk. unfold load_settings. cbn [fst].
  rewrite (defaults_loop_get
             (fun k v => default v (dict_get k _)) k v0) by assumption.
  rewrite capitals_loop_get.
  destruct (file_value k f) as [v|] eqn:Hv; [reflexivity|].
  rewrite (file_value_None k f Hk Hv). reflexivity.
Qed.

Lemma load_settings_get_other (DEFAULT_SETTINGS f : pydict) (k : string) :
  k ∉ DEFAULT_SETTINGS.*1 ->
  dict_get k (fst (load_settings DEFAULT_SETTINGS (Some f))) = dict_get k f.
Proof.
  intros Hk. unfold load_settings. cbn [fst].
  apply (defaults_loop_other (fun k v => default v (dict_get k _))).
  exact Hk.
Qed.

(** X10: [load_settings] gives a default key, written in capitals, the
    value of its last spelling in the file, whatever the case of that
    spelling, and the default value if the file does not spell it; a key
    that is no default key keeps what the file says.  The file stays as it
    is. *)
Theorem load_settings_last_spelling (DEFAULT_SETTINGS f : pydict)
    (k : string) :
  well_formed DEFAULT_SETTINGS ->
  snd (load_settings DEFAULT_SETTINGS (Some f)) = Some f /\
  (forall v0 : json,
     dict_get k DEFAULT_SETTINGS = Some v0 -> upper k = k ->
     dict_get k (fst (load_settings DEFAULT_SETTINGS (Some f)))
     = Some (default v0 (file_value k f))) /\
  (k ∉ DEFAULT_SETTINGS.*1 ->
   dict_get k (fst (load_settings DEFAULT_SETTINGS (Some f)))
   = dict_get k f).
Proof.
  intros Hwf. split; [reflexivity|]. split.
  - intros v0 Hget Hk. apply load_settings_get; assumption.
  - apply load_settings_get_other.
Qed.

Lemma load_settings_last_spelling_witness :
  dict_get "MODE"
    (fst (load_settings [("MODE"%string, JStr "CDS")]
            (Some [("MODE"%string, JStr "SSR"); ("mode"%string, JStr "MAX")])))
  = Some (JStr "MAX").
Proof.
  destruct (load_settings_last_spelling [("MODE"%string, JStr "CDS")]
              [("MODE"%string, JStr "SSR"); ("mode"%string, JStr "MAX")]
              "MODE") as (_ & Hdefault & _).
  - unfold well_formed. apply (bool_decide_unpack _). vm_compute. exact I.
  - apply (Hdefault (JStr "CDS")); reflexivity.
Defined.

Lemma last_key_elem (K k : string) (keys : list string) :
  last_key K keys = Some k -> k ∈ keys /\ upper k = K.
Proof.
  induction keys as [|k0 keys IH]; cbn [last_key]; [discriminate|].
  destruct (last_key K keys) as [k1|].
  - intros [= ->]. destruct (IH eq_refl) as [Hin Hu].
    split; [apply list_elem_of_further, Hin|exact Hu].
  - destruct (decide (upper k0 = K)) as [Hu|]; [|discriminate].
    intros [= ->]. split; [apply list_elem_of_here|exact Hu].
Qed.

Lemma last_key_None (K : string) (keys : list string) :
  last_key K keys = None <-> forall k, k ∈ keys -> upper k <> K.
Proof.
  induction keys as [|k0 keys IH]; cbn [last_key].
  - split; [intros _ k H; inversion H|reflexivity].
  - destruct (last_key K keys) as [k1|] eqn:E.
    + split; [discriminate|]. intros H.
      destruct (last_key_elem K k1 keys E) as [Hin Hu].
      exfalso. apply (H k1); [apply list_elem_of_further, Hin|exact Hu].
    + destruct (decide (upper k0 = K)) as [Hu|Hu].
      * split; [discriminate|]. intros H. exfalso.
        apply (H k0); [apply list_elem_of_here|exact Hu].
      * split; [|reflexivity]. intros _ k Hk.
        apply elem_of_cons in Hk as [->|Hk]; [exact Hu|].
        apply (proj1 IH eq_refl), Hk.
Qed.

Lemma last_key_app_other (K k : string) (keys : list string) :
  upper k <> K -> last_key K (keys ++ [k]) = last_key K keys.
Proof.
  intros Hk. induction keys as [|k0 keys IH]; cbn [app last_key].
  - rewrite decide_False by exact Hk. reflexivity.
  - rewrite IH. reflexivity.
Qed.

Lemma last_key_single (K : string) (keys : list string) :
  K ∈ keys -> upper K = K ->
  (forall k', k' ∈ keys -> upper k' = K -> k' = K) ->
  last_key K keys = Some K.
Proof.
  intros Hin HK Hone. destruct (last_key K keys) as [k|] eqn:E.
  - destruct (last_key_elem K k keys E) as [Hk Hu].
    rewrite (Hone k Hk Hu). reflexivity.
  - exfalso. apply (proj1 (last_key_None K keys) E K Hin HK).
Qed.

(** In a dictionary the last spelling is found by its key. *)
Lemma last_spelling_by_key (K : string) (d : pydict) :
  well_formed d ->
  last_spelling K d
  = match last_key K d.*1 with
    | Some k => match dict_get k d with
                | Some v => Some (k, v)
                | None => None
                end
    | None => None
    end.
Proof.
  unfold well_formed. induction d as [|[k0 v0] d IH]; intros Hnd;
    [reflexivity|].
  cbn [fmap list_fmap fst] in Hnd. apply NoDup_cons in Hnd as [Hk0 Hnd].
  cbn [last_spelling fmap list_fmap fst last_key dict_get].
  change (list_fmap _ _ fst d) with (d.*1). rewrite (IH Hnd).
  destruct (last_key K d.*1) as [k1|] eqn:E.
  - destruct (last_key_elem K k1 _ E) as [Hin _].
    rewrite (decide_False (P := k0 = k1)) by (intros ->; contradiction).
    destruct (dict_get k1 d) as [v|] eqn:Hv; [reflexivity|].
    apply dict_get_None in Hv. contradiction.
  - destruct (decide (upper k0 = K)); [|reflexivity].
    rewrite (decide_True (P := k0 = k0)) by reflexivity. reflexivity.
Qed.

Lemma defaults_loop_last_key (g : string -> json -> json) (K : string)
    (items d : pydict) :
  (forall k, k ∈ items.*1 -> upper k = K -> k ∈ d.*1) ->
  last_key K
    (fold_left (fun d kv => dict_set (fst kv) (g (fst kv) (snd kv)) d)
       items d).*1
  = last_key K d.*1.
Proof.
  revert d. induction items as [|[k0 v0] items IH]; intros d Hin;
    [reflexivity|].
  cbn [fold_left fst snd]. rewrite IH.
  - rewrite keys_dict_set. destruct (decide (k0 ∈ d.*1)) as [|Hk0];
      [reflexivity|].
    apply last_key_app_other. intros Hu. apply Hk0, Hin; [|exact Hu].
    cbn. apply list_elem_of_here.
  - intros k Hk Hu. apply elem_of_keys_dict_set. right. apply Hin; [|exact Hu].
    cbn. apply list_elem_of_further, Hk.
Qed.

Lemma load_settings_keys (DEFAULT_SETTINGS : pydict) (file : option pydict)
    (k : string) :
  k ∈ (fst (load_settings DEFAULT_SETTINGS file)).*1
  <-> k ∈ (default [] file).*1 \/ k ∈ DEFAULT_SETTINGS.*1.
Proof.
  unfold load_settings.
  destruct file as [f|]; cbn [fst from_option id];
    apply (defaults_loop_keys (fun k v => default v (dict_get k _))).
Qed.

Lemma load_settings_well_formed (DEFAULT_SETTINGS : pydict)
    (file : option pydict) :
  well_formed (default [] file) ->
  well_formed (fst (load_settings DEFAULT_SETTINGS file)).
Proof.
  unfold load_settings.
  destruct file as [f|]; cbn [fst from_option id];
    apply (defaults_loop_well_formed (fun k v => default v (dict_get k _))).
Qed.

(** What is read back under a default key after [update_setting]: the
    value of the last spelling of the key in the file that is left. *)
Lemma read_back_default_key (DEFAULT_SETTINGS : pydict) (key : string)
    (value v0 : json) (file : option pydict) :
  well_formed DEFAULT_SETTINGS ->
  dict_get (upper key) DEFAULT_SETTINGS = Some v0 ->
  read_back DEFAULT_SETTINGS key value file
  = Some (default v0
            (file_value (upper key)
               (dict_set (upper key) value
                  (fst (load_settings DEFAULT_SETTINGS file))))).
Proof.
  intros Hwf Hget. unfold read_back, update_setting.
  destruct (load_settings DEFAULT_SETTINGS file) as [settings file'] eqn:E.
  cbn [fst]. apply load_settings_get; [assumption|assumption|].
  apply upper_idemp.
Qed.

Lemma read_back_kept (DEFAULT_SETTINGS : pydict) (key : string)
    (value : json) (file : option pydict) :
  well_formed DEFAULT_SETTINGS -> capital_keys DEFAULT_SETTINGS ->
  well_formed (default [] file) -> spelled_once key (default [] file) ->
  read_back DEFAULT_SETTINGS key value file = Some value.
Proof.
  intros Hwf Hcap Hf Hone.
  destruct (dict_get (upper key) DEFAULT_SETTINGS) as [v0|] eqn:Hget.
  - rewrite (read_back_default_key _ _ _ v0) by assumption.
    unfold file_value. rewrite last_spelling_by_key
      by apply well_formed_dict_set, load_settings_well_formed, Hf.
    rewrite (last_key_single (upper key)).
    + rewrite dict_get_set, decide_True by reflexivity. reflexivity.
    + apply elem_of_keys_dict_set. left. reflexivity.
    + apply upper_idemp.
    + intros k' Hk' Hu. apply elem_of_keys_dict_set in Hk' as [->|Hk'];
        [reflexivity|].
      apply load_settings_keys in Hk' as [Hk'|Hk'].
      * apply Hone; assumption.
      * rewrite <- Hu. symmetry. apply Hcap, Hk'.
  - apply dict_get_None in Hget. unfold read_back, update_setting.
    destruct (load_settings DEFAULT_SETTINGS file) as [settings file'].
    rewrite load_settings_get_other by exact Hget.
    rewrite dict_get_set, decide_True by reflexivity. reflexivity.
Qed.

(** X11: [update_setting] followed by [load_settings] gives the new value
    back, provided the file spells the key in capitals only. *)
Theorem update_setting_read_back (DEFAULT_SETTINGS : pydict) (key : string)
    (value : json) (file : option pydict) :
  well_formed DEFAULT_SETTINGS -> capital_keys DEFAULT_SETTINGS ->
  well_formed (default [] file) -> spelled_once key (default [] file) ->
  read_back DEFAULT_SETTINGS key value file = Some value.
Proof. apply read_back_kept. Qed.

Lemma update_setting_read_back_witness :
  read_back [("MODE"%string, JStr "CDS")] "mode" (JStr "SSR")
    (Some [("MODE"%string, JStr "MAX")])
  = Some (JStr "SSR").
Proof.
  apply (update_setting_read_back [("MODE"%string, JStr "CDS")] "mode"
           (JStr "SSR") (Some [("MODE"%string, JStr "MAX")])).
  - unfold well_formed. apply (bool_decide_unpack _). vm_compute. exact I.
  - intros k Hk. cbn in Hk. apply list_elem_of_singleton in Hk as ->.
    reflexivity.
  - unfold well_formed. apply (bool_decide_unpack _). vm_compute. exact I.
  - intros k Hk _. cbn in Hk. apply list_elem_of_singleton in Hk as ->.
    reflexivity.
Defined.

(** X12: a later spelling of a default key in another case shadows
    [update_setting]: what [load_settings] reads back is the value under
    that spelling, not the value just written. *)
Theorem update_setting_shadowed (DEFAULT_SETTINGS f : pydict)
    (key k' : string) (value v' : json) :
  well_formed DEFAULT_SETTINGS -> capital_keys DEFAULT_SETTINGS ->
  well_formed f ->
  upper key ∈ DEFAULT_SETTINGS.*1 -> upper key ∈ f.*1 ->
  last_spelling (upper key) f = Some (k', v') -> k' <> upper key ->
  read_back DEFAULT_SETTINGS key value (Some f) = Some v'.
Proof.
  intros Hwf Hcap Hf HinD Hinf Hlast Hne.
  rewrite (last_spelling_by_key _ _ Hf) in Hlast.
  destruct (last_key (upper key) f.*1) as [k1|] eqn:Hkey; [|discriminate].
  destruct (dict_get k1 f) as [v1|] eqn:Hv1; [|discriminate].
  injection Hlast as -> ->.
  destruct (last_key_elem _ _ _ Hkey) as [Hk' Hu].
  assert (HnD : k' ∉ DEFAULT_SETTINGS.*1).
  { intros Hin. apply Hne. rewrite <- Hu. symmetry. apply Hcap, Hin. }
  destruct (dict_get (upper key) DEFAULT_SETTINGS) as [v0|] eqn:Hget.
  2:{ apply dict_get_None in Hget. contradiction. }
  rewrite (read_back_default_key _ _ _ v0) by assumption.
  unfold file_value. rewrite last_spelling_by_key
    by apply well_formed_dict_set, (load_settings_well_formed _ (Some f)), Hf.
  assert (Hkeys : (dict_set (upper key) value
                     (fst (load_settings DEFAULT_SETTINGS (Some f)))).*1
                  = (fst (load_settings DEFAULT_SETTINGS (Some f))).*1).
  { rewrite keys_dict_set, decide_True; [reflexivity|].
    apply load_settings_keys. left. exact Hinf. }
  rewrite Hkeys. unfold load_settings at 1. cbn [fst].
  rewrite (defaults_loop_last_key (fun k v => default v (dict_get k _))).
  - rewrite Hkey, dict_get_set, decide_False by congruence.
    rewrite load_settings_get_other by exact HnD. rewrite Hv1. reflexivity.
  - intros k Hk Hku. rewrite <- (Hcap k Hk), Hku. exact Hinf.
Qed.

Lemma update_setting_shadowed_witness :
  read_back [("MODE"%string, JStr "CDS")] "mode" (JStr "SSR")
    (Some [("MODE"%string, JStr "MAX"); ("Mode"%string, JStr "MIN")])
  = Some (JStr "MIN").
Proof.
  apply (update_setting_shadowed [("MODE"%string, JStr "CDS")]
           [("MODE"%string, JStr "MAX"); ("Mode"%string, JStr "MIN")]
           "mode" "Mode" (JStr "SSR") (JStr "MIN")).
  - unfold well_formed. apply (bool_decide_unpack _). vm_compute. exact I.
  - intros k Hk. cbn in Hk. apply list_elem_of_singleton in Hk as ->.
    reflexivity.
  - unfold well_formed. apply (bool_decide_unpack _). vm_compute. exact I.
  - apply (bool_decide_unpack _). vm_compute. exact I.
  - apply (bool_decide_unpack _). vm_compute. exact I.
  - reflexivity.
  - discriminate.
Defined.

(** X13: after a MODE command that is accepted, [load_settings] reads the
    new mode, provided the settings file spells MODE in capitals only; a
    MODE command that is refused leaves the file as it is. *)
Theorem mode_command_read_back (DEFAULT_SETTINGS : pydict)
    (arguments : list string) (file : option pydict) :
  well_formed DEFAULT_SETTINGS -> capital_keys DEFAULT_SETTINGS ->
  well_formed (default [] file) -> spelled_once "MODE" (default [] file) ->
  match mode_parse_arguments arguments with
  | inr mode =>
      fst (mode_execute_command DEFAULT_SETTINGS arguments file) = ret tt /\
      dict_get "MODE"
        (fst (load_settings DEFAULT_SETTINGS
                (snd (mode_execute_command DEFAULT_SETTINGS arguments file))))
      = Some (JStr mode)
  | inl e =>
      mode_execute_command DEFAULT_SETTINGS arguments file = (inl e, file)
  end.
Proof.
  intros Hwf Hcap Hf Hone. unfold mode_execute_command.
  destruct (mode_parse_arguments arguments) as [e|mode]; [reflexivity|].
  split; [reflexivity|]. cbn [snd].
  apply (read_back_kept DEFAULT_SETTINGS "MODE" (JStr mode) file);
    assumption.
Qed.

Lemma mode_command_read_back_witness :
  dict_get "MODE"
    (fst (load_settings [("MODE"%string, JStr "CDS")]
            (snd (mode_execute_command [("MODE"%string, JStr "CDS")]
                    ["fowler4"%string] None))))
  = Some (JStr "FOWLER4").
Proof.
  pose proof (mode_command_read_back [("MODE"%string, JStr "CDS")]
                ["fowler4"%string] None) as H.
  apply H.
  - unfold well_formed. apply (bool_decide_unpack _). vm_compute. exact I.
  - intros k Hk. cbn in Hk. apply list_elem_of_singleton in Hk as ->.
    reflexivity.
  - unfold well_formed. apply (bool_decide_unpack _). vm_compute. exact I.
  - intros k Hk _. cbn in Hk. inversion Hk.
Defined.

End Settings.

Section Registry.
Import Image StatusPy MacieIO Interface Files Commands Props Extra.

Ltac table_keys :=
  let f := fresh "f" in
  let Hf := fresh "Hf" in
  split;
  [ intros [f Hf];
    repeat (apply lookup_insert_Some in Hf as [[<- _] | [_ Hf]];
            [apply (bool_decide_unpack _); vm_compute; exact I|]);
    rewrite lookup_empty in Hf; discriminate Hf
  | intros Hf; unfold registered_modes in Hf;
    repeat (apply elem_of_cons in Hf as [-> | Hf];
            [eexists; reflexivity|]);
    inversion Hf ].

Lemma frame_reduce_methods_keys (mode : string) :
  is_Some (FRAME_REDUCE_METHODS !! mode) <-> mode ∈ registered_modes.
Proof. unfold FRAME_REDUCE_METHODS. table_keys. Qed.

Lemma intermediate_methods_keys (mode : string) :
  is_Some (INTERMEDIATE_FRAME_REDUCE_METHODS !! mode)
  <-> mode ∈ registered_modes.
Proof. unfold INTERMEDIATE_FRAME_REDUCE_METHODS. table_keys. Qed.

Lemma frames_per_exposure_time_keys (mode : string) :
  is_Some (FRAMES_PER_EXPOSURE_TIME !! mode) <-> mode ∈ registered_modes.
Proof. unfold FRAMES_PER_EXPOSURE_TIME. table_keys. Qed.

Lemma exposure_time_per_frames_keys (mode : string) :
  is_Some (EXPOSURE_TIME_PER_FRAMES !! mode) <-> mode ∈ registered_modes.
Proof. unfold EXPOSURE_TIME_PER_FRAMES. table_keys. Qed.

(** X14: the four tables of the registry have the same modes. *)
Theorem registry_tables_agree (mode : string) :
  (is_Some (FRAME_REDUCE_METHODS !! mode)
   <-> is_Some (INTERMEDIATE_FRAME_REDUCE_METHODS !! mode)) /\
  (is_Some (FRAME_REDUCE_METHODS !! mode)
   <-> is_Some (FRAMES_PER_EXPOSURE_TIME !! mode)) /\
  (is_Some (FRAME_REDUCE_METHODS !! mode)
   <-> is_Some (EXPOSURE_TIME_PER_FRAMES !! mode)).
Proof.
  rewrite frame_reduce_methods_keys, intermediate_methods_keys,
    frames_per_exposure_time_keys, exposure_time_per_frames_keys.
  tauto.
Qed.

Lemma mode_parse_arguments_registered (arguments : list string)
    (mode : string) :
  mode_parse_arguments arguments = ret mode -> mode ∈ registered_modes.
Proof.
  unfold mode_parse_arguments. destruct arguments as [|argument rest].
  - intros [= <-]. apply (bool_decide_unpack _). vm_compute. exact I.
  - cbv zeta. destruct (decide _) as [Hin|]; [|discriminate].
    intros [= <-]. apply frame_reduce_methods_keys, Hin.
Qed.

(** X15: a mode that the MODE command accepts is one that [start] can
    work with: for a positive frame time the number of frames of an
    exposure and the exposure time of a number of frames are defined, and
    both reductions have a method for it. *)
Theorem accepted_mode_is_usable (arguments : list string) (mode : string)
    (FRAMETIMESEC exposure_time : Q) (frames : Z) :
  mode_parse_arguments arguments = ret mode ->
  (0 < FRAMETIMESEC)%Q ->
  (exists n : Z, calc_num_frames mode FRAMETIMESEC exposure_time = ret n) /\
  (exists t : Q,
     calc_effective_exposure_time mode FRAMETIMESEC frames = ret t) /\
  is_Some (FRAME_REDUCE_METHODS !! mode) /\
  is_Some (INTERMEDIATE_FRAME_REDUCE_METHODS !! mode).
Proof.
  intros Hmode Hft.
  pose proof (mode_parse_arguments_registered _ _ Hmode) as Hreg.
  destruct (proj2 (frames_per_exposure_time_keys mode) Hreg) as [f Hf].
  destruct (proj2 (exposure_time_per_frames_keys mode) Hreg) as [g Hg].
  unfold calc_num_frames, calc_effective_exposure_time. rewrite Hf, Hg.
  split; [apply (registered_frames_total mode); assumption|].
  split; [eexists; reflexivity|].
  split; [apply frame_reduce_methods_keys, Hreg|].
  apply intermediate_methods_keys, Hreg.
Qed.

Lemma accepted_mode_is_usable_witness :
  exists n : Z, calc_num_frames "FOWLER4" 1 10 = ret n.
Proof.
  destruct (accepted_mode_is_usable ["fowler4"%string] "FOWLER4" 1 10 0)
    as [Hn _]; [reflexivity|reflexivity|exact Hn].
Defined.

(** X16: the MODE command accepts MEDIAN and MODE, and the frame count of
    an exposure is defined for them, but both reductions then raise
    [AttributeError] on every ramp. *)
Theorem median_and_mode_never_reduce (argument : string) (images : ndarray) :
  upper argument = "MEDIAN"%string \/ upper argument = "MODE"%string ->
  mode_parse_arguments [argument] = ret (upper argument) /\
  reduce_image_from_array (upper argument) images
  = raise (OtherException "AttributeError") /\
  intermediate_reduce_image_from_array (upper argument) images
  = raise (OtherException "AttributeError").
Proof.
  unfold mode_parse_arguments. cbv zeta.
  intros [-> | ->]; (split; [reflexivity|split; reflexivity]).
Qed.

Lemma median_and_mode_never_reduce_witness :
  reduce_image_from_array "MEDIAN"
    {| dt := {| kind := KUInt; bits := 16 |}; frames := [[1; 2]; [3; 4]]%Z |}
  = raise (OtherException "AttributeError").
Proof.
  apply (median_and_mode_never_reduce "median"
           {| dt := {| kind := KUInt; bits := 16 |};
              frames := [[1; 2]; [3; 4]]%Z |}).
  left. reflexivity.
Defined.

End Registry.

Section Dispatch.
Import Image StatusPy MacieIO Interface Files Commands Props Extra.

(** X17: a STATUS command, in whatever case it is written, is answered
    without touching the status object: the dictionary in memory, the file
    and the dated copies stay as they are. *)
Theorem status_poll_leaves_status (COMMANDS : gmap string command)
    (template : status_doc) (ERRORNAK : bool)
    (start_time complete_time traceback response word : string)
    (arguments : list string) (status : Status) :
  upper word = "STATUS"%string ->
  COMMANDS !! "STATUS"%string = Some (status_execute_command response) ->
  execute_command COMMANDS template ERRORNAK start_time complete_time
    traceback (word :: arguments) status
  = (ret response, status).
Proof.
  intros Hword Hc. unfold execute_command.
  change (py_getitem (word :: arguments) 0) with (@inr exn string word).
  cbv beta iota zeta. rewrite Hword.
  change (bool_decide ("STATUS"%string ∈ skip_updates)) with true.
  cbn [negb ret]. cbv beta iota.
  destruct (COMMANDS !! "STATUS"%string) as [tcs_command|];
    [|discriminate Hc].
  injection Hc as ->. reflexivity.
Qed.

Lemma status_poll_leaves_status_witness :
  execute_command {["STATUS"%string := status_execute_command "ACK"]}
    empty_doc true "t0" "t1" "tb" ["status"%string] polled_status
  = (ret "ACK"%string, polled_status).
Proof.
  apply (status_poll_leaves_status
           {["STATUS"%string := status_execute_command "ACK"]}
           empty_doc true "t0" "t1" "tb" "ACK" "status" [] polled_status);
    reflexivity.
Defined.





End Dispatch.

Section FrameCounts.
Import Image StatusPy MacieIO Interface Files Commands Props Extra.
Local Open Scope Q_scope.

Lemma py_round_between (x : Q) :
  (Qfloor x <= py_round x <= Qfloor x + 1)%Z.
Proof.
  unfold py_round. cbv zeta.
  destruct (x - inject_Z (Qfloor x) ?= 1 # 2); [|lia|lia].
  destruct (Z.even (Qfloor x)); lia.
Qed.

Lemma py_round_comp (x y : Q) : x == y -> py_round x = py_round y.
Proof.
  intros Hxy. unfold py_round. cbv zeta.
  rewrite (Qfloor_comp x y Hxy).
  assert (Hc : (x - inject_Z (Qfloor y) ?= 1 # 2)
               = (y - inject_Z (Qfloor y) ?= 1 # 2)).
  { apply Qcompare_comp; [rewrite Hxy; reflexivity|reflexivity]. }
  rewrite Hc. reflexivity.
Qed.

Lemma py_round_monotone (x y : Q) : x <= y -> (py_round x <= py_round y)%Z.
Proof.
  intros Hxy. pose proof (Qfloor_resp_le x y Hxy) as Hf.
  pose proof (py_round_between x) as Hx.
  pose proof (py_round_between y) as Hy.
  destruct (Z.eq_dec (Qfloor x) (Qfloor y)) as [E|NE]; [|lia].
  unfold py_round in *. cbv zeta in *. rewrite E in *.
  set (f := Qfloor y) in *.
  destruct (x - inject_Z f ?= 1 # 2) eqn:Cx;
    destruct (y - inject_Z f ?= 1 # 2) eqn:Cy;
    try (destruct (Z.even f)); try lia; exfalso;
    first [apply Qeq_alt in Cx | apply Qlt_alt in Cx | apply Qgt_alt in Cx];
    first [apply Qeq_alt in Cy | apply Qlt_alt in Cy | apply Qgt_alt in Cy];
    lra.
Qed.

Lemma py_round_inject_Z (n : Z) : py_round (inject_Z n) = n.
Proof.
  unfold py_round. cbv zeta. rewrite Qfloor_Z.
  assert (Hc : (inject_Z n - inject_Z n ?= 1 # 2) = Lt).
  { rewrite <- Qlt_alt. lra. }
  rewrite Hc. reflexivity.
Qed.

Lemma py_round_nonneg (x : Q) : 0 <= x -> (0 <= py_round x)%Z.
Proof.
  intros Hx. change 0%Z with (py_round (inject_Z 0)).
  apply py_round_monotone. exact Hx.
Qed.

Lemma ratio_monotone (t1 t2 ft : Q) : 0 < ft -> t1 <= t2 -> t1 / ft <= t2 / ft.
Proof.
  intros Hft Ht. unfold Qdiv. apply Qmult_le_compat_r; [exact Ht|].
  apply Qlt_le_weak, Qinv_lt_0_compat, Hft.
Qed.

Lemma fowler_calc_frames_monotone (k : Z) (ft t1 t2 : Q) (n1 n2 : Z) :
  0 < ft -> t1 <= t2 ->
  fowler_calc_frames t1 ft k = ret n1 -> fowler_calc_frames t2 ft k = ret n2 ->
  (n1 <= n2)%Z.
Proof.
  intros Hft Ht. unfold fowler_calc_frames. cbv zeta.
  rewrite !ssr_calc_frames_pos by exact Hft. cbn [bind ret].
  destruct (Qlt_le_dec (t1 - ft * inject_Z k) 0) as [H1|H1];
    destruct (Qlt_le_dec (t2 - ft * inject_Z k) 0) as [H2|H2];
    intros [= <-] [= <-]; [lia| |lra|].
  - assert (0 <= py_round ((t2 - ft * inject_Z k) / ft))%Z; [|lia].
    apply py_round_nonneg. apply Qle_shift_div_l; [exact Hft|lra].
  - assert (py_round ((t1 - ft * inject_Z k) / ft)
            <= py_round ((t2 - ft * inject_Z k) / ft))%Z; [|lia].
    apply py_round_monotone, ratio_monotone; [exact Hft|lra].
Qed.

(** X20: in every mode, a longer exposure never takes fewer frames. *)
Theorem calc_num_frames_monotone (MODE : string) (FRAMETIMESEC t1 t2 : Q)
    (n1 n2 : Z) :
  0 < FRAMETIMESEC -> t1 <= t2 ->
  calc_num_frames MODE FRAMETIMESEC t1 = ret n1 ->
  calc_num_frames MODE FRAMETIMESEC t2 = ret n2 ->
  (n1 <= n2)%Z.
Proof.
  intros Hft Ht. unfold calc_num_frames.
  destruct (FRAMES_PER_EXPOSURE_TIME !! MODE) as [f|] eqn:Hf; [|discriminate].
  pose proof (py_round_monotone _ _ (ratio_monotone t1 t2 _ Hft Ht)) as Hr.
  unfold FRAMES_PER_EXPOSURE_TIME in Hf.
  repeat (apply lookup_insert_Some in Hf as [[_ <-] | [_ Hf]];
          [ first [ apply fowler_calc_frames_monotone; assumption
                  | unfold cds_calc_frames, mean_calc_frames;
                    rewrite !ssr_calc_frames_pos by exact Hft;
                    cbn [bind ret]; intros [= <-] [= <-]; lia ] |]).
  rewrite lookup_empty in Hf. discriminate Hf.
Qed.

Lemma calc_num_frames_monotone_witness : (4 <= 5)%Z.
Proof.
  apply (calc_num_frames_monotone "CDS" 1 3 4 4 5); reflexivity || lra.
Defined.

Lemma ratio_of_multiple (m : Z) (ft : Q) :
  0 < ft -> py_round (inject_Z m * ft / ft) = m.
Proof.
  intros Hft. rewrite (py_round_comp _ (inject_Z m)); [apply py_round_inject_Z|].
  field. lra.
Qed.

(** A Fowler exposure time computed with [k'] and turned into frames with
    [k]. *)
Lemma fowler_there_and_back (k k' n : Z) (ft : Q) :
  0 < ft ->
  fowler_calc_frames (fowler_calc_exposure n ft k') ft k
  = ret (Z.max (2 * k) (n - k' + k)).
Proof.
  intros Hft. unfold fowler_calc_frames. cbv zeta.
  set (m := (n - k' - k)%Z).
  assert (Hrem : fowler_calc_exposure n ft k' - ft * inject_Z k
                 == inject_Z m * ft).
  { unfold fowler_calc_exposure, m, Z.sub. cbv zeta.
    rewrite !inject_Z_plus, !inject_Z_opp, !inject_Z_mult.
    change (inject_Z 2) with 2. ring. }
  destruct (Qlt_le_dec _ 0) as [Hlt|Hge].
  - rewrite Hrem in Hlt. destruct (Z_lt_le_dec m 0) as [Hm|Hm].
    + f_equal. unfold m in Hm. lia.
    + exfalso. rewrite Zle_Qle in Hm. change (inject_Z 0) with 0 in Hm. nra.
  - rewrite ssr_calc_frames_pos by exact Hft. cbn [bind ret].
    rewrite (py_round_comp _ (inject_Z m * ft / ft))
      by (rewrite Hrem; reflexivity).
    rewrite ratio_of_multiple by exact Hft.
    rewrite Hrem in Hge. destruct (Z_lt_le_dec m 0) as [Hm|Hm].
    + exfalso. rewrite Zlt_Qlt in Hm. change (inject_Z 0) with 0 in Hm. nra.
    + f_equal. unfold m in *. lia.
Qed.

Lemma mean_there_and_back (n : Z) (ft : Q) :
  0 < ft ->
  exists r : Z,
    mean_calc_frames (mean_calc_exposure n ft) ft = ret r /\
    (Z.even n = true -> r = n) /\
    (Z.even n = false -> Z.abs (r - n) = 1%Z).
Proof.
  intros Hft. unfold mean_calc_frames, mean_calc_exposure, ssr_calc_exposure.
  rewrite ssr_calc_frames_pos by exact Hft. cbn [bind ret].
  eexists. split; [reflexivity|].
  rewrite (py_round_comp _ (inject_Z n / 2)) by (field; lra).
  destruct (Z.even n) eqn:He.
  - split; [intros _|discriminate].
    apply Z.even_spec in He as [m ->].
    rewrite (py_round_comp _ (inject_Z m)).
    + rewrite py_round_inject_Z. lia.
    + rewrite inject_Z_mult. change (inject_Z 2) with 2. field.
  - split; [discriminate|intros _].
    assert (Ho : Z.odd n = true) by (rewrite <- Z.negb_even, He; reflexivity).
    apply Z.odd_spec in Ho as [m ->].
    assert (Hx : inject_Z (2 * m + 1) / 2 == inject_Z m + (1 # 2)).
    { rewrite inject_Z_plus, inject_Z_mult.
      change (inject_Z 2) with 2. change (inject_Z 1) with 1. field. }
    rewrite (py_round_comp _ _ Hx). unfold py_round. cbv zeta.
    assert (Hfl : Qfloor (inject_Z m + (1 # 2)) = m).
    { pose proof (Qfloor_le (inject_Z m + (1 # 2))) as Hlo.
      pose proof (Qlt_floor (inject_Z m + (1 # 2))) as Hhi.
      set (f := Qfloor (inject_Z m + (1 # 2))) in *.
      rewrite inject_Z_plus in Hhi. change (inject_Z 1) with 1 in Hhi.
      assert (f < m + 1)%Z.
      { rewrite Zlt_Qlt, inject_Z_plus. change (inject_Z 1) with 1. lra. }
      assert (m < f + 1)%Z.
      { rewrite Zlt_Qlt, inject_Z_plus. change (inject_Z 1) with 1. lra. }
      lia. }
    rewrite Hfl.
    assert (Hc : (inject_Z m + (1 # 2) - inject_Z m ?= 1 # 2) = Eq).
    { apply Qeq_alt. ring. }
    rewrite Hc. destruct (Z.even m); lia.
Qed.

(** X21: from a number of frames to its exposure time and back.  CDS, SSR,
    MIN and MAX return the number of frames they started from; MEAN, MEDIAN
    and MODE do so for an even number and miss an odd number by one;
    FOWLER2 and FOWLER4 do so from their minimum of 4 and 8 frames on;
    FOWLER8 and FOWLER16, whose exposure time is computed with 4, come
    back with 4 and 12 frames more. *)
Theorem frames_come_back (MODE : string) (FRAMETIMESEC : Q) (n : Z) :
  0 < FRAMETIMESEC ->
  (MODE ∈ ["CDS"; "SSR"; "MIN"; "MAX"]%string ->
   frames_there_and_back MODE FRAMETIMESEC n = ret n) /\
  (MODE ∈ ["MEAN"; "MEDIAN"; "MODE"]%string ->
   exists r : Z,
     frames_there_and_back MODE FRAMETIMESEC n = ret r /\
     (Z.even n = true -> r = n) /\
     (Z.even n = false -> Z.abs (r - n) = 1%Z)) /\
  frames_there_and_back "FOWLER2" FRAMETIMESEC n = ret (Z.max 4 n) /\
  frames_there_and_back "FOWLER4" FRAMETIMESEC n = ret (Z.max 8 n) /\
  frames_there_and_back "FOWLER8" FRAMETIMESEC n = ret (Z.max 16 (n + 4)) /\
  frames_there_and_back "FOWLER16" FRAMETIMESEC n = ret (Z.max 32 (n + 12)).
Proof.
  intros Hft. split; [|split].
  - intros Hm. unfold frames_there_and_back, calc_effective_exposure_time,
      calc_num_frames.
    repeat (apply elem_of_cons in Hm as [-> | Hm]);
      [| | | |inversion Hm];
      match goal with
      | |- context [EXPOSURE_TIME_PER_FRAMES !! ?M] =>
          change (EXPOSURE_TIME_PER_FRAMES !! M) with (Some ssr_calc_exposure)
          || change (EXPOSURE_TIME_PER_FRAMES !! M)
               with (Some cds_calc_exposure)
      end; cbn [bind ret];
      match goal with
      | |- context [FRAMES_PER_EXPOSURE_TIME !! ?M] =>
          change (FRAMES_PER_EXPOSURE_TIME !! M) with (Some ssr_calc_frames)
          || change (FRAMES_PER_EXPOSURE_TIME !! M)
               with (Some cds_calc_frames)
      end;
      unfold cds_calc_frames, cds_calc_exposure, ssr_calc_exposure;
      rewrite ssr_calc_frames_pos by exact Hft; cbn [bind ret];
      rewrite ratio_of_multiple by exact Hft; f_equal; lia.
  - intros Hm. unfold frames_there_and_back, calc_effective_exposure_time,
      calc_num_frames.
    repeat (apply elem_of_cons in Hm as [-> | Hm]);
      [| | |inversion Hm];
      match goal with
      | |- context [EXPOSURE_TIME_PER_FRAMES !! ?M] =>
          change (EXPOSURE_TIME_PER_FRAMES !! M)
            with (Some mean_calc_exposure)
      end; cbn [bind ret];
      match goal with
      | |- context [FRAMES_PER_EXPOSURE_TIME !! ?M] =>
          change (FRAMES_PER_EXPOSURE_TIME !! M) with (Some mean_calc_frames)
      end;
      apply mean_there_and_back, Hft.
  - unfold frames_there_and_back, calc_effective_exposure_time,
      calc_num_frames.
    change (EXPOSURE_TIME_PER_FRAMES !! "FOWLER2"%string)
      with (Some fowler2_calc_exposure).
    change (EXPOSURE_TIME_PER_FRAMES !! "FOWLER4"%string)
      with (Some fowler4_calc_exposure).
    change (EXPOSURE_TIME_PER_FRAMES !! "FOWLER8"%string)
      with (Some fowler8_calc_exposure).
    change (EXPOSURE_TIME_PER_FRAMES !! "FOWLER16"%string)
      with (Some fowler16_calc_exposure).
    change (FRAMES_PER_EXPOSURE_TIME !! "FOWLER2"%string)
      with (Some fowler2_calc_frames).
    change (FRAMES_PER_EXPOSURE_TIME !! "FOWLER4"%string)
      with (Some fowler4_calc_frames).
    change (FRAMES_PER_EXPOSURE_TIME !! "FOWLER8"%string)
      with (Some fowler8_calc_frames).
    change (FRAMES_PER_EXPOSURE_TIME !! "FOWLER16"%string)
      with (Some fowler16_calc_frames).
    cbn [bind ret].
    unfold fowler2_calc_frames, fowler4_calc_frames, fowler8_calc_frames,
      fowler16_calc_frames, fowler2_calc_exposure, fowler4_calc_exposure,
      fowler8_calc_exposure, fowler16_calc_exposure.
    rewrite !fowler_there_and_back by exact Hft.
    repeat split; f_equal; lia.
Qed.

Lemma frames_come_back_witness :
  frames_there_and_back "FOWLER8" 1 20 = ret 24%Z.
Proof.
  destruct (frames_come_back "FOWLER8" 1 20) as (_ & _ & _ & _ & H & _);
    [reflexivity|exact H].
Defined.

End FrameCounts.

Section StatusLists.
Import Image StatusPy MacieIO Interface Files Commands Props Extra.

Lemma camera_key_inj (c1 c2 : Z) : camera_key c1 = camera_key c2 -> c1 = c2.
Proof.
  unfold camera_key. cbn [String.append]. intros H.
  injection H as H. apply (inj (@pretty Z _)). exact H.
Qed.

(** X22: frames recorded one after the other end up in the list of their
    own camera, in the order of the calls, behind what the list held
    before; the lists of the other cameras and the status file are not
    touched. *)
Theorem exposure_frames_by_camera (events : list (string * Z)) (s : Status)
    (m : gmap string (list string)) :
  ExposureFrames (status s) = Some m ->
  (forall ev, ev ∈ events -> is_Some (m !! camera_key (snd ev))) ->
  exists (s' : Status) (m' : gmap string (list string)),
    record_frames events s = (ret tt, s') /\
    json_file s' = json_file s /\
    ExposureFrames (status s') = Some m' /\
    forall (c : Z) (l : list string),
      m !! camera_key c = Some l ->
      m' !! camera_key c = Some (l ++ files_of c events).
Proof.
  revert s m. induction events as [|[frame_file camera] events IH];
    intros s m Hm Hin.
  - exists s, m. split; [reflexivity|]. split; [reflexivity|].
    split; [exact Hm|]. intros c l Hl. unfold files_of. cbn.
    rewrite app_nil_r. exact Hl.
  - destruct (Hin (frame_file, camera)) as [l0 Hl0];
      [apply list_elem_of_here|]. cbn [snd] in Hl0.
    cbn [record_frames]. unfold update_exposure_frames, append_at.
    rewrite Hm, Hl0. cbn [ret].
    match goal with |- context [record_frames events ?s1] =>
      destruct (IH s1 (<[camera_key camera := l0 ++ [frame_file]]> m))
        as (s' & m' & Hrun & Hfile & Hm' & Hlists) end.
    + reflexivity.
    + intros ev Hev. destruct (decide (camera_key (snd ev) = camera_key camera))
        as [E|NE].
      * rewrite E, lookup_insert_eq. eexists. reflexivity.
      * rewrite lookup_insert_ne by congruence.
        apply Hin, list_elem_of_further, Hev.
    + exists s', m'. split; [exact Hrun|]. split; [exact Hfile|].
      split; [exact Hm'|]. intros c l Hl. unfold files_of.
      rewrite filter_cons. cbn [snd].
      destruct (decide (camera = c)) as [->|NE].
      * rewrite Hl in Hl0. injection Hl0 as <-.
        rewrite (Hlists c (l ++ [frame_file])) by apply lookup_insert_eq.
        cbn [map fst]. rewrite <- app_assoc. reflexivity.
      * rewrite (Hlists c l); [reflexivity|].
        rewrite lookup_insert_ne; [exact Hl|].
        intros E. apply NE, camera_key_inj, E.
Qed.

Lemma exposure_frames_by_camera_witness :
  exists (s' : Status) (m' : gmap string (list string)),
    record_frames [("a0"%string, 0%Z); ("b0"%string, 1%Z); ("a1"%string, 0%Z)]
      (set_status
         {| CurrentCommand := None; CommandStartTime := None;
            CommandComplete := None; CommandCompleteTime := None;
            ExposureTimeRemaining := None; TotalFrameCount := None;
            ExposureFrames :=
              Some (<["CAMERA0"%string := []]> (<["CAMERA1"%string := []]> ∅));
            IntermediateReducedFrames := None; FinalReducedFrame := None |}
         polled_status)
    = (ret tt, s') /\
    ExposureFrames (status s') = Some m' /\
    m' !! "CAMERA0"%string = Some ["a0"; "a1"]%string.
Proof.
  destruct (exposure_frames_by_camera
              [("a0"%string, 0%Z); ("b0"%string, 1%Z); ("a1"%string, 0%Z)]
              (set_status
                 {| CurrentCommand := None; CommandStartTime := None;
                    CommandComplete := None; CommandCompleteTime := None;
                    ExposureTimeRemaining := None; TotalFrameCount := None;
                    ExposureFrames :=
                      Some (<["CAMERA0"%string := []]>
                              (<["CAMERA1"%string := []]> ∅));
                    IntermediateReducedFrames := None;
                    FinalReducedFrame := None |}
                 polled_status)
              (<["CAMERA0"%string := []]> (<["CAMERA1"%string := []]> ∅)))
    as (s' & m' & Hrun & _ & Hm' & Hlists).
  - reflexivity.
  - intros ev Hev.
    repeat (apply elem_of_cons in Hev as [-> | Hev];
            [eexists; reflexivity|]).
    inversion Hev.
  - exists s', m'. split; [exact Hrun|]. split; [exact Hm'|].
    apply (Hlists 0%Z []). reflexivity.
Defined.

End StatusLists.

Section KeptFrames.
Import Image StatusPy MacieIO Interface Files Commands Props Extra.

Lemma kept_app (l1 l2 : list bool) : kept (l1 ++ l2) = kept l1 + kept l2.
Proof. unfold kept. rewrite filter_app, length_app. reflexivity. Qed.

Lemma kept_replicate_true (n : nat) : kept (replicate n true) = 0.
Proof.
  unfold kept. induction n as [|n IH]; [reflexivity|].
  cbn [replicate]. rewrite filter_cons_False by discriminate. exact IH.
Qed.

Lemma kept_period (s : nat) : kept (period s) = 1.
Proof.
  unfold period. change (false :: replicate s true)
    with ([false] ++ replicate s true).
  rewrite kept_app, kept_replicate_true. reflexivity.
Qed.

Lemma kept_take_period (s n : nat) :
  0 < n -> kept (take n (period s)) = 1.
Proof.
  intros Hn. destruct n as [|n]; [lia|]. unfold period. cbn [take].
  change (false :: take n (replicate s true))
    with ([false] ++ take n (replicate s true)).
  rewrite kept_app, take_replicate, kept_replicate_true. reflexivity.
Qed.

Lemma kept_take_periodic (s j n : nat) :
  n <= j * (s + 1) ->
  kept (take n (concat (replicate j (period s)))) = (n + s) / (s + 1).
Proof.
  revert n. induction j as [|j IH]; intros n Hn.
  - assert (n = 0) as -> by lia. cbn. symmetry. apply Nat.div_small. lia.
  - cbn [replicate concat]. rewrite take_app, length_period.
    destruct (Nat.le_gt_cases n (s + 1)) as [Hle|Hgt].
    + replace (n - (s + 1)) with 0 by lia. rewrite take_0, app_nil_r.
      destruct n as [|n].
      * cbn. symmetry. apply Nat.div_small. lia.
      * rewrite kept_take_period by lia.
        apply (Nat.div_unique _ _ 1 n); lia.
    + rewrite take_ge by (rewrite length_period; lia).
      rewrite kept_app, kept_period, IH by lia.
      replace (n + s) with ((n - (s + 1) + s) + 1 * (s + 1)) by lia.
      rewrite Nat.div_add by lia. lia.
Qed.

(** X23: of the [science_frames] entries of the schedule, the kept ones
    are one in every [skip_frames + 1], rounded up: so many frames of an
    exposure are saved. *)
Theorem skip_schedule_kept (science_frames skip_frames : Z) :
  (0 <= science_frames)%Z ->
  kept (skip_schedule science_frames skip_frames)
  = (Z.to_nat science_frames + Z.to_nat skip_frames)
    / (Z.to_nat skip_frames + 1).
Proof.
  intros HN. unfold skip_schedule.
  destruct (skip_loop_spec skip_frames (Z.to_nat science_frames) []
              science_frames) as (j & Hj & Hle); [lia|].
  rewrite Hj. cbn [app].
  rewrite py_slice_prefix by (rewrite length_periodic; lia).
  apply kept_take_periodic. lia.
Qed.

Lemma skip_schedule_kept_witness : kept (skip_schedule 10 2) = 4.
Proof. apply (skip_schedule_kept 10 2). lia. Defined.

End KeptFrames.

Section WholeExposure.
Import Image StatusPy MacieIO Interface Files Commands Props Extra.
Local Open Scope Q_scope.

Lemma calc_num_frames_nonneg (MODE : string) (ft t : Q) (n : Z) :
  0 < ft -> 0 <= t -> calc_num_frames MODE ft t = ret n -> (0 <= n)%Z.
Proof.
  intros Hft Ht. unfold calc_num_frames.
  destruct (FRAMES_PER_EXPOSURE_TIME !! MODE) as [f|] eqn:Hf; [|discriminate].
  assert (Hr : (0 <= py_round (t / ft))%Z).
  { apply py_round_nonneg. apply Qle_shift_div_l; [exact Hft|lra]. }
  assert (Hfow : forall k : Z, (0 <= k)%Z ->
            fowler_calc_frames t ft k = ret n -> (0 <= n)%Z).
  { intros k Hk. unfold fowler_calc_frames. cbv zeta.
    rewrite ssr_calc_frames_pos by exact Hft. cbn [bind ret].
    destruct (Qlt_le_dec (t - ft * inject_Z k) 0) as [H1|H1];
      intros [= <-]; [lia|].
    assert (0 <= py_round ((t - ft * inject_Z k) / ft))%Z; [|lia].
    apply py_round_nonneg. apply Qle_shift_div_l; [exact Hft|lra]. }
  unfold FRAMES_PER_EXPOSURE_TIME in Hf.
  repeat (apply lookup_insert_Some in Hf as [[_ <-] | [_ Hf]];
          [ first [ apply Hfow; lia
                  | unfold cds_calc_frames, mean_calc_frames;
                    rewrite ssr_calc_frames_pos by exact Hft;
                    cbn [bind ret]; intros [= <-]; lia ] |]).
  rewrite lookup_empty in Hf. discriminate Hf.
Qed.

Lemma length_skip_schedule (science_frames skip_frames : Z) :
  (0 <= science_frames)%Z ->
  length (skip_schedule science_frames skip_frames)
  = Z.to_nat science_frames.
Proof.
  intros HN. unfold skip_schedule.
  destruct (skip_loop_spec skip_frames (Z.to_nat science_frames) []
              science_frames) as (j & Hj & Hle); [lia|].
  rewrite Hj. cbn [app].
  rewrite py_slice_prefix by (rewrite length_periodic; lia).
  rewrite length_take, length_periodic. lia.
Qed.

Lemma last_app_default {A : Type} (l1 l2 : list A) (d : A) :
  List.last (l1 ++ l2) d = List.last l2 (List.last l1 d).
Proof.
  revert d. induction l1 as [|a l1 IH]; intros d; [reflexivity|].
  change ((a :: l1) ++ l2) with (a :: (l1 ++ l2)).
  rewrite !last_cons_default. apply IH.
Qed.

(** Where a capture loop that no capture leaves early ends. *)
Lemma capture_loop_end (capture_frame : Z -> bool -> bool -> res unit)
    (frame_time : Q) (requests : list (Z * bool * bool))
    (s : capture_state) :
  snd (capture_loop capture_frame frame_time requests s) = None ->
  let s' := List.last (fst (capture_loop capture_frame frame_time requests s))
              s in
  total_frames s' = (total_frames s - Z.of_nat (length requests))%Z /\
  TotalFrameCount (status (stat s')) = TotalFrameCount (status (stat s)).
Proof.
  revert s. induction requests as [|[[frame reset] skip] rest IH];
    intros s; [intros _; cbn; split; [lia|reflexivity]|].
  cbn [capture_loop]. destruct (capture_frame frame reset skip) as [e|[]];
    [discriminate|].
  specialize (IH (after_capture frame_time s)).
  destruct (capture_loop capture_frame frame_time rest
              (after_capture frame_time s)) as [trace e] eqn:E.
  cbn [fst snd] in *. intros He. destruct (IH He) as [Ht Hc].
  rewrite last_cons_default. cbv zeta. rewrite Ht, Hc.
  split; [cbn [after_capture total_frames length]; lia|reflexivity].
Qed.

(** X24: an exposure of a time that is not negative, with no capture
    failing, ends with the remaining exposure time at zero and the total
    frame count at the number of science frames. *)
Theorem exposure_ends_at_zero
    (capture_frame : Z -> bool -> bool -> res unit) (self : BaseMACIE)
    (exposure_time skip_time : Q) (status : Status) (run : exposure_run) :
  0 < FRAMETIMESEC (settings self) -> 0 <= exposure_time ->
  (0 <= reset_frames self)%Z ->
  start capture_frame self exposure_time skip_time status = ret run ->
  raised run = None ->
  (exists x : Q, time_remaining (at_end run) = Some x /\ x == 0) /\
  TotalFrameCount (StatusPy.status (stat (at_end run)))
  = Some (science_frames run).
Proof.
  intros Hft Ht Hreset. unfold start. cbv zeta.
  destruct (calc_num_frames _ _ _) as [e|n] eqn:Hn; [discriminate|].
  pose proof (calc_num_frames_nonneg _ _ _ _ Hft Ht Hn) as Hn0.
  cbn [bind]. rewrite ssr_calc_frames_pos by exact Hft. cbn [bind ret].
  set (ft := FRAMETIMESEC (settings self)) in *.
  set (sk := skip_schedule n (py_round (skip_time / ft))).
  set (s0 := {| total_frames := (reset_frames self + n)%Z;
                stat := update_exposure_time_remaining
                          (inject_Z (reset_frames self + n) * ft)
                          (update_total_frame_count n status) |}).
  assert (H0 : in_step ft s0) by reflexivity.
  set (resets := map (fun frame : Z => (frame, true, false))
                   (py_range (reset_frames self))).
  set (sciences := imap (fun (frame : nat) (skip_frame : bool) =>
                           (Z.of_nat frame, false, skip_frame)) sk).
  pose proof (capture_loop_decreases capture_frame ft Hft resets s0 H0)
    as [_ Hl1].
  pose proof (capture_loop_end capture_frame ft resets s0) as He1.
  destruct (capture_loop capture_frame ft resets s0) as [trace1 [e|]] eqn:E1;
    cbn [fst snd] in *.
  { intros [= <-]. discriminate. }
  destruct (He1 eq_refl) as [Ht1 Hc1].
  pose proof (capture_loop_decreases capture_frame ft Hft sciences
                (List.last trace1 s0) Hl1) as [_ Hl2].
  pose proof (capture_loop_end capture_frame ft sciences
                (List.last trace1 s0)) as He2.
  destruct (capture_loop capture_frame ft sciences (List.last trace1 s0))
    as [trace2 e2] eqn:E2. cbn [fst snd] in *.
  intros [= <-]. cbn [raised]. intros ->.
  destruct (He2 eq_refl) as [Ht2 Hc2].
  unfold at_end. cbn [after_frames at_start science_frames].
  rewrite last_app_default.
  assert (Hlen : (Z.of_nat (length resets) + Z.of_nat (length sciences)
                  = reset_frames self + n)%Z).
  { unfold resets, sciences, py_range.
    rewrite !length_map, length_seq, length_imap.
    unfold sk. rewrite length_skip_schedule by exact Hn0. lia. }
  split.
  - unfold in_step in Hl2. rewrite Hl2. eexists. split; [reflexivity|].
    rewrite Ht2, Ht1. cbn [total_frames s0].
    replace (reset_frames self + n - Z.of_nat (length resets)
             - Z.of_nat (length sciences))%Z with 0%Z by lia.
    ring.
  - rewrite Hc2, Hc1. reflexivity.
Qed.

Lemma exposure_ends_at_zero_witness :
  exists run : exposure_run,
    start quiet_device acadia 3 0 polled_status = ret run /\
    (exists x : Q, time_remaining (at_end run) = Some x /\ x == 0).
Proof.
  eexists. split; [reflexivity|].
  apply (exposure_ends_at_zero quiet_device acadia 3 0 polled_status);
    reflexivity || discriminate || lra || lia.
Defined.

End WholeExposure.

Section Columns.
Import Image StatusPy MacieIO Interface Files Commands Props Extra.

Lemma lookup_rev {A : Type} (l : list A) (i : nat) :
  i < length l -> rev l !! i = l !! (length l - S i).
Proof.
  revert i. induction l as [|a l IH]; intros i Hi; [cbn in Hi; lia|].
  cbn [rev length] in *.
  destruct (Nat.eq_dec i (length l)) as [->|Hne].
  - rewrite lookup_app_r by (rewrite length_rev; lia).
    rewrite length_rev, !Nat.sub_diag. reflexivity.
  - rewrite lookup_app_l by (rewrite length_rev; lia).
    rewrite IH by lia.
    replace (S (length l) - S i) with (S (length l - S i)) by lia.
    reflexivity.
Qed.

(** A strided slice, by the indices it picks. *)
Lemma filter_by_index (P : nat -> Prop) `{!forall j, Decision (P j)}
    (row : list nat) :
  map snd (filter (fun p => P (fst p)) (imap (fun j x => (j, x)) row))
  = map (fun j => default 0 (row !! j)) (filter P (seq 0 (length row))).
Proof.
  induction row as [|x row IH] using rev_ind; [reflexivity|].
  rewrite imap_app, filter_app, map_app, IH.
  rewrite length_app. cbn [length imap].
  rewrite Nat.add_1_r, seq_S, filter_app, map_app. cbn [Nat.add].
  f_equal.
  - apply map_ext_in. intros j Hj. apply list_elem_of_In in Hj.
    apply list_elem_of_filter in Hj as [_ Hj]. apply elem_of_seq in Hj.
    rewrite lookup_app_l by lia. reflexivity.
  - rewrite Nat.add_0_r. rewrite !filter_cons, !filter_nil. cbn [fst].
    destruct (decide (P (length row))); [|reflexivity].
    cbn [map snd]. rewrite lookup_app_r by lia.
    rewrite Nat.sub_diag. reflexivity.
Qed.

Lemma strided_channel (row : list nat) (i nch p : nat) :
  i < nch -> length row = p * nch ->
  strided row i nch = map (fun q => default 0 (row !! (q * nch + i))) (seq 0 p).
Proof.
  intros Hi Hlen. unfold strided.
  pose proof (filter_by_index (fun j => i <= j /\ (j - i) mod nch = 0) row)
    as Hidx.
  cbv beta in Hidx. rewrite Hidx.
  rewrite (list_filter_iff _ (fun b => bool_decide (b mod nch = i) = true)).
  2:{ intros j. rewrite stride_class by exact Hi.
      rewrite bool_decide_eq_true. reflexivity. }
  rewrite Hlen, filter_mod_seq by exact Hi. rewrite map_map. reflexivity.
Qed.

Lemma deinterlace_row_lookup (nch nheaders ncols c : nat) (row : list nat) :
  0 < nch -> nheaders <= ncols -> 0 < (ncols - nheaders) / nch ->
  ncols - nheaders = nch * ((ncols - nheaders) / nch) ->
  length row = ncols -> c < ncols ->
  deinterlace_row nch nheaders row !! c
  = row !! source_column nch nheaders ncols c.
Proof.
  intros Hnch Hh Hpix Hwidth Hlen Hc.
  unfold deinterlace_row, source_column. cbv zeta.
  set (p := (ncols - nheaders) / nch) in *.
  destruct (Nat.ltb_spec c nheaders) as [Hlt|Hge].
  - rewrite lookup_app_l by (rewrite length_firstn; lia).
    apply lookup_take_lt, Hlt.
  - rewrite lookup_app_r by (rewrite length_firstn; lia).
    rewrite length_firstn.
    replace (Init.Nat.min nheaders (length row)) with nheaders by lia.
    set (c' := c - nheaders).
    assert (Hc' : c' < nch * p) by (unfold c'; lia).
    assert (Hrow : length (skipn nheaders row) = p * nch)
      by (rewrite length_skipn; lia).
    assert (Hi : c' / p < nch)
      by (apply Nat.Div0.div_lt_upper_bound; lia).
    assert (Hq : c' mod p < p) by (apply Nat.mod_upper_bound; lia).
    rewrite (lookup_concat_uniform _ p).
    + change (@map) with (@fmap list _).
      rewrite list_lookup_fmap, lookup_seq_lt by exact Hi.
      cbn [fmap option_fmap option_map mbind option_bind Nat.add].
      change (@fmap list _) with (@map).
      rewrite (strided_channel _ _ _ p) by assumption.
      assert (Hcell : forall q, q < p ->
                map (fun q => default 0 (skipn nheaders row !! (q * nch + c' / p)))
                  (seq 0 p) !! q
                = row !! (nheaders + q * nch + c' / p)).
      { intros q Hq'. change (@map) with (@fmap list _).
        rewrite list_lookup_fmap, lookup_seq_lt by exact Hq'.
        cbn [fmap option_fmap option_map Nat.add].
        rewrite lookup_drop.
        replace (nheaders + (q * nch + c' / p))
          with (nheaders + q * nch + c' / p) by lia.
        destruct (lookup_lt_is_Some_2 row (nheaders + q * nch + c' / p))
          as [v Hv]; [nia|].
        rewrite Hv. reflexivity. }
      destruct (Nat.even (c' / p)).
      * apply Hcell, Hq.
      * rewrite lookup_rev by (rewrite length_map, length_seq; exact Hq).
        rewrite length_map, length_seq.
        replace (p - S (c' mod p)) with (p - 1 - c' mod p) by lia.
        apply Hcell. lia.
    + intros x Hx. apply list_elem_of_fmap in Hx as (i & -> & Hi').
      apply elem_of_seq in Hi'.
      rewrite (strided_channel _ _ _ p) by (assumption || lia).
      destruct (Nat.even i);
        rewrite ?length_rev, length_map, length_seq; reflexivity.
    + exact Hpix.
Qed.

Lemma length_deinterlace_row (nch nheaders ncols : nat) (row : list nat) :
  0 < nch -> nheaders <= ncols ->
  ncols - nheaders = nch * ((ncols - nheaders) / nch) ->
  length row = ncols ->
  length (deinterlace_row nch nheaders row) = ncols.
Proof.
  intros Hnch Hh Hwidth Hlen.
  rewrite (Permutation_length (deinterlace_row_permutation nch nheaders row Hnch)).
  exact Hlen.
Qed.

(** X25: with at least one column per channel and the columns behind the
    header dividing evenly among the channels, [deinterlace] leaves the
    header columns of every row where they are and fills the columns
    behind them channel by channel: channel [i] brings columns
    [i], [i + nch], [i + 2 nch], ... of the row, in this order when [i] is
    even and in the opposite order when [i] is odd. *)
Theorem deinterlace_columns (nch nheaders ncols : nat)
    (image : list (list nat)) :
  0 < nch -> nheaders <= ncols -> 0 < (ncols - nheaders) / nch ->
  ncols - nheaders = nch * ((ncols - nheaders) / nch) ->
  (forall row, row ∈ image -> length row = ncols) ->
  exists image' : list (list nat),
    deinterlace nch nheaders ncols image = ret image' /\
    length image' = length image /\
    forall (r : nat) (row row' : list nat) (c : nat),
      image !! r = Some row -> image' !! r = Some row' -> c < ncols ->
      length row' = ncols /\
      row' !! c = row !! source_column nch nheaders ncols c.
Proof.
  intros Hnch Hh Hpix Hwidth Hrows. unfold deinterlace. cbv zeta.
  destruct (Nat.eqb_spec nch 0) as [|_]; [lia|].
  destruct (Nat.eqb_spec ((ncols - nheaders) / nch) 0) as [|_]; [lia|].
  destruct (Nat.eqb_spec (ncols - nheaders)
              (nch * ((ncols - nheaders) / nch))) as [_|]; [|lia].
  eexists. split; [reflexivity|]. split; [apply length_map|].
  intros r row row' c Hrow Hrow' Hc.
  change (@map) with (@fmap list _) in Hrow'.
  rewrite list_lookup_fmap, Hrow in Hrow'. cbn in Hrow'.
  injection Hrow' as <-.
  assert (Hlen : length row = ncols)
    by (eapply Hrows, list_elem_of_lookup_2, Hrow).
  split; [apply length_deinterlace_row; assumption|].
  apply deinterlace_row_lookup; assumption.
Qed.

Lemma deinterlace_columns_witness :
  exists image' : list (list nat),
    deinterlace 2 1 5 [[10; 11; 12; 13; 14]] = ret image' /\
    image' !! 0 = Some [10; 11; 13; 14; 12].
Proof.
  destruct (deinterlace_columns 2 1 5 [[10; 11; 12; 13; 14]])
    as (image' & Hde & _ & _); [lia|lia|cbn; lia|reflexivity| |].
  - intros row Hrow. apply list_elem_of_singleton in Hrow as ->. reflexivity.
  - exists image'. split; [exact Hde|].
    cbv in Hde. injection Hde as <-. reflexivity.
Defined.

End Columns.

Section UnevenBlocks.
Import Image StatusPy MacieIO Interface Files Commands Props Extra.

(** X26: when the read block does not divide the frame, [init] fails on
    the shape of the index array, whatever the number of cameras, as long
    as there is one. *)
Theorem init_uneven_blocks (self : BaseMACIE) :
  0 < length (list_asics self) ->
  length (list_asics self) = length (list_asics_index self) ->
  0 < science_read_block_size self ->
  frame_size self mod science_read_block_size self <> 0 ->
  init_geometry self = raise ValueError.
Proof.
  intros Hn Hlen Hr Hmod. unfold init_geometry.
  set (r := science_read_block_size self) in *.
  set (n := length (list_asics self)) in *.
  destruct (Nat.eqb_spec r 0) as [|_]; [lia|]. cbv zeta.
  unfold gen_asic_data_frame_deinterleaving_array. cbv zeta.
  cbn [list_asics blocks_per_frame total_frame_size science_read_block_size
       set_geometry].
  fold r. fold n. rewrite <- Hlen. unfold np_reshape2, np_arange.
  rewrite length_seq.
  destruct (Nat.eqb_spec (frame_size self * n) (frame_size self / r * n * r))
    as [E|_]; [|reflexivity].
  exfalso. pose proof (Nat.div_mod_eq (frame_size self) r) as Hd.
  assert (frame_size self / r * r < frame_size self) by lia. nia.
Qed.

Lemma init_uneven_blocks_witness :
  init_geometry (macie 2 3 4 2 false 1 0) = raise ValueError.
Proof.
  apply (init_uneven_blocks (macie 2 3 4 2 false 1 0)); cbn; lia.
Defined.

End UnevenBlocks.

Section CropAndBorder.
Import Image StatusPy MacieIO Interface Files Commands Props BaseImage Extra.

Lemma length_py_slice {A : Type} (l : list A) (start stop : Z) :
  (0 <= start <= stop)%Z -> (stop <= Z.of_nat (length l))%Z ->
  length (py_slice l start stop) = Z.to_nat (stop - start).
Proof.
  intros Hs He. unfold py_slice. cbv zeta. unfold py_slice_bound.
  destruct (Z.ltb_spec start 0) as [|_]; [lia|].
  destruct (Z.ltb_spec stop 0) as [|_]; [lia|].
  rewrite length_firstn, length_skipn. lia.
Qed.

Lemma slice_length_inside (len : nat) (start stop : Z) :
  (0 <= start <= stop)%Z -> (stop <= Z.of_nat len)%Z ->
  slice_length len start stop = Z.to_nat (stop - start).
Proof.
  intros Hs He. unfold slice_length. apply length_py_slice; [exact Hs|].
  rewrite length_seq. exact He.
Qed.

Lemma py_slice_all {A : Type} (l : list A) :
  py_slice l 0 (Z.of_nat (length l)) = l.
Proof.
  rewrite py_slice_prefix by lia. rewrite Nat2Z.id. apply firstn_all.
Qed.

Lemma slice_columns (start size : Z) (im : image) :
  well_shaped im -> (0 <= start)%Z -> (0 <= size)%Z ->
  (start + size <= Z.of_nat (shape_x im))%Z ->
  well_shaped (slice (Some (start, (start + size)%Z)) None im) /\
  shape_x (slice (Some (start, (start + size)%Z)) None im) = Z.to_nat size /\
  shape_y (slice (Some (start, (start + size)%Z)) None im) = shape_y im.
Proof.
  intros [Hy Hx] Hs Hn He. unfold slice. cbv zeta.
  cbn [from_option id fst snd shape_x shape_y pixels].
  rewrite !slice_length_inside by lia. rewrite <- Hy, py_slice_all.
  replace (start + size - start)%Z with size by lia.
  split; [|split; [reflexivity|rewrite Hy; lia]].
  split; cbn [pixels shape_x shape_y].
  - rewrite length_map, Hy. lia.
  - intros row Hrow. apply list_elem_of_fmap in Hrow as (row0 & -> & Hrow0).
    rewrite length_py_slice by (rewrite ?(Hx row0 Hrow0); lia).
    f_equal. lia.
Qed.

Lemma slice_rows (start size : Z) (im : image) :
  well_shaped im -> (0 <= start)%Z -> (0 <= size)%Z ->
  (start + size <= Z.of_nat (shape_y im))%Z ->
  well_shaped (slice None (Some (start, (start + size)%Z)) im) /\
  shape_x (slice None (Some (start, (start + size)%Z)) im) = shape_x im /\
  shape_y (slice None (Some (start, (start + size)%Z)) im) = Z.to_nat size.
Proof.
  intros [Hy Hx] Hs Hn He. unfold slice. cbv zeta.
  cbn [from_option id fst snd shape_x shape_y pixels].
  rewrite !slice_length_inside by lia.
  replace (start + size - start)%Z with size by lia.
  split; [|split; [lia|reflexivity]].
  split; cbn [pixels shape_x shape_y].
  - rewrite length_map, length_py_slice by lia. f_equal. lia.
  - intros row Hrow. apply list_elem_of_fmap in Hrow as (row0 & -> & Hrow0).
    assert (Hin : row0 ∈ pixels im).
    { unfold py_slice in Hrow0. cbv zeta in Hrow0.
      apply list_elem_of_lookup_1 in Hrow0 as [i Hi].
      apply lookup_take_Some in Hi as [Hi _]. rewrite lookup_drop in Hi.
      eapply list_elem_of_lookup_2, Hi. }
    rewrite <- (Hx row0 Hin) at 2. rewrite <- (Hx row0 Hin), py_slice_all.
    lia.
Qed.

Lemma border_shape (x_left x_right y_top y_bottom : nat) (v : Q)
    (im : image) :
  well_shaped im ->
  well_shaped (border x_left x_right y_top y_bottom v im).
Proof.
  intros [Hy Hx]. unfold border. cbv zeta. split; cbn [pixels shape_x shape_y].
  - rewrite !length_app, !length_replicate, length_map. lia.
  - intros row Hrow. rewrite !elem_of_app in Hrow.
    destruct Hrow as [Hrow|[Hrow|Hrow]].
    + apply elem_of_replicate in Hrow as [-> _]. apply length_replicate.
    + apply list_elem_of_fmap in Hrow as (row0 & -> & Hrow0).
      rewrite !length_app, !length_replicate, (Hx row0 Hrow0). lia.
    + apply elem_of_replicate in Hrow as [-> _]. apply length_replicate.
Qed.

(** X27: asked for a size that is not negative, [crop_and_border] returns
    an image of that many columns and rows, except along an axis whose
    length differs from the size asked for by exactly one: that axis is
    left as it is. *)
Theorem crop_and_border_shape (x_size y_size : Z) (border_value : Q)
    (self : image) :
  well_shaped self -> (0 <= x_size)%Z -> (0 <= y_size)%Z ->
  well_shaped (crop_and_border x_size y_size border_value self) /\
  shape_x (crop_and_border x_size y_size border_value self)
  = cropped_length (shape_x self) x_size /\
  shape_y (crop_and_border x_size y_size border_value self)
  = cropped_length (shape_y self) y_size.
Proof.
  intros Hwf Hxs Hys. unfold crop_and_border. cbv zeta.
  set (xi := Z.of_nat (shape_x self)).
  set (yi := Z.of_nat (shape_y self)).
  set (x_start := ((xi - x_size) ÷ 2)%Z).
  set (y_start := ((yi - y_size) ÷ 2)%Z).
  assert (Hxq : (xi - x_size = 2 * x_start + Z.rem (xi - x_size) 2)%Z)
    by apply Z.quot_rem'.
  assert (Hyq : (yi - y_size = 2 * y_start + Z.rem (yi - y_size) 2)%Z)
    by apply Z.quot_rem'.
  pose proof (Z.rem_bound_abs (xi - x_size) 2 ltac:(lia)) as Hxr.
  pose proof (Z.rem_bound_abs (yi - y_size) 2 ltac:(lia)) as Hyr.
  pose proof (Z.rem_sign_mul (xi - x_size) 2 ltac:(lia)) as Hxsgn.
  pose proof (Z.rem_sign_mul (yi - y_size) 2 ltac:(lia)) as Hysgn.
  set (im1 := if (0 <? x_start)%Z then _ else _).
  assert (H1 : well_shaped im1 /\
               shape_x im1 = cropped_length (shape_x self) x_size /\
               shape_y im1 = shape_y self).
  { unfold im1, cropped_length. fold xi.
    destruct (Z.ltb_spec 0 x_start) as [Hpos|Hnp].
    - destruct (slice_columns x_start x_size self Hwf) as (Hw & Hx & Hy);
        [lia|lia|fold xi; nia|].
      split; [exact Hw|]. split; [|exact Hy]. rewrite Hx.
      destruct (Z.eqb_spec (Z.abs (xi - x_size)) 1); [nia|reflexivity].
    - destruct (Z.ltb_spec x_start 0) as [Hneg|Hnn].
      + split; [apply border_shape, Hwf|]. split; [|cbn; lia].
        cbn [border shape_x].
        destruct (Z.eqb_spec (Z.abs (xi - x_size)) 1); [nia|].
        unfold xi in *. nia.
      + split; [exact Hwf|]. split; [|reflexivity].
        destruct (Z.eqb_spec (Z.abs (xi - x_size)) 1); [reflexivity|].
        unfold xi in *. nia. }
  clearbody im1. destruct H1 as (Hw1 & Hx1 & Hy1).
  unfold cropped_length at 2. fold yi. rewrite <- Hx1.
  destruct (Z.ltb_spec 0 y_start) as [Hpos|Hnp].
  - destruct (slice_rows y_start y_size im1 Hw1) as (Hw & Hx & Hy);
      [lia|lia|rewrite Hy1; fold yi; nia|].
    split; [exact Hw|]. split; [exact Hx|]. rewrite Hy.
    destruct (Z.eqb_spec (Z.abs (yi - y_size)) 1); [nia|reflexivity].
  - destruct (Z.ltb_spec y_start 0) as [Hneg|Hnn].
    + split; [apply border_shape, Hw1|]. split; [cbn; lia|].
      cbn [border shape_y]. rewrite Hy1.
      destruct (Z.eqb_spec (Z.abs (yi - y_size)) 1); [nia|].
      unfold yi in *. nia.
    + split; [exact Hw1|]. split; [reflexivity|]. rewrite Hy1.
      destruct (Z.eqb_spec (Z.abs (yi - y_size)) 1); [reflexivity|].
      unfold yi in *. nia.
Qed.

Lemma crop_and_border_shape_witness :
  shape_x (crop_and_border 4 3 0
             {| shape_y := 1; shape_x := 5; pixels := [[1; 2; 3; 4; 5]]%Q |})
  = 5 /\
  shape_y (crop_and_border 4 3 0
             {| shape_y := 1; shape_x := 5; pixels := [[1; 2; 3; 4; 5]]%Q |})
  = 3.
Proof.
  destruct (crop_and_border_shape 4 3 0
              {| shape_y := 1; shape_x := 5; pixels := [[1; 2; 3; 4; 5]]%Q |})
    as (_ & Hx & Hy); [|lia|lia|split; [exact Hx|exact Hy]].
  split; [reflexivity|]. intros row Hrow.
  apply list_elem_of_singleton in Hrow as ->. reflexivity.
Defined.

End CropAndBorder.
